(** * Togglekit flag evaluation core: rollout hashing, condition matching
      and the evaluator (packages/flags-core-ts), with the clients and the
      API code built on it.

    The source modules [rollout], [conditions] and [evaluator] are embedded
    as Rocq functions, with the declarations of [types].

    - A JavaScript string is the sequence of its UTF-16 code units.
    - A number is an IEEE 754 binary64 value: the kernel's primitive floats,
      with their comparisons.  The 32-bit integer arithmetic of the hash is
      written over [Z] with its wrap-around.
    - The data of a configuration or a context is JSON data plus
      [undefined].  An object is the finite map of its own properties and
      has [Object.prototype] as its prototype; an array is the list of its
      elements and has [Array.prototype].  Arrays and objects carry an
      identity, which is what [===] compares.
    - A property is looked up along the prototype chain, as [in] and a
      property read do: the built-in objects that such a read can reach
      (the two prototypes, their constructors and their methods) are
      values of their own.  Which methods the prototypes have, what
      [String] makes of a number or of a function, and [parseFloat] belong
      to the language, not to the repository: the development is
      parametric in them (class [Builtins]).
    - An operation that throws a [TypeError] in JavaScript ([in] on a value
      that is not an object, [String] on an object that cannot be
      converted, a method called on a value that lacks it) returns an
      abrupt completion, and the functions of the source propagate it. *)

From Stdlib Require Import ZArith List Ascii String Lia Bool.
From Stdlib Require Import Floats Uint63 DecimalString.
From stdpp Require Import base option gmap list.

Set Warnings "-register-all".
#[local] Open Scope Z_scope.

(** ** JavaScript strings *)

(** A string is the list of its UTF-16 code units ([charCodeAt]). *)
Abbreviation jsstring := (list N).

(** The string whose code units are the characters of an ASCII literal. *)
Definition js (s : string) : jsstring :=
  List.map N_of_ascii (list_ascii_of_string s).

Definition jsstring_eqb (a b : jsstring) : bool := bool_decide (a = b).

(** ** rollout.ts *)

Module Rollout.

(** [ToInt32]: the value modulo 2^32, read as a signed 32-bit integer. *)
Definition toInt32 (x : Z) : Z := (x + 2 ^ 31) mod 2 ^ 32 - 2 ^ 31.

(** [x << k] on 32-bit integers. *)
Definition shl32 (x k : Z) : Z := toInt32 (Z.shiftl (toInt32 x) k).

(** [x & y] on 32-bit integers. *)
Definition and32 (x y : Z) : Z := toInt32 (Z.land (toInt32 x) (toInt32 y)).

(** The body of the [for] loop of [simpleHash], run over the code units
    that remain. *)
Fixpoint simpleHash_loop (hash : Z) (str : jsstring) : Z :=
  match str with
  | [] => hash
  | c :: rest =>
      let char := Z.of_N c in
      let hash := (shl32 hash 5 - hash) + char in
      let hash := and32 hash hash in
      simpleHash_loop hash rest
  end.

Definition simpleHash (str : jsstring) : Z :=
  Z.abs (simpleHash_loop 0 str).

Definition computeRolloutBucket (userId flagKey : jsstring) : Z :=
  let combined := userId ++ js ":" ++ flagKey in
  let hash := simpleHash combined in
  Z.rem hash 101.

(** The algorithm as the specification words it: a polynomial rolling hash
    [h = h*31 + charCode] truncated to 32 signed bits at every character,
    then the absolute value, then the residue modulo 101. *)
Definition spec_truncate32 (x : Z) : Z :=
  let r := x mod 2 ^ 32 in if r <? 2 ^ 31 then r else r - 2 ^ 32.

Definition spec_rolling_hash (str : jsstring) : Z :=
  fold_left (fun h c => spec_truncate32 (h * 31 + Z.of_N c)) str 0.

Definition spec_bucket (userId flagKey : jsstring) : Z :=
  Z.abs (spec_rolling_hash (userId ++ js ":" ++ flagKey)) mod 101.

End Rollout.


(** ** JavaScript values *)

Module Values.

(** Identity of an array or object: what [===] compares on them. *)
Abbreviation loc := nat (only parsing).

(** The data a configuration or a context carries: JSON data plus
    [undefined].  An array lists its elements (no holes); an object maps
    its own property names to values. *)
Inductive jsval : Type :=
| VUndefined
| VNull
| VBool (b : bool)
| VNumber (n : float)
| VString (s : jsstring)
| VArray (l : loc) (elems : list jsval)
| VObject (l : loc) (props : gmap jsstring jsval).

(** The built-in objects a property read on such data can reach through
    the prototype chain: the prototypes themselves (by [__proto__]), their
    constructors and their methods, a method being named by the property
    that holds it. *)
Inductive builtin : Type :=
| ObjectPrototype
| ArrayPrototype
| ObjectConstructor
| ArrayConstructor
| ObjectMethod (name : jsstring)
| ArrayMethod (name : jsstring).

#[global] Instance builtin_eq_dec : EqDecision builtin.
Proof. solve_decision. Defined.

(** What a property read returns: data, or a built-in. *)
Inductive jsany : Type :=
| Data (v : jsval)
| Builtin (b : builtin).
Coercion Data : jsval >-> jsany.

(** Completion of an evaluation: a value, or an exception thrown. *)
Inductive js_error : Type := TypeError.

Inductive completion (A : Type) : Type :=
| Normal (a : A)
| Throw (e : js_error).
Arguments Normal {A} a.
Arguments Throw {A} e.

Definition bind {A B} (c : completion A) (k : A -> completion B) : completion B :=
  match c with
  | Normal a => k a
  | Throw e => Throw e
  end.

Notation "'let!' x ':=' c 'in' k" := (bind c (fun x => k))
  (at level 10, x name, c at level 200, k at level 200).

(** What the language provides and the source relies on: [String(n)] on a
    number, the global [parseFloat], [String(f)] on a built-in function,
    the names of the methods of [Object.prototype] and [Array.prototype]
    ([constructor] aside, which both always have), and whether
    [Object.prototype] has the accessor [__proto__]. *)
Class Builtins : Type := {
  number_to_string : float -> jsstring;
  parseFloat : jsstring -> float;
  function_to_string : builtin -> jsstring;
  object_prototype_methods : list jsstring;
  array_prototype_methods : list jsstring;
  proto_accessor : bool
}.

(** [s.split(sep)] for a one-character separator. *)
Fixpoint split (sep : N) (s : jsstring) : list jsstring :=
  match s with
  | [] => [[]]
  | c :: rest =>
      if N.eqb c sep then [] :: split sep rest
      else match split sep rest with
           | seg :: segs => (c :: seg) :: segs
           | [] => [[c]]
           end
  end.

Fixpoint starts_with (needle s : jsstring) : bool :=
  match needle, s with
  | [], _ => true
  | n :: needle', c :: s' => N.eqb n c && starts_with needle' s'
  | _ :: _, [] => false
  end.

(** [s.includes(needle)] on two strings. *)
Fixpoint includes (s needle : jsstring) : bool :=
  starts_with needle s
  || match s with
     | [] => false
     | _ :: s' => includes s' needle
     end.

(** [typeof v]. *)
Inductive type_tag : Type :=
| TUndefined | TObject | TBoolean | TNumber | TString | TFunction.

Definition typeof (v : jsany) : type_tag :=
  match v with
  | Data VUndefined => TUndefined
  | Data VNull => TObject
  | Data (VBool _) => TBoolean
  | Data (VNumber _) => TNumber
  | Data (VString _) => TString
  | Data (VArray _ _) => TObject
  | Data (VObject _ _) => TObject
  | Builtin ObjectPrototype | Builtin ArrayPrototype => TObject
  | Builtin _ => TFunction
  end.

Definition type_tag_eqb (a b : type_tag) : bool :=
  match a, b with
  | TUndefined, TUndefined | TObject, TObject | TBoolean, TBoolean
  | TNumber, TNumber | TString, TString | TFunction, TFunction => true
  | _, _ => false
  end.

(** [ToBoolean]: what [if (v)], [!v], [v && _] and [v || _] test. *)
Definition truthy (v : jsany) : bool :=
  match v with
  | Data VUndefined | Data VNull => false
  | Data (VBool b) => b
  | Data (VNumber n) => negb (PrimFloat.is_zero n || PrimFloat.is_nan n)
  | Data (VString s) => negb (jsstring_eqb s [])
  | Data (VArray _ _) | Data (VObject _ _) => true
  | Builtin _ => true
  end.

(** [a === b]: by value on primitives (IEEE equality on numbers), by
    identity on arrays, objects and built-ins. *)
Definition strict_equals (a b : jsany) : bool :=
  match a, b with
  | Data VUndefined, Data VUndefined => true
  | Data VNull, Data VNull => true
  | Data (VBool x), Data (VBool y) => Bool.eqb x y
  | Data (VNumber x), Data (VNumber y) => PrimFloat.eqb x y
  | Data (VString x), Data (VString y) => jsstring_eqb x y
  | Data (VArray l _), Data (VArray l' _) => Nat.eqb l l'
  | Data (VObject l _), Data (VObject l' _) => Nat.eqb l l'
  | Builtin x, Builtin y => bool_decide (x = y)
  | _, _ => false
  end.

(** [v == null]: true of [null] and [undefined] only. *)
Definition is_nullish (v : jsany) : bool :=
  match v with
  | Data VUndefined | Data VNull => true
  | _ => false
  end.

(** [a == b] where [a] or [b] is [null] or [undefined] (the one place the
    source uses [==] on two unknowns): true when both are. *)
Definition loose_equals_nullish (a b : jsany) : bool :=
  is_nullish a && is_nullish b.

(** Decimal digits of a natural number. *)
Definition decimal (n : nat) : jsstring :=
  js (DecimalString.NilZero.string_of_uint (Nat.to_uint n)).

Definition number_of_nat (n : nat) : float :=
  PrimFloat.of_uint63 (Uint63.of_Z (Z.of_nat n)).

Definition number_of_Z (z : Z) : float :=
  if z <? 0 then PrimFloat.opp (PrimFloat.of_uint63 (Uint63.of_Z (- z)))
  else PrimFloat.of_uint63 (Uint63.of_Z z).

(** [elems.join(",")] given the strings of the elements. *)
Fixpoint join_comma (l : list jsstring) : jsstring :=
  match l with
  | [] => []
  | [s] => s
  | s :: rest => s ++ js "," ++ join_comma rest
  end.

(** [String(v)] on data.  An array joins the strings of its elements with
    commas, [null] and [undefined] elements giving the empty string, and
    throws where an element does.  An object is converted by its
    [toString]: the inherited one answers "[object Object]"; an own
    property of that name is data, hence not callable, and the conversion
    throws a [TypeError] (the inherited [valueOf] returns the object itself,
    an own one is not callable either). *)
Fixpoint data_to_String `{Builtins} (v : jsval) : completion jsstring :=
  match v with
  | VUndefined => Normal (js "undefined")
  | VNull => Normal (js "null")
  | VBool true => Normal (js "true")
  | VBool false => Normal (js "false")
  | VNumber n => Normal (number_to_string n)
  | VString s => Normal s
  | VArray _ elems =>
      let! strings :=
        (fix elements (l : list jsval) : completion (list jsstring) :=
           match l with
           | [] => Normal []
           | e :: rest =>
               let! s := match e with
                         | VUndefined | VNull => Normal []
                         | _ => data_to_String e
                         end in
               let! ss := elements rest in
               Normal (s :: ss)
           end) elems in
      Normal (join_comma strings)
  | VObject _ props =>
      if bool_decide (is_Some (props !! js "toString")) then Throw TypeError
      else Normal (js "[object Object]")
  end.

(** [String(v)]: [Object.prototype] is an object without [toString] of its
    own, [Array.prototype] an empty array, and a function gives its source
    text. *)
Definition to_String `{Builtins} (v : jsany) : completion jsstring :=
  match v with
  | Data d => data_to_String d
  | Builtin ObjectPrototype => Normal (js "[object Object]")
  | Builtin ArrayPrototype => Normal []
  | Builtin f => Normal (function_to_string f)
  end.
Arguments to_String : simpl never.

(** [Array.isArray(v)]; [Array.prototype] is an array. *)
Definition isArray (v : jsany) : bool :=
  match v with
  | Data (VArray _ _) | Builtin ArrayPrototype => true
  | _ => false
  end.

(** *** Objects and their properties *)

(** The values that are objects: those which pass the test
    [v && typeof v === 'object']. *)
Inductive object : Type :=
| OPlain (l : loc) (props : gmap jsstring jsval)
| OList (l : loc) (elems : list jsval)
| OObjectPrototype
| OArrayPrototype.

(** [v && typeof v === 'object']: the object [v] is, if it is one. *)
Definition as_object (v : jsany) : option object :=
  match v with
  | Data (VObject l props) => Some (OPlain l props)
  | Data (VArray l elems) => Some (OList l elems)
  | Builtin ObjectPrototype => Some OObjectPrototype
  | Builtin ArrayPrototype => Some OArrayPrototype
  | _ => None
  end.

(** The prototype of an object, [null] at the end of the chain. *)
Definition prototype_of (o : object) : jsany :=
  match o with
  | OPlain _ _ => Builtin ObjectPrototype
  | OList _ _ => Builtin ArrayPrototype
  | OArrayPrototype => Builtin ObjectPrototype
  | OObjectPrototype => Data VNull
  end.

(** The index a property name denotes in an array of [len] elements: the
    name is the canonical decimal numeral of an index below [len]. *)
Definition array_index (part : jsstring) (len : nat) : option nat :=
  List.find (fun i => jsstring_eqb (decimal i) part) (seq 0 len).

(** The own properties of data: the keys of an object; the indices below
    the length, and [length], of an array. *)
Definition own_property (o : object) (part : jsstring) : option jsval :=
  match o with
  | OPlain _ props => props !! part
  | OList _ elems =>
      if jsstring_eqb part (js "length")
      then Some (VNumber (number_of_nat (length elems)))
      else
        match array_index part (length elems) with
        | Some i => Some (nth i elems VUndefined)
        | None => None
        end
  | OObjectPrototype | OArrayPrototype => None
  end.

(** A property found on [Object.prototype] by a read on an object whose
    prototype is [prototype]: the accessor [__proto__] answers that
    prototype. *)
Definition object_prototype_property `{Builtins}
    (prototype : jsany) (part : jsstring) : option jsany :=
  if jsstring_eqb part (js "__proto__") && proto_accessor
  then Some prototype
  else if jsstring_eqb part (js "constructor")
  then Some (Builtin ObjectConstructor)
  else if existsb (jsstring_eqb part) object_prototype_methods
  then Some (Builtin (ObjectMethod part))
  else None.

(** A property found on [Array.prototype], an empty array, or further up
    on [Object.prototype]. *)
Definition array_prototype_property `{Builtins}
    (prototype : jsany) (part : jsstring) : option jsany :=
  if jsstring_eqb part (js "length")
  then Some (Data (VNumber (number_of_nat 0)))
  else if jsstring_eqb part (js "constructor")
  then Some (Builtin ArrayConstructor)
  else if existsb (jsstring_eqb part) array_prototype_methods
  then Some (Builtin (ArrayMethod part))
  else object_prototype_property prototype part.

(** A property the object does not own, found along its prototype chain. *)
Definition inherited_property `{Builtins}
    (o : object) (part : jsstring) : option jsany :=
  match o with
  | OPlain _ _ | OObjectPrototype =>
      object_prototype_property (prototype_of o) part
  | OList _ _ | OArrayPrototype =>
      array_prototype_property (prototype_of o) part
  end.

(** The property lookup that [part in o] and [o[part]] share: the own
    property if there is one, else the inherited one. *)
Definition get_property `{Builtins} (o : object) (part : jsstring)
  : option jsany :=
  match own_property o part with
  | Some v => Some (Data v)
  | None => inherited_property o part
  end.

(** [part in o]. *)
Definition has_property `{Builtins} (o : object) (part : jsstring) : bool :=
  bool_decide (is_Some (get_property o part)).

(** [o[part]]. *)
Definition js_get `{Builtins} (o : object) (part : jsstring) : jsany :=
  default (Data VUndefined) (get_property o part).

(** [s.includes(arg)] on a string, the argument converted to a string. *)
Definition String_includes `{Builtins} (s : jsstring) (arg : jsany)
  : completion bool :=
  let! needle := to_String arg in
  Normal (includes s needle).

(** [arr.some(f)] and [arr.every(f)] on a list of elements, [f] possibly
    throwing: they stop at the first element that decides or throws. *)
Fixpoint some {A} (f : A -> completion bool) (l : list A) : completion bool :=
  match l with
  | [] => Normal false
  | x :: rest =>
      let! b := f x in
      if b then Normal true else some f rest
  end.

Fixpoint every {A} (f : A -> completion bool) (l : list A) : completion bool :=
  match l with
  | [] => Normal true
  | x :: rest =>
      let! b := f x in
      if b then every f rest else Normal false
  end.

(** [arr.some(f)] on a value that passed [Array.isArray]; [Array.prototype]
    has no element. *)
Definition Array_some (arr : jsany) (f : jsval -> completion bool)
  : completion bool :=
  match arr with
  | Data (VArray _ elems) => some f elems
  | Builtin ArrayPrototype => Normal false
  | _ => Throw TypeError
  end.

End Values.

(** ** types.ts *)

Module Types.
Import Values.

(** [Context]: [userId?: string] and [attributes: Record<string, unknown>].
    The attributes are whatever the caller passed: an object for a context
    of the declared type, [undefined] when the field is missing. *)
Record Context : Type := {
  userId : option jsstring;
  attributes : jsval
}.

(** [Condition]; the operator is whatever string the configuration holds. *)
Record Condition : Type := {
  attribute : jsstring;
  operator : jsstring;
  value : jsval
}.

(** [Rule]; the evaluator also accepts a rule with no [conditions]. *)
Record Rule : Type := {
  conditions : option (list Condition);
  percentage : option float;
  rule_value : option bool;
  variant : option jsstring
}.

Record Variant : Type := {
  variant_key : jsstring;
  variant_value : option jsval
}.

Record Flag : Type := {
  key : jsstring;
  defaultValue : jsval;
  rules : option (list Rule);
  variants : option (list Variant);
  description : option jsstring
}.

(** What a key of the configuration object holds: a flag, or a value that
    is no flag and is falsy ([null] from a stored JSON text, say), which is
    all the evaluator asks of it. *)
Inductive entry : Type :=
| FlagEntry (flag : Flag)
| FalsyEntry.
Coercion FlagEntry : Flag >-> entry.

(** [FlagConfig]: the own properties of the configuration object, whose
    prototype is [Object.prototype]. *)
Abbreviation FlagConfig := (gmap jsstring entry).

Inductive EvaluationReason : Type :=
| reason_default
| reason_rule_match
| reason_rollout
| reason_rollout_excluded
| reason_flag_not_found
| reason_error.

Record Metadata : Type := {
  ruleIndex : option nat;
  bucket : option Z;
  error : option jsstring
}.

Record EvaluationResult (T : Type) : Type := {
  result_value : T;
  reason : EvaluationReason;
  metadata : option Metadata
}.
Arguments result_value {T} _.
Arguments reason {T} _.
Arguments metadata {T} _.

End Types.

(** ** conditions.ts *)

Module Conditions.
Import Values Types.

(** The [for (const part of parts)] loop of [getAttributeValue]: the value
    at hand must be an object that has the segment, own or inherited. *)
Fixpoint getAttributeValue_loop `{Builtins} (value : jsany)
    (parts : list jsstring) : jsany :=
  match parts with
  | [] => value
  | part :: rest =>
      match as_object value with
      | Some o =>
          if has_property o part
          then getAttributeValue_loop (js_get o part) rest
          else VUndefined
      | None => VUndefined
      end
  end.

(** [attribute in context.attributes] throws a [TypeError] when the
    attributes are not an object. *)
Definition getAttributeValue `{Builtins} (context : Context)
    (attribute : jsstring) : completion jsany :=
  match as_object (attributes context) with
  | None => Throw TypeError
  | Some o =>
      if has_property o attribute then Normal (js_get o attribute)
      else
        let parts := split 46%N attribute in
        Normal (getAttributeValue_loop (attributes context) parts)
  end.

Definition areEqual `{Builtins} (a b : jsany) : completion bool :=
  if strict_equals a b then Normal true
  else if is_nullish a || is_nullish b then Normal (loose_equals_nullish a b)
  else
    let! string_a := to_String a in
    let! string_b := to_String b in
    Normal (jsstring_eqb string_a string_b).

(** [toNumber]: [None] is the source's [null]. *)
Definition toNumber `{Builtins} (value : jsany) : option float :=
  match value with
  | Data (VNumber n) => Some n
  | Data (VString s) =>
      let num := parseFloat s in
      if PrimFloat.is_nan num then None else Some num
  | _ => None
  end.

Definition contains `{Builtins} (haystack needle : jsany) : completion bool :=
  match haystack with
  | Data (VString s) =>
      if type_tag_eqb (typeof needle) TString
      then String_includes s needle
      else Normal false
  | _ =>
      if isArray haystack
      then Array_some haystack (fun item => areEqual item needle)
      else Normal false
  end.

(** The four numeric cases of the [switch]: both sides through [toNumber],
    no match when either is [null]. *)
Definition compare_numbers `{Builtins}
    (cmp : float -> float -> bool) (actualValue value : jsany) : bool :=
  match toNumber actualValue, toNumber value with
  | Some numActual, Some numValue => cmp numActual numValue
  | _, _ => false
  end.

Definition evaluateCondition `{Builtins}
    (condition : Condition) (context : Context) : completion bool :=
  let attribute := attribute condition in
  let operator := operator condition in
  let value := value condition in
  let! actualValue := getAttributeValue context attribute in
  if strict_equals actualValue VUndefined then
    if jsstring_eqb operator (js "neq")
    then Normal (negb (strict_equals value VUndefined))
    else Normal false
  else if jsstring_eqb operator (js "eq") then
    areEqual actualValue value
  else if jsstring_eqb operator (js "neq") then
    let! equal := areEqual actualValue value in
    Normal (negb equal)
  else if jsstring_eqb operator (js "in") then
    if negb (isArray value) then Normal false
    else Array_some value (fun v => areEqual actualValue v)
  else if jsstring_eqb operator (js "gt") then
    Normal (compare_numbers (fun a v => PrimFloat.ltb v a) actualValue value)
  else if jsstring_eqb operator (js "gte") then
    Normal (compare_numbers (fun a v => PrimFloat.leb v a) actualValue value)
  else if jsstring_eqb operator (js "lt") then
    Normal (compare_numbers (fun a v => PrimFloat.ltb a v) actualValue value)
  else if jsstring_eqb operator (js "lte") then
    Normal (compare_numbers (fun a v => PrimFloat.leb a v) actualValue value)
  else if jsstring_eqb operator (js "contains") then
    contains actualValue value
  else Normal false.

(** [conditions] may be [undefined] ([None]). *)
Definition evaluateConditions `{Builtins}
    (conditions : option (list Condition)) (context : Context)
  : completion bool :=
  match conditions with
  | None => Normal true
  | Some [] => Normal true
  | Some conditions =>
      every (fun condition => evaluateCondition condition context) conditions
  end.

(** The resolution of a path as the specification words it, with lists
    beside mappings: the walk of a split path through own properties, one
    segment at a time, [undefined] as soon as the value at hand is neither
    a mapping nor a list or does not hold the segment. *)
Definition held_property (v : jsval) (part : jsstring) : option jsval :=
  match v with
  | VObject l props => own_property (OPlain l props) part
  | VArray l elems => own_property (OList l elems) part
  | _ => None
  end.

Fixpoint path_walk (v : jsval) (parts : list jsstring) : jsval :=
  match parts with
  | [] => v
  | part :: rest =>
      match held_property v part with
      | Some v' => path_walk v' rest
      | None => VUndefined
      end
  end.

(** A name that data inherits nothing under: no property of
    [Object.prototype] or [Array.prototype]. *)
Definition not_inherited `{Builtins} (part : jsstring) : Prop :=
  forall o, inherited_property o part = None.

(** The equality of [eq] and [neq] as the specification words it: identical
    values are equal; otherwise, when either side is null or undefined,
    null-ish equality decides; otherwise the string representations are
    compared. *)
Definition spec_three_tier_equal `{Builtins} (a b : jsany) : completion bool :=
  match strict_equals a b, is_nullish a, is_nullish b with
  | true, _, _ => Normal true
  | false, true, nb => Normal nb
  | false, false, true => Normal false
  | false, false, false =>
      let! string_a := to_String a in
      let! string_b := to_String b in
      Normal (bool_decide (string_a = string_b))
  end.

(** Data no part of which [String] fails on: no object in it has an own
    property named [toString]. *)
Inductive convertible : jsval -> Prop :=
| convertible_undefined : convertible VUndefined
| convertible_null : convertible VNull
| convertible_bool b : convertible (VBool b)
| convertible_number n : convertible (VNumber n)
| convertible_string s : convertible (VString s)
| convertible_array l elems :
    Forall convertible elems -> convertible (VArray l elems)
| convertible_object l props :
    props !! js "toString" = None ->
    (forall k v, props !! k = Some v -> convertible v) ->
    convertible (VObject l props).

(** What a conversion cannot fail on: convertible data, and built-ins. *)
Definition convertible_value (v : jsany) : Prop :=
  match v with
  | Data d => convertible d
  | Builtin _ => True
  end.

End Conditions.

(** ** evaluator.ts *)

Module Evaluator.
Import Values Types Conditions.

Record Evaluator : Type := { config : FlagConfig }.

(** What [evaluateRule] returns: [{ matched, reason, bucket? }]. *)
Record RuleResult : Type := {
  matched : bool;
  rule_reason : EvaluationReason;
  rule_bucket : option Z
}.

(** [!context.userId]: no user id, or the empty string. *)
Definition no_userId (context : Context) : bool :=
  match userId context with
  | None => true
  | Some u => negb (truthy (VString u))
  end.

Definition evaluateRule `{Builtins} (this : Evaluator)
    (rule : Rule) (context : Context) (flagKey : jsstring)
  : completion RuleResult :=
  let! conditionsMatch :=
    evaluateConditions (Some (default [] (conditions rule))) context in
  if negb conditionsMatch then
    Normal {| matched := false; rule_reason := reason_rollout_excluded;
              rule_bucket := None |}
  else
    match percentage rule with
    | Some percentage =>
        if PrimFloat.ltb percentage 100 then
          if no_userId context then
            Normal {| matched := false; rule_reason := reason_rollout_excluded;
                      rule_bucket := None |}
          else
            let bucket :=
              Rollout.computeRolloutBucket (default [] (userId context)) flagKey in
            if PrimFloat.leb (number_of_Z bucket) percentage then
              Normal {| matched := true; rule_reason := reason_rollout;
                        rule_bucket := Some bucket |}
            else
              Normal {| matched := false; rule_reason := reason_rollout_excluded;
                        rule_bucket := Some bucket |}
        else
          Normal {| matched := true; rule_reason := reason_rule_match;
                    rule_bucket := None |}
    | None =>
        Normal {| matched := true; rule_reason := reason_rule_match;
                  rule_bucket := None |}
    end.

(** A rule that [evaluateRule] reports as not matched. *)
Definition falls_through `{Builtins} (this : Evaluator) (context : Context)
    (flagKey : jsstring) (rule : Rule) : Prop :=
  exists ruleResult, evaluateRule this rule context flagKey = Normal ruleResult /\
                     matched ruleResult = false.

(** The result of a rule excluded by its rollout. *)
Definition excluded (bucket : option Z) : RuleResult :=
  {| matched := false; rule_reason := reason_rollout_excluded;
     rule_bucket := bucket |}.

(** The [for] loop over [flag.rules] that [evalBool] and [evalVariant]
    share, from index [i] on: the first rule that matches returns, through
    [on_match], the result built from its index, the rule and what
    [evaluateRule] said; [None] when the loop runs to its end. *)
Fixpoint rules_loop `{Builtins} {T} (this : Evaluator)
    (on_match : Rule -> completion T) (rules : list Rule) (i : nat)
    (context : Context) (flagKey : jsstring)
  : completion (option (EvaluationResult T)) :=
  match rules with
  | [] => Normal None
  | rule :: rest =>
      let! ruleResult := evaluateRule this rule context flagKey in
      if matched ruleResult then
        let! value := on_match rule in
        Normal (Some {| result_value := value;
                        reason := rule_reason ruleResult;
                        metadata := Some {| ruleIndex := Some i;
                                            bucket := rule_bucket ruleResult;
                                            error := None |} |})
      else rules_loop this on_match rest (S i) context flagKey
  end.

(** [Boolean(rule.value !== undefined ? rule.value : true)]. *)
Definition rule_bool (rule : Rule) : completion bool :=
  Normal (default true (rule_value rule)).

(** [rule.variant || String(flag.defaultValue)]. *)
Definition rule_variant `{Builtins} (flag : Flag) (rule : Rule)
  : completion jsstring :=
  match variant rule with
  | Some v => if truthy (VString v) then Normal v
              else to_String (defaultValue flag)
  | None => to_String (defaultValue flag)
  end.


Definition result_bucket {T} (result : EvaluationResult T) : option Z :=
  match metadata result with
  | Some m => bucket m
  | None => None
  end.

Definition result_ruleIndex {T} (result : EvaluationResult T) : option nat :=
  match metadata result with
  | Some m => ruleIndex m
  | None => None
  end.

(** The result returned for the rule at index [i] that matched. *)
Definition matched_result {T} (v : T) (i : nat) (ruleResult : RuleResult)
  : EvaluationResult T :=
  {| result_value := v; reason := rule_reason ruleResult;
     metadata := Some {| ruleIndex := Some i; bucket := rule_bucket ruleResult;
                         error := None |} |}.

(** The reasons a caller can receive. *)
Definition returned_reason (r : EvaluationReason) : bool :=
  match r with
  | reason_default | reason_rule_match | reason_rollout
  | reason_flag_not_found => true
  | reason_rollout_excluded | reason_error => false
  end.

(** The text of the error of an unknown flag. *)
Definition not_found_message (flagKey : jsstring) : jsstring :=
  js "Flag " ++ [34%N] ++ flagKey ++ [34%N] ++ js " not found in configuration".

(** [this.config[flagKey]]: the own property under the key, or what the
    configuration object, whose prototype is [Object.prototype], inherits
    under it. *)
Inductive looked_up : Type :=
| Own (e : entry)
| Inherited (b : jsany)
| Missing.

Definition config_lookup `{Builtins} (this : Evaluator) (flagKey : jsstring)
  : looked_up :=
  match config this !! flagKey with
  | Some e => Own e
  | None =>
      match object_prototype_property (Builtin ObjectPrototype) flagKey with
      | Some b => Inherited b
      | None => Missing
      end
  end.

(** The result of a flag without a rule that matched. *)
Definition default_result {T} (v : T) : EvaluationResult T :=
  {| result_value := v; reason := reason_default; metadata := None |}.

Definition not_found_result {T} (v : T) (flagKey : jsstring)
  : EvaluationResult T :=
  {| result_value := v; reason := reason_flag_not_found;
     metadata := Some {| ruleIndex := None; bucket := None;
                         error := Some (not_found_message flagKey) |} |}.

(** [evalBool].  Under an inherited key [flag] is a built-in function, or
    [Object.prototype]: it is truthy and has neither [rules] nor
    [defaultValue] (no built-in has a property of either name), so the
    call ends in the default branch with [Boolean(undefined)]. *)
Definition evalBool `{Builtins} (this : Evaluator)
    (flagKey : jsstring) (context : Context)
  : completion (EvaluationResult bool) :=
  match config_lookup this flagKey with
  | Missing | Own FalsyEntry => Normal (not_found_result false flagKey)
  | Inherited _ => Normal (default_result (truthy VUndefined))
  | Own (FlagEntry flag) =>
      let! found :=
        match rules flag with
        | Some rules =>
            if (0 <? length rules)%nat then
              rules_loop this rule_bool rules 0%nat context flagKey
            else Normal None
        | None => Normal None
        end in
      match found with
      | Some result => Normal result
      | None => Normal (default_result (truthy (defaultValue flag)))
      end
  end.

(** [evalVariant]; under an inherited key it ends in the default branch
    with [String(undefined)]. *)
Definition evalVariant `{Builtins} (this : Evaluator)
    (flagKey : jsstring) (context : Context)
  : completion (EvaluationResult jsstring) :=
  match config_lookup this flagKey with
  | Missing | Own FalsyEntry => Normal (not_found_result (js "default") flagKey)
  | Inherited _ =>
      let! text := to_String VUndefined in
      Normal (default_result text)
  | Own (FlagEntry flag) =>
      let! found :=
        match rules flag with
        | Some rules =>
            if (0 <? length rules)%nat then
              rules_loop this (rule_variant flag) rules 0%nat context flagKey
            else Normal None
        | None => Normal None
        end in
      match found with
      | Some result => Normal result
      | None =>
          let! text := to_String (defaultValue flag) in
          Normal (default_result text)
      end
  end.

(** A flag on which no conversion to a string fails: its default value and
    the comparison values of its conditions are convertible. *)
Definition convertible_rule (rule : Rule) : Prop :=
  Forall (fun condition => convertible (value condition))
         (default [] (conditions rule)).

Definition convertible_flag (flag : Flag) : Prop :=
  convertible (defaultValue flag) /\
  Forall convertible_rule (default [] (rules flag)).

Definition getConfig (this : Evaluator) : FlagConfig := config this.

(** [flagKey in this.config]. *)
Definition hasFlag `{Builtins} (this : Evaluator) (flagKey : jsstring) : bool :=
  match config_lookup this flagKey with
  | Missing => false
  | _ => true
  end.

End Evaluator.
(** ** Example data *)

Module Examples.
Import Values Types Conditions Evaluator.

(** An instance of the built-ins to run the examples with.  Its numbers
    are exact on the integers of magnitude below 2^53 and on the strings
    made of an optional minus sign and decimal digits, which is all the
    examples below use; its prototypes are those of Node.js. *)
Definition integral_value (x : float) : Z :=
  match Prim2SF x with
  | S754_finite s m e =>
      let v := if 0 <=? e then Z.pos m * 2 ^ e else Z.pos m / 2 ^ (- e) in
      if s then - v else v
  | _ => 0
  end.

Definition integral_to_string (x : float) : jsstring :=
  if PrimFloat.is_nan x then js "NaN"
  else if PrimFloat.is_infinity x
  then (if PrimFloat.ltb x 0 then js "-Infinity" else js "Infinity")
  else
    let v := integral_value x in
    (if v <? 0 then js "-" else []) ++ decimal (Z.abs_nat v).

Definition digit_value (c : N) : option Z :=
  if (48 <=? c)%N && (c <=? 57)%N then Some (Z.of_N c - 48) else None.

Fixpoint leading_digits (s : jsstring) (acc : option Z) : option Z :=
  match s with
  | [] => acc
  | c :: rest =>
      match digit_value c with
      | Some d => leading_digits rest (Some (10 * default 0 acc + d))
      | None => acc
      end
  end.

Definition integer_parseFloat (s : jsstring) : float :=
  match s with
  | 45%N :: rest =>
      match leading_digits rest None with
      | Some v => number_of_Z (- v)
      | None => PrimFloat.nan
      end
  | _ =>
      match leading_digits s None with
      | Some v => number_of_Z v
      | None => PrimFloat.nan
      end
  end.

(** The source text of a built-in function, as V8 prints it. *)
Definition native_code (name : string) : jsstring :=
  js "function " ++ js name ++ js "() { [native code] }".

Definition integer_function_to_string (f : builtin) : jsstring :=
  match f with
  | ObjectConstructor => native_code "Object"
  | ArrayConstructor => native_code "Array"
  | ObjectMethod name | ArrayMethod name =>
      js "function " ++ name ++ js "() { [native code] }"
  | ObjectPrototype | ArrayPrototype => []
  end.

(** The methods of the two prototypes in Node.js 20. *)
Definition node_object_prototype_methods : list jsstring :=
  List.map js
    ["__defineGetter__"; "__defineSetter__"; "hasOwnProperty";
     "__lookupGetter__"; "__lookupSetter__"; "isPrototypeOf";
     "propertyIsEnumerable"; "toString"; "valueOf"; "toLocaleString"]%string.

Definition node_array_prototype_methods : list jsstring :=
  List.map js
    ["at"; "concat"; "copyWithin"; "fill"; "find"; "findIndex"; "findLast";
     "findLastIndex"; "lastIndexOf"; "pop"; "push"; "reverse"; "shift";
     "unshift"; "slice"; "sort"; "splice"; "includes"; "indexOf"; "join";
     "keys"; "entries"; "values"; "forEach"; "filter"; "flat"; "flatMap";
     "map"; "every"; "some"; "reduce"; "reduceRight"; "toLocaleString";
     "toString"; "toReversed"; "toSorted"; "toSpliced"; "with"]%string.

Definition integer_builtins : Builtins :=
  {| number_to_string := integral_to_string;
     parseFloat := integer_parseFloat;
     function_to_string := integer_function_to_string;
     object_prototype_methods := node_object_prototype_methods;
     array_prototype_methods := node_array_prototype_methods;
     proto_accessor := true |}.

Definition mkContext (user : option jsstring)
    (attrs : list (jsstring * jsval)) : Context :=
  {| userId := user; attributes := VObject 0%nat (list_to_map attrs) |}.

Definition mkCondition (a op : string) (v : jsval) : Condition :=
  {| attribute := js a; operator := js op; value := v |}.

Definition mkFlag (k : string) (d : jsval) (rs : option (list Rule)) : Flag :=
  {| key := js k; defaultValue := d; rules := rs; variants := None;
     description := None |}.

Definition mkEvaluator (flags : list Flag) : Evaluator :=
  {| config := list_to_map (List.map (fun f => (key f, FlagEntry f)) flags) |}.

Definition str (s : string) : jsval := VString (js s).
Definition num (z : Z) : jsval := VNumber (number_of_Z z).

(** The rules and the flag of the test "should use first matching rule
    (rule ordering)". *)
Definition us_rule : Rule :=
  {| conditions := Some [mkCondition "country" "eq" (str "US")];
     percentage := None; rule_value := Some true; variant := None |}.

Definition us_uk_rule : Rule :=
  {| conditions :=
       Some [mkCondition "country" "in" (VArray 1%nat [str "US"; str "UK"])];
     percentage := None; rule_value := Some false; variant := None |}.

Definition ordering_flag : Flag :=
  mkFlag "test-flag" (VBool false) (Some [us_rule; us_uk_rule]).

(** The flag of the rollout tests: no condition, 50 percent. *)
Definition half_rollout : Rule :=
  {| conditions := Some []; percentage := Some 50%float;
     rule_value := Some true; variant := None |}.

Definition rollout_flag : Flag :=
  mkFlag "rollout-flag" (VBool false) (Some [half_rollout]).

(** The flag of the test "should handle multiple variant rules". *)
Definition layout_us : Rule :=
  {| conditions := Some [mkCondition "country" "eq" (str "US")];
     percentage := None; rule_value := None;
     variant := Some (js "variant-a") |}.

Definition layout_uk : Rule :=
  {| conditions := Some [mkCondition "country" "eq" (str "UK")];
     percentage := None; rule_value := None;
     variant := Some (js "variant-b") |}.

Definition layout_flag : Flag :=
  mkFlag "layout" (str "control") (Some [layout_us; layout_uk]).

(** A rule that always matches and names the empty string as its variant. *)
Definition empty_variant_flag : Flag :=
  mkFlag "banner" (str "control")
    (Some [ {| conditions := Some []; percentage := None; rule_value := None;
               variant := Some [] |} ]).

(** A rule with no condition rolled out to 99 percent. *)
Definition rollout_99 : Rule :=
  {| conditions := Some []; percentage := Some 99%float;
     rule_value := Some true; variant := None |}.

(** An object that [String] cannot convert: it has a property [toString]
    of its own, which is no function. *)
Definition stubborn : jsval := VObject 7%nat {[ js "toString" := num 1 ]}.




End Examples.

(** ** Variations of a condition, a rule and a context *)

Module Variations.
Import Values Types.

(** The condition with another operator. *)
Definition with_operator (op : jsstring) (condition : Condition) : Condition :=
  {| attribute := attribute condition; operator := op;
     value := value condition |}.

(** The condition with another comparison value. *)
Definition with_value (v : jsval) (condition : Condition) : Condition :=
  {| attribute := attribute condition; operator := operator condition;
     value := v |}.

(** The rule with another percentage. *)
Definition with_percentage (p : option float) (rule : Rule) : Rule :=
  {| conditions := conditions rule; percentage := p;
     rule_value := rule_value rule; variant := variant rule |}.

(** The context with another user id. *)
Definition with_userId (u : option jsstring) (context : Context) : Context :=
  {| userId := u; attributes := attributes context |}.

(** The buckets [computeRolloutBucket] can return, as a list. *)
Definition all_buckets : list Z := List.map Z.of_nat (seq 0 101).

End Variations.

(** ** Exceptions of the client and of the API *)

Module Errors.
Import Values.

(** What a [throw] carries: an [Error] object with its [name] and
    [message], an exception of the language raised by the evaluator, or a
    value that is no [Error]. *)
Inductive exception : Type :=
| ErrorObject (name message : jsstring)
| Engine (e : js_error)
| NotAnError.

(** [new Error(message)]. *)
Definition Error (message : jsstring) : exception :=
  ErrorObject (js "Error") message.

Inductive outcome (A : Type) : Type :=
| Returned (a : A)
| Raised (e : exception).
Arguments Returned {A} a.
Arguments Raised {A} e.

Definition of_completion {A} (c : completion A) : outcome A :=
  match c with
  | Normal a => Returned a
  | Throw e => Raised (Engine e)
  end.

(** [!s] on an optional string: absent or empty. *)
Definition no_string (s : option jsstring) : bool :=
  match s with
  | None => true
  | Some s => negb (truthy (VString s))
  end.

End Errors.

(** ** flags-client-web/src/fetcher.ts *)

Module Fetcher.
Import Values Types Errors.

(** The request [fetchConfig] hands to the fetch function. *)
Record Request : Type := {
  url : jsstring;
  method : jsstring;
  headers : list (jsstring * jsstring)
}.

Definition fetchConfig_request (apiUrl apiKey : jsstring) : Request :=
  {| url := apiUrl ++ js "/v1/config";
     method := js "GET";
     headers := [ (js "Authorization", js "Bearer " ++ apiKey);
                  (js "Content-Type", js "application/json") ] |}.

(** How the awaited calls end: the fetch function resolves to a response
    or rejects; [response.json()] resolves to the configuration or
    rejects. *)
Record Response : Type := {
  ok : bool;
  status : float;
  statusText : jsstring;
  json : outcome FlagConfig
}.

(** The [catch] block: an [Error] named AbortError becomes the timeout
    error, any other [Error] is thrown again, anything else becomes the
    unknown error. *)
Definition fetchConfig_catch `{Builtins} (timeout : float) (error : exception)
  : exception :=
  match error with
  | ErrorObject name message =>
      if jsstring_eqb name (js "AbortError")
      then Error (js "Config fetch timeout after " ++ number_to_string timeout
                    ++ js "ms")
      else error
  | Engine e => error
  | NotAnError => Error (js "Unknown error fetching config")
  end.

(** [fetchConfig] from the point where the fetch function has answered;
    [timeout] is the parameter after its default. *)
Definition fetchConfig_answer `{Builtins} (timeout : float)
    (fetched : outcome Response) : outcome FlagConfig :=
  match fetched with
  | Returned response =>
      if negb (ok response) then
        Raised (fetchConfig_catch timeout
                  (Error (js "Failed to fetch config: "
                            ++ number_to_string (status response) ++ js " "
                            ++ statusText response)))
      else
        match json response with
        | Returned config => Returned config
        | Raised error => Raised (fetchConfig_catch timeout error)
        end
  | Raised error => Raised (fetchConfig_catch timeout error)
  end.

End Fetcher.

(** ** flags-client-web/src/client.ts *)

Module WebClient.
Import Values Types Evaluator Errors.

(** The identity of a callback, which is what [indexOf] compares. *)
Abbreviation listener := nat (only parsing).

(** A fetch function: the global one or one of the caller. *)
Inductive fetch_function : Type :=
| global_fetch
| custom_fetch (id : nat).

Module Options.
(** [WebFlagClientOptions]: every field is optional. *)
Record t : Type := {
  bootstrapConfig : option FlagConfig;
  apiUrl : option jsstring;
  apiKey : option jsstring;
  enableRefresh : option bool;
  refreshInterval : option float;
  timeout : option float;
  fetchFn : option fetch_function
}.
End Options.

Module Resolved.
(** The options of a client, defaults applied. *)
Record t : Type := {
  enableRefresh : bool;
  refreshInterval : float;
  timeout : float;
  fetchFn : fetch_function
}.
End Resolved.

(** The fields of a [WebFlagClient]; a timer is the handle
    [window.setInterval] returned, a positive integer. *)
Record WebFlagClient : Type := {
  evaluator : Evaluator;
  options : Resolved.t;
  apiUrl : option jsstring;
  apiKey : option jsstring;
  refreshTimer : option positive;
  isInitialized : bool;
  isClosed : bool;
  listeners : list listener
}.

(** The constructor. *)
Definition new_WebFlagClient (config : FlagConfig) (o : Options.t)
  : WebFlagClient :=
  {| evaluator := {| Evaluator.config := config |};
     apiUrl := Options.apiUrl o;
     apiKey := Options.apiKey o;
     options :=
       {| Resolved.enableRefresh := default false (Options.enableRefresh o);
          Resolved.refreshInterval := default 60000%float (Options.refreshInterval o);
          Resolved.timeout := default 5000%float (Options.timeout o);
          Resolved.fetchFn := default global_fetch (Options.fetchFn o) |};
     refreshTimer := None;
     isInitialized := true;
     isClosed := false;
     listeners := [] |}.

Definition set_evaluator (e : Evaluator) (this : WebFlagClient) : WebFlagClient :=
  {| evaluator := e; options := options this; apiUrl := apiUrl this;
     apiKey := apiKey this; refreshTimer := refreshTimer this;
     isInitialized := isInitialized this; isClosed := isClosed this;
     listeners := listeners this |}.

Definition set_listeners (ls : list listener) (this : WebFlagClient)
  : WebFlagClient :=
  {| evaluator := evaluator this; options := options this; apiUrl := apiUrl this;
     apiKey := apiKey this; refreshTimer := refreshTimer this;
     isInitialized := isInitialized this; isClosed := isClosed this;
     listeners := ls |}.

Definition set_refreshTimer (t : option positive) (this : WebFlagClient)
  : WebFlagClient :=
  {| evaluator := evaluator this; options := options this; apiUrl := apiUrl this;
     apiKey := apiKey this; refreshTimer := t;
     isInitialized := isInitialized this; isClosed := isClosed this;
     listeners := listeners this |}.

(** [startRefresh]; [handle] is what [window.setInterval] returns if it is
    called. *)
Definition startRefresh (this : WebFlagClient) (handle : positive)
  : WebFlagClient :=
  if negb (Resolved.enableRefresh (options this))
     || no_string (apiUrl this) || no_string (apiKey this)
  then this
  else set_refreshTimer (Some handle) this.

Definition closed_message : jsstring := js "Client is closed".

(** [refresh] up to its [await]: the arguments of the call to
    [fetchConfig], or the error thrown before it. *)
Definition refresh_request (this : WebFlagClient)
  : outcome (jsstring * jsstring * float * fetch_function) :=
  if isClosed this then Raised (Error closed_message)
  else if no_string (apiUrl this) || no_string (apiKey this)
  then Raised (Error (js "Cannot refresh: API URL and key required"))
  else Returned (default [] (apiUrl this), default [] (apiKey this),
                 Resolved.timeout (options this),
                 Resolved.fetchFn (options this)).

(** [refresh] after its [await], when [fetchConfig] has resolved, up to
    the call of [notifyListeners]: the client the callbacks find.  What
    the callbacks do then is code of the caller. *)
Definition refresh_resolved (this : WebFlagClient) (newConfig : FlagConfig)
  : WebFlagClient :=
  set_evaluator {| Evaluator.config := newConfig |} this.

(** [updateConfig] up to the call of [notifyListeners]: the client the
    callbacks find, or the error thrown before. *)
Definition updateConfig (this : WebFlagClient) (config : FlagConfig)
  : outcome WebFlagClient :=
  if isClosed this then Raised (Error closed_message)
  else Returned (set_evaluator {| Evaluator.config := config |} this).

(** [listeners.indexOf(listener)]; [None] is -1. *)
Fixpoint indexOf (ls : list listener) (l : listener) : option nat :=
  match ls with
  | [] => None
  | x :: rest => if Nat.eqb x l then Some 0%nat else option_map S (indexOf rest l)
  end.

(** [listeners.splice(index, 1)]: what is left in the array. *)
Definition splice_one (index : nat) (ls : list listener) : list listener :=
  take index ls ++ drop (S index) ls.

(** [onConfigUpdate]: the client after the [push]. *)
Definition onConfigUpdate (this : WebFlagClient) (l : listener) : WebFlagClient :=
  set_listeners (listeners this ++ [l]) this.

(** The function [onConfigUpdate] returns, called on the client as it is
    by then. *)
Definition unsubscribe (l : listener) (this : WebFlagClient) : WebFlagClient :=
  match indexOf (listeners this) l with
  | Some index => set_listeners (splice_one index (listeners this)) this
  | None => this
  end.

Definition getBool `{Builtins} (this : WebFlagClient)
    (flagKey : jsstring) (context : Context) : outcome (EvaluationResult bool) :=
  if isClosed this then Raised (Error closed_message)
  else of_completion (evalBool (evaluator this) flagKey context).

Definition getVariant `{Builtins} (this : WebFlagClient)
    (flagKey : jsstring) (context : Context)
  : outcome (EvaluationResult jsstring) :=
  if isClosed this then Raised (Error closed_message)
  else of_completion (evalVariant (evaluator this) flagKey context).

Definition getConfig (this : WebFlagClient) : FlagConfig :=
  Evaluator.getConfig (evaluator this).

Definition hasFlag `{Builtins} (this : WebFlagClient) (flagKey : jsstring)
  : bool :=
  Evaluator.hasFlag (evaluator this) flagKey.

(** [close]: the client afterwards, and the timer it clears. *)
Definition close (this : WebFlagClient) : WebFlagClient * option positive :=
  ({| evaluator := evaluator this; options := options this;
      apiUrl := apiUrl this; apiKey := apiKey this;
      refreshTimer := None;
      isInitialized := isInitialized this; isClosed := true;
      listeners := [] |},
   refreshTimer this).

Definition isReady (this : WebFlagClient) : bool :=
  isInitialized this && negb (isClosed this).

(** What [createFlagClient] returns: a client, or the promise of one, that
    is the call to [fetchConfig] it waits for. *)
Inductive creation : Type :=
| Ready (client : WebFlagClient)
| Fetching (apiUrl apiKey : jsstring) (timeout : option float)
           (fetchFn : option fetch_function).

Definition createFlagClient (o : Options.t) (handle : positive)
  : outcome creation :=
  match Options.bootstrapConfig o with
  | Some bootstrap =>
      let client := new_WebFlagClient bootstrap o in
      if negb (no_string (Options.apiUrl o))
         && negb (no_string (Options.apiKey o))
         && default false (Options.enableRefresh o)
      then Returned (Ready (startRefresh client handle))
      else Returned (Ready client)
  | None =>
      if negb (no_string (Options.apiUrl o))
         && negb (no_string (Options.apiKey o))
      then Returned (Fetching (default [] (Options.apiUrl o))
                              (default [] (Options.apiKey o))
                              (Options.timeout o) (Options.fetchFn o))
      else Raised (Error (js "Either bootstrapConfig or both apiUrl and apiKey must be provided"))
  end.

(** The [then] of the promise, once [fetchConfig] has resolved. *)
Definition createFlagClient_resolved (o : Options.t) (config : FlagConfig)
    (handle : positive) : WebFlagClient :=
  let client := new_WebFlagClient config o in
  if default false (Options.enableRefresh o)
  then startRefresh client handle
  else client.

End WebClient.

(** ** flags-client-node/src/client.ts *)

Module NodeClient.
Import Values Types Evaluator Errors.

Module Options.
(** [FlagClientOptions]: every field is optional. *)
Record t : Type := {
  apiUrl : option jsstring;
  apiKey : option jsstring;
  refreshInterval : option float;
  staticConfig : option FlagConfig;
  enableRefresh : option bool;
  timeout : option float;
  fetchFn : option WebClient.fetch_function
}.
End Options.

(** The fields of a [FlagClient]; the resolved options have the shape of
    those of the web client, and a timer is named by a positive number. *)
Record FlagClient : Type := {
  evaluator : Evaluator;
  options : WebClient.Resolved.t;
  apiUrl : option jsstring;
  apiKey : option jsstring;
  refreshTimer : option positive;
  isInitialized : bool;
  isClosed : bool
}.

(** The constructor. *)
Definition new_FlagClient (config : FlagConfig) (o : Options.t) : FlagClient :=
  {| evaluator := {| Evaluator.config := config |};
     apiUrl := Options.apiUrl o;
     apiKey := Options.apiKey o;
     options :=
       {| WebClient.Resolved.refreshInterval :=
            default 30000%float (Options.refreshInterval o);
          WebClient.Resolved.enableRefresh := default true (Options.enableRefresh o);
          WebClient.Resolved.timeout := default 5000%float (Options.timeout o);
          WebClient.Resolved.fetchFn :=
            default WebClient.global_fetch (Options.fetchFn o) |};
     refreshTimer := None;
     isInitialized := true;
     isClosed := false |}.

(** [startRefresh]; [handle] names the timer [setInterval] returns if it
    is called. *)
Definition startRefresh (this : FlagClient) (handle : positive) : FlagClient :=
  if negb (WebClient.Resolved.enableRefresh (options this))
     || no_string (apiUrl this) || no_string (apiKey this)
  then this
  else {| evaluator := evaluator this; options := options this;
          apiUrl := apiUrl this; apiKey := apiKey this;
          refreshTimer := Some handle;
          isInitialized := isInitialized this; isClosed := isClosed this |}.

(** [refresh] up to its [await]: the arguments of the call to
    [fetchConfig], or the error it rejects with before. *)
Definition refresh_request (this : FlagClient)
  : outcome (jsstring * jsstring * float * WebClient.fetch_function) :=
  if isClosed this then Raised (Error (js "Client is closed"))
  else if no_string (apiUrl this) || no_string (apiKey this)
  then Raised (Error (js "Cannot refresh: API URL and key required"))
  else Returned (default [] (apiUrl this), default [] (apiKey this),
                 WebClient.Resolved.timeout (options this),
                 WebClient.Resolved.fetchFn (options this)).

(** [refresh] after its [await], when [fetchConfig] has resolved. *)
Definition refresh_resolved (this : FlagClient) (newConfig : FlagConfig)
  : FlagClient :=
  {| evaluator := {| Evaluator.config := newConfig |}; options := options this;
     apiUrl := apiUrl this; apiKey := apiKey this;
     refreshTimer := refreshTimer this;
     isInitialized := isInitialized this; isClosed := isClosed this |}.

Definition getBool `{Builtins} (this : FlagClient)
    (flagKey : jsstring) (context : Context) : outcome (EvaluationResult bool) :=
  if isClosed this then Raised (Error (js "Client is closed"))
  else of_completion (evalBool (evaluator this) flagKey context).

Definition getVariant `{Builtins} (this : FlagClient)
    (flagKey : jsstring) (context : Context)
  : outcome (EvaluationResult jsstring) :=
  if isClosed this then Raised (Error (js "Client is closed"))
  else of_completion (evalVariant (evaluator this) flagKey context).

Definition getConfig (this : FlagClient) : FlagConfig :=
  Evaluator.getConfig (evaluator this).

Definition hasFlag `{Builtins} (this : FlagClient) (flagKey : jsstring)
  : bool :=
  Evaluator.hasFlag (evaluator this) flagKey.

(** [close]: the client afterwards, and the timer it clears. *)
Definition close (this : FlagClient) : FlagClient * option positive :=
  ({| evaluator := evaluator this; options := options this;
      apiUrl := apiUrl this; apiKey := apiKey this;
      refreshTimer := None;
      isInitialized := isInitialized this; isClosed := true |},
   refreshTimer this).

Definition isReady (this : FlagClient) : bool :=
  isInitialized this && negb (isClosed this).

(** [createFlagClient] up to its [await]: the configuration it has, the
    call to [fetchConfig] it waits for, or the error it rejects with. *)
Inductive configuration_source : Type :=
| Static (config : FlagConfig)
| Fetched (apiUrl apiKey : jsstring) (timeout : option float)
          (fetchFn : option WebClient.fetch_function).

Definition createFlagClient_config (o : Options.t) : outcome configuration_source :=
  match Options.staticConfig o with
  | Some config => Returned (Static config)
  | None =>
      if negb (no_string (Options.apiUrl o)) && negb (no_string (Options.apiKey o))
      then Returned (Fetched (default [] (Options.apiUrl o))
                             (default [] (Options.apiKey o))
                             (Options.timeout o) (Options.fetchFn o))
      else Raised (Error (js "Either staticConfig or both apiUrl and apiKey must be provided"))
  end.

(** [createFlagClient] once it has the configuration. *)
Definition createFlagClient_client (o : Options.t) (config : FlagConfig)
    (handle : positive) : FlagClient :=
  let client := new_FlagClient config o in
  if negb (no_string (Options.apiUrl o)) && negb (no_string (Options.apiKey o))
  then startRefresh client handle
  else client.

End NodeClient.

(** ** apps/api/src/middleware/auth.ts *)

Module Auth.
Import Values Errors.

(** What [extractApiKey] reads of a request: the query, the body if there
    is one, and the Authorization header. *)
Record Request : Type := {
  query : gmap jsstring jsval;
  body : option (gmap jsstring jsval);
  authorization : option jsstring
}.

(** [o.apiKey && typeof o.apiKey === 'string']: the key when it is a
    string that is not empty. *)
Definition string_apiKey (o : gmap jsstring jsval) : option jsstring :=
  match o !! js "apiKey" with
  | Some (VString s) => if truthy (VString s) then Some s else None
  | _ => None
  end.

Definition extractApiKey (request : Request) : option jsstring :=
  match string_apiKey (query request) with
  | Some k => Some k
  | None =>
      match body request ≫= string_apiKey with
      | Some k => Some k
      | None =>
          match authorization request with
          | Some authHeader =>
              if starts_with (js "Bearer ") authHeader
              then Some (drop 7 authHeader)
              else None
          | None => None
          end
      end
  end.

(** The reply [authenticateApiKey] sends, or the environment it attaches
    to the request. *)
Inductive authentication (Environment : Type) : Type :=
| Reply (statusCode : Z) (error message : jsstring)
| Attached (environment : Environment).
Arguments Reply {Environment} statusCode error message.
Arguments Attached {Environment} environment.

(** [authenticateApiKey]; the database is its lookup
    [findEnvironmentByApiKey], which returns an environment or [null], or
    throws. *)
Definition authenticateApiKey {Environment : Type}
    (findEnvironmentByApiKey : jsstring -> outcome (option Environment))
    (request : Request) : authentication Environment :=
  let apiKey := extractApiKey request in
  if no_string apiKey then
    Reply 401 (js "Unauthorized") (js "API key required")
  else
    match findEnvironmentByApiKey (default [] apiKey) with
    | Returned (Some environment) => Attached environment
    | Returned None => Reply 401 (js "Unauthorized") (js "Invalid API key")
    | Raised _ =>
        Reply 500 (js "Internal Server Error") (js "Failed to validate API key")
    end.

End Auth.

(** ** apps/api/src/routes/config.ts *)

Module ConfigRoute.
Import Values.

(** A flag of the database, as the loop reads it: its key and its stored
    JSON text. *)
Record StoredFlag : Type := {
  stored_key : jsstring;
  stored_config : jsstring
}.

(** The loop that builds the configuration object; [JSON_parse] returns
    [None] where [JSON.parse] throws, and the flag is skipped.  The
    configuration sent is the own properties of the object: the assignment
    to the key __proto__ runs the setter of [Object.prototype] and adds
    none. *)
Definition buildFlagConfig {J : Type} (JSON_parse : jsstring -> option J)
    (flags : list StoredFlag) : gmap jsstring J :=
  fold_left
    (fun flagConfig flag =>
       match JSON_parse (stored_config flag) with
       | Some parsedConfig =>
           if jsstring_eqb (stored_key flag) (js "__proto__") then flagConfig
           else <[stored_key flag := parsedConfig]> flagConfig
       | None => flagConfig
       end)
    flags ∅.

End ConfigRoute.

(** ** Options for the examples of the clients *)

Module ClientExamples.
Import Values Types.

(** The options of the examples: nothing set, and URL, key and refresh. *)
Definition no_options : WebClient.Options.t :=
  {| WebClient.Options.bootstrapConfig := None;
     WebClient.Options.apiUrl := None; WebClient.Options.apiKey := None;
     WebClient.Options.enableRefresh := None;
     WebClient.Options.refreshInterval := None;
     WebClient.Options.timeout := None; WebClient.Options.fetchFn := None |}.

Definition refreshing_options (bootstrap : option FlagConfig)
  : WebClient.Options.t :=
  {| WebClient.Options.bootstrapConfig := bootstrap;
     WebClient.Options.apiUrl := Some (js "https://api.example");
     WebClient.Options.apiKey := Some (js "key");
     WebClient.Options.enableRefresh := Some true;
     WebClient.Options.refreshInterval := None;
     WebClient.Options.timeout := None; WebClient.Options.fetchFn := None |}.

Definition node_options (static : option FlagConfig) (key : option jsstring)
  : NodeClient.Options.t :=
  {| NodeClient.Options.apiUrl := Some (js "https://api.example");
     NodeClient.Options.apiKey := key;
     NodeClient.Options.refreshInterval := None;
     NodeClient.Options.staticConfig := static;
     NodeClient.Options.enableRefresh := None;
     NodeClient.Options.timeout := None; NodeClient.Options.fetchFn := None |}.

End ClientExamples.
(** * Properties *)

(** ** Properties of rollout.ts *)

Module RolloutFacts.
Import Rollout.

Lemma toInt32_range x : - 2 ^ 31 <= toInt32 x < 2 ^ 31.
Proof.
  unfold toInt32.
  pose proof (Z.mod_pos_bound (x + 2 ^ 31) (2 ^ 32) ltac:(lia)). lia.
Qed.

Lemma toInt32_truncate x : toInt32 x = spec_truncate32 x.
Proof.
  unfold toInt32, spec_truncate32. cbv zeta.
  pose proof (Z.mod_pos_bound x (2 ^ 32) ltac:(lia)) as Hx.
  destruct (Z.ltb_spec (x mod 2 ^ 32) (2 ^ 31)) as [Hlt | Hge].
  - assert ((x + 2 ^ 31) mod 2 ^ 32 = x mod 2 ^ 32 + 2 ^ 31) as ->; [| lia].
    symmetry. apply Z.mod_unique_pos with (q := x / 2 ^ 32); [lia |].
    pose proof (Z.div_mod x (2 ^ 32) ltac:(lia)). lia.
  - assert ((x + 2 ^ 31) mod 2 ^ 32 = x mod 2 ^ 32 - 2 ^ 31) as ->; [| lia].
    symmetry. apply Z.mod_unique_pos with (q := x / 2 ^ 32 + 1); [lia |].
    pose proof (Z.div_mod x (2 ^ 32) ltac:(lia)). lia.
Qed.

Lemma toInt32_congr x y k : x = y + k * 2 ^ 32 -> toInt32 x = toInt32 y.
Proof.
  intros ->. unfold toInt32.
  replace (y + k * 2 ^ 32 + 2 ^ 31) with (y + 2 ^ 31 + k * 2 ^ 32) by lia.
  now rewrite Z.mod_add by lia.
Qed.

Lemma toInt32_decomp x : exists k, toInt32 x = x + k * 2 ^ 32.
Proof.
  exists (- ((x + 2 ^ 31) / 2 ^ 32)). unfold toInt32.
  pose proof (Z.div_mod (x + 2 ^ 31) (2 ^ 32) ltac:(lia)). lia.
Qed.

Lemma toInt32_small x : - 2 ^ 31 <= x < 2 ^ 31 -> toInt32 x = x.
Proof. intros H. unfold toInt32. rewrite Z.mod_small; lia. Qed.

Lemma and32_diag x : and32 x x = toInt32 x.
Proof.
  unfold and32. rewrite Z.land_diag.
  apply toInt32_small, toInt32_range.
Qed.

(** One turn of the loop computes [h*31 + c] truncated to 32 bits. *)
Lemma loop_step h c :
  and32 (shl32 h 5 - h + c) (shl32 h 5 - h + c) = spec_truncate32 (h * 31 + c).
Proof.
  rewrite and32_diag, <- toInt32_truncate. unfold shl32.
  rewrite Z.shiftl_mul_pow2 by lia.
  destruct (toInt32_decomp h) as [k Hk].
  destruct (toInt32_decomp (toInt32 h * 2 ^ 5)) as [k' Hk'].
  apply toInt32_congr with (k := k' + 32 * k). rewrite Hk', Hk. lia.
Qed.

Lemma simpleHash_loop_fold str : forall h,
  simpleHash_loop h str =
  fold_left (fun h c => spec_truncate32 (h * 31 + Z.of_N c)) str h.
Proof.
  induction str as [| c rest IH]; intros h; [reflexivity |].
  cbn [simpleHash_loop fold_left]. rewrite loop_step. apply IH.
Qed.

Lemma simpleHash_nonneg str : 0 <= simpleHash str.
Proof. apply Z.abs_nonneg. Qed.

(** C1. For all strings [userId] and [flagKey], [computeRolloutBucket]
    returns what the specified algorithm returns (hash of
    [userId ++ ":" ++ flagKey] by [h = h*31 + charCode] truncated to 32
    signed bits from 0, absolute value, modulo 101), and the result lies
    in [0, 100]; being a function of the two strings, equal arguments give
    equal buckets. *)
Theorem computeRolloutBucket_spec (userId flagKey : jsstring) :
  computeRolloutBucket userId flagKey = spec_bucket userId flagKey /\
  0 <= computeRolloutBucket userId flagKey <= 100.
Proof.
  assert (computeRolloutBucket userId flagKey = spec_bucket userId flagKey) as E.
  { unfold computeRolloutBucket, spec_bucket, spec_rolling_hash. cbv zeta.
    rewrite Z.rem_mod_nonneg by (apply simpleHash_nonneg || lia).
    unfold simpleHash. now rewrite simpleHash_loop_fold. }
  split; [exact E |]. rewrite E. unfold spec_bucket.
  pose proof (Z.mod_pos_bound
    (Z.abs (spec_rolling_hash (userId ++ js ":" ++ flagKey))) 101 ltac:(lia)).
  lia.
Qed.

Example bucket_empty : computeRolloutBucket [] [] = 58.
Proof. reflexivity. Qed.

Example bucket_colon_f : computeRolloutBucket [] (js "f") = 82.
Proof. reflexivity. Qed.

End RolloutFacts.

(** ** Properties of conditions.ts *)

Module ConditionFacts.
Import Values Types Conditions Examples.

Lemma jsstring_eqb_eq (a b : jsstring) : jsstring_eqb a b = true <-> a = b.
Proof. unfold jsstring_eqb. apply bool_decide_eq_true. Qed.

Lemma jsstring_eqb_neq (a b : jsstring) : jsstring_eqb a b = false <-> a <> b.
Proof. unfold jsstring_eqb. apply bool_decide_eq_false. Qed.

Lemma jsstring_eqb_refl (a : jsstring) : jsstring_eqb a a = true.
Proof. now apply jsstring_eqb_eq. Qed.

Lemma strict_equals_undefined (v : jsany) :
  strict_equals v VUndefined = true <-> v = VUndefined.
Proof. destruct v as [[] | b]; simpl; split; congruence. Qed.

(** The guard [v && typeof v === 'object'] is what [as_object] decides. *)
Lemma as_object_guard (v : jsany) :
  is_Some (as_object v) <->
  truthy v = true /\ type_tag_eqb (typeof v) TObject = true.
Proof.
  destruct v as [[] | []]; simpl; split;
    try (intros [? ?]; discriminate); try (intros [? ?]; discriminate);
    eauto.
Qed.

Lemma as_object_data (v : jsval) o :
  as_object v = Some o ->
  (exists l props, v = VObject l props /\ o = OPlain l props) \/
  (exists l elems, v = VArray l elems /\ o = OList l elems).
Proof. destruct v; simpl; intros [= <-]; eauto. Qed.

Section WithBuiltins.
Context `{Builtins}.

Lemma has_property_true o part v :
  get_property o part = Some v -> has_property o part = true.
Proof. intros E. unfold has_property. rewrite E. now apply bool_decide_eq_true_2. Qed.

Lemma has_property_false o part :
  get_property o part = None -> has_property o part = false.
Proof.
  intros E. unfold has_property. rewrite E.
  apply bool_decide_eq_false_2. intros [? ?]; discriminate.
Qed.

Lemma get_property_own o part v :
  own_property o part = Some v -> get_property o part = Some (Data v).
Proof. intros E. unfold get_property. now rewrite E. Qed.

Lemma get_property_not_inherited o part :
  not_inherited part ->
  get_property o part = Data <$> own_property o part.
Proof.
  intros Hn. unfold get_property.
  destruct (own_property o part); [reflexivity |]. apply Hn.
Qed.


(** A property of the attributes under the whole path, own or inherited,
    is the value of the attribute. *)
Lemma getAttributeValue_direct context attribute o v :
  as_object (attributes context) = Some o ->
  get_property o attribute = Some v ->
  getAttributeValue context attribute = Normal v.
Proof.
  intros Ho Hv. unfold getAttributeValue. rewrite Ho.
  rewrite (has_property_true _ _ _ Hv). unfold js_get. now rewrite Hv.
Qed.

Lemma getAttributeValue_split context attribute o :
  as_object (attributes context) = Some o ->
  get_property o attribute = None ->
  getAttributeValue context attribute =
  Normal (getAttributeValue_loop (attributes context) (split 46%N attribute)).
Proof.
  intros Ho Hv. unfold getAttributeValue. rewrite Ho.
  now rewrite (has_property_false _ _ Hv).
Qed.

Lemma getAttributeValue_total context attribute :
  is_Some (as_object (attributes context)) ->
  exists v, getAttributeValue context attribute = Normal v.
Proof.
  intros [o Ho]. unfold getAttributeValue. rewrite Ho.
  destruct (has_property o attribute); eauto.
Qed.

Lemma getAttributeValue_malformed context attribute :
  as_object (attributes context) = None ->
  getAttributeValue context attribute = Throw TypeError.
Proof. intros Ho. unfold getAttributeValue. now rewrite Ho. Qed.

Lemma held_property_own (v : jsval) o part :
  as_object v = Some o -> held_property v part = own_property o part.
Proof.
  intros Ho.
  destruct (as_object_data v o Ho) as [(l & props & -> & ->) | (l & elems & -> & ->)];
    reflexivity.
Qed.

Lemma held_property_object (v : jsval) part w :
  held_property v part = Some w -> exists o, as_object v = Some o.
Proof. destruct v; simpl; try discriminate; eauto. Qed.

(** On segments under which nothing is inherited, the loop of
    [getAttributeValue] is the walk through own properties. *)
Lemma getAttributeValue_loop_walk parts : forall v : jsval,
  Forall not_inherited parts ->
  getAttributeValue_loop v parts = Data (path_walk v parts).
Proof.
  induction parts as [| part rest IH]; intros v Hparts; [reflexivity |].
  inversion Hparts as [| ? ? Hpart Hrest]; subst.
  cbn [getAttributeValue_loop path_walk].
  destruct (as_object v) as [o |] eqn:Ho.
  - rewrite (held_property_own v o part Ho).
    destruct (own_property o part) as [w |] eqn:Hw.
    + rewrite (has_property_true o part (Data w)) by now apply get_property_own.
      unfold js_get. rewrite (get_property_own _ _ _ Hw). simpl. now apply IH.
    + rewrite has_property_false; [reflexivity |].
      now rewrite get_property_not_inherited, Hw.
  - destruct (held_property v part) as [w |] eqn:Hw; [| reflexivity].
    destruct (held_property_object _ _ _ Hw) as [o Ho']. congruence.
Qed.


End WithBuiltins.

(** Under the names of the example built-ins, nothing is inherited under a
    name that none of the prototypes has. *)
Lemma not_inherited_example part :
  jsstring_eqb part (js "__proto__") = false ->
  jsstring_eqb part (js "constructor") = false ->
  jsstring_eqb part (js "length") = false ->
  existsb (jsstring_eqb part) node_object_prototype_methods = false ->
  existsb (jsstring_eqb part) node_array_prototype_methods = false ->
  not_inherited (H := integer_builtins) part.
Proof.
  intros Hp Hc Hl Ho Ha o.
  destruct o; unfold inherited_property, array_prototype_property,
    object_prototype_property;
    change (@object_prototype_methods integer_builtins)
      with node_object_prototype_methods;
    change (@array_prototype_methods integer_builtins)
      with node_array_prototype_methods;
    rewrite ?Hp, ?Hc, ?Hl, ?Ho, ?Ha; reflexivity.
Qed.


Section WithBuiltins.
Context `{Builtins}.


End WithBuiltins.

Section WithBuiltins.
Context `{Builtins}.

Lemma areEqual_three_tier a b : areEqual a b = spec_three_tier_equal a b.
Proof.
  unfold areEqual, spec_three_tier_equal, loose_equals_nullish, jsstring_eqb.
  destruct (strict_equals a b); [reflexivity |].
  destruct (is_nullish a), (is_nullish b); reflexivity.
Qed.

Lemma areEqual_strings a b s :
  is_nullish a = false -> is_nullish b = false ->
  to_String a = Normal s -> to_String b = Normal s ->
  areEqual a b = Normal true.
Proof.
  intros Ha Hb Ea Eb. unfold areEqual. rewrite Ha, Hb, Ea, Eb. simpl.
  rewrite jsstring_eqb_refl. now destruct (strict_equals a b).
Qed.

(** What [evaluateCondition] does once the attribute is resolved. *)
Lemma evaluateCondition_missing condition context :
  getAttributeValue context (attribute condition) = Normal (Data VUndefined) ->
  evaluateCondition condition context =
  Normal (if jsstring_eqb (operator condition) (js "neq")
          then negb (strict_equals (value condition) VUndefined) else false).
Proof.
  intros E. unfold evaluateCondition. cbv zeta. rewrite E. simpl.
  now destruct (jsstring_eqb (operator condition) (js "neq")).
Qed.

Lemma evaluateCondition_defined condition context actual :
  getAttributeValue context (attribute condition) = Normal actual ->
  actual <> VUndefined ->
  evaluateCondition condition context =
  let operator := operator condition in
  let value := value condition in
  if jsstring_eqb operator (js "eq") then areEqual actual value
  else if jsstring_eqb operator (js "neq") then
    let! equal := areEqual actual value in Normal (negb equal)
  else if jsstring_eqb operator (js "in") then
    if negb (isArray value) then Normal false
    else Array_some value (fun v => areEqual actual v)
  else if jsstring_eqb operator (js "gt") then
    Normal (compare_numbers (fun a v => PrimFloat.ltb v a) actual value)
  else if jsstring_eqb operator (js "gte") then
    Normal (compare_numbers (fun a v => PrimFloat.leb v a) actual value)
  else if jsstring_eqb operator (js "lt") then
    Normal (compare_numbers (fun a v => PrimFloat.ltb a v) actual value)
  else if jsstring_eqb operator (js "lte") then
    Normal (compare_numbers (fun a v => PrimFloat.leb a v) actual value)
  else if jsstring_eqb operator (js "contains") then contains actual value
  else Normal false.
Proof.
  intros E Hdef. unfold evaluateCondition. cbv zeta. rewrite E. simpl.
  destruct (strict_equals actual VUndefined) eqn:Hu; [| reflexivity].
  apply strict_equals_undefined in Hu. contradiction.
Qed.

Lemma evaluateCondition_eq condition context actual :
  getAttributeValue context (attribute condition) = Normal actual ->
  actual <> VUndefined -> operator condition = js "eq" ->
  evaluateCondition condition context = areEqual actual (value condition).
Proof.
  intros E Hdef Hop.
  rewrite (evaluateCondition_defined _ _ _ E Hdef). cbv zeta. now rewrite Hop.
Qed.

Lemma evaluateCondition_neq condition context actual :
  getAttributeValue context (attribute condition) = Normal actual ->
  actual <> VUndefined -> operator condition = js "neq" ->
  evaluateCondition condition context =
  let! equal := areEqual actual (value condition) in Normal (negb equal).
Proof.
  intros E Hdef Hop.
  rewrite (evaluateCondition_defined _ _ _ E Hdef). cbv zeta. now rewrite Hop.
Qed.

(** C5. When the attribute of a condition resolves to [undefined]: under
    the operator [neq] the condition matches if and only if its comparison
    value is not [undefined]; under every other operator, known or not, it
    does not match. *)
Theorem evaluateCondition_missing_attribute
    (condition : Condition) (context : Context) :
  getAttributeValue context (attribute condition) = Normal (Data VUndefined) ->
  (operator condition = js "neq" ->
   (evaluateCondition condition context = Normal true <->
    value condition <> VUndefined) /\
   (evaluateCondition condition context = Normal false <->
    value condition = VUndefined)) /\
  (operator condition <> js "neq" ->
   evaluateCondition condition context = Normal false).
Proof.
  intros E. rewrite (evaluateCondition_missing _ _ E). split.
  - intros ->. rewrite jsstring_eqb_refl.
    destruct (value condition); simpl; repeat split; intros; congruence.
  - intros Hop. apply jsstring_eqb_neq in Hop. now rewrite Hop.
Qed.

(** C6. The equality of [eq] and [neq] is the three-tier comparison:
    identical values are equal; otherwise, when either side is null or
    undefined, the two are equal exactly when both are; otherwise the string
    representations decide.  So, [String(25)] being "25", an [eq] condition
    on value 25 matches the attribute value "25" and conversely; and on an
    attribute that is not [undefined], [neq] is the negation of [eq]. *)
Theorem areEqual_spec (a : jsany) (b : jsval) :
  areEqual a b = spec_three_tier_equal a b /\
  (strict_equals a b = true -> areEqual a b = Normal true) /\
  (strict_equals a b = false -> is_nullish a || is_nullish b = true ->
   areEqual a b = Normal (is_nullish a && is_nullish b)) /\
  (strict_equals a b = false -> is_nullish a || is_nullish b = false ->
   areEqual a b =
   let! string_a := to_String a in
   let! string_b := to_String b in
   Normal (bool_decide (string_a = string_b))) /\
  (number_to_string 25 = js "25" ->
   forall context attr,
     (getAttributeValue context attr = Normal (Data (VString (js "25"))) ->
      evaluateCondition
        {| attribute := attr; operator := js "eq"; value := VNumber 25 |}
        context = Normal true) /\
     (getAttributeValue context attr = Normal (Data (VNumber 25)) ->
      evaluateCondition
        {| attribute := attr; operator := js "eq"; value := VString (js "25") |}
        context = Normal true)) /\
  (forall context attr, getAttributeValue context attr = Normal a ->
     a <> VUndefined ->
     evaluateCondition {| attribute := attr; operator := js "eq"; value := b |}
       context = areEqual a b /\
     evaluateCondition {| attribute := attr; operator := js "neq"; value := b |}
       context = let! equal := areEqual a b in Normal (negb equal)).
Proof.
  split; [apply areEqual_three_tier |].
  split; [intros E; unfold areEqual; now rewrite E |].
  split; [intros E N; unfold areEqual, loose_equals_nullish; now rewrite E, N |].
  split; [intros E N; unfold areEqual; now rewrite E, N |].
  split.
  - intros H25 context attr. split; intros E.
    + erewrite evaluateCondition_eq; [| exact E | discriminate | reflexivity ].
      simpl. apply (areEqual_strings _ _ (js "25")); try reflexivity.
      unfold to_String. simpl. now rewrite H25.
    + erewrite evaluateCondition_eq; [| exact E | discriminate | reflexivity ].
      simpl. apply (areEqual_strings _ _ (js "25")); try reflexivity.
      unfold to_String. simpl. now rewrite H25.
  - intros context attr E Hdef. split.
    + now erewrite evaluateCondition_eq; [| exact E | exact Hdef | reflexivity ].
    + now erewrite evaluateCondition_neq; [| exact E | exact Hdef | reflexivity ].
Qed.

Lemma contains_strings h n :
  contains (Data (VString h)) (Data (VString n)) = Normal (includes h n).
Proof. reflexivity. Qed.

(** *** Conversions that cannot fail *)

(** Induction on data through the elements of arrays. *)
Lemma jsval_elements_ind (P : jsval -> Prop) :
  P VUndefined -> P VNull -> (forall b, P (VBool b)) ->
  (forall n, P (VNumber n)) -> (forall s, P (VString s)) ->
  (forall l elems, Forall P elems -> P (VArray l elems)) ->
  (forall l props, P (VObject l props)) ->
  forall v, P v.
Proof.
  intros Hu Hn Hb Hnum Hs Ha Ho.
  fix IH 1.
  intros [| | b | n | s | l elems | l props];
    [exact Hu | exact Hn | apply Hb | apply Hnum | apply Hs | | apply Ho].
  apply Ha. induction elems as [| e rest IHrest]; constructor;
    [apply IH | exact IHrest].
Qed.

Lemma data_to_String_array l elems :
  data_to_String (VArray l elems) =
  let! strings :=
    (fix elements (l : list jsval) : completion (list jsstring) :=
       match l with
       | [] => Normal []
       | e :: rest =>
           let! s := match e with
                     | VUndefined | VNull => Normal []
                     | _ => data_to_String e
                     end in
           let! ss := elements rest in
           Normal (s :: ss)
       end) elems in
  Normal (join_comma strings).
Proof. reflexivity. Qed.

Lemma data_to_String_convertible (v : jsval) :
  convertible v -> exists s, data_to_String v = Normal s.
Proof.
  induction v as [| | b | n | s | l elems IH | l props] using jsval_elements_ind;
    intros Hv; try (simpl; eauto; fail).
  - destruct b; simpl; eauto.
  - inversion Hv as [| | | | | ? ? Hall |]; subst.
    rewrite data_to_String_array.
    assert (exists ss,
              (fix elements (l : list jsval) : completion (list jsstring) :=
                 match l with
                 | [] => Normal []
                 | e :: rest =>
                     let! s := match e with
                               | VUndefined | VNull => Normal []
                               | _ => data_to_String e
                               end in
                     let! ss := elements rest in
                     Normal (s :: ss)
                 end) elems = Normal ss) as [ss ->].
    { clear Hv. induction elems as [| e rest IHrest]; [eauto |].
      inversion IH as [| ? ? IHe IHr]; subst.
      inversion Hall as [| ? ? He Hr]; subst.
      destruct (IHrest IHr Hr) as [ss Ess]. rewrite Ess.
      destruct (IHe He) as [s Es].
      destruct e; simpl in *; try rewrite Es; simpl; eauto. }
    simpl. eauto.
  - inversion Hv as [| | | | | | ? ? Hts Hprops]; subst.
    simpl. rewrite Hts.
    rewrite bool_decide_eq_false_2 by (intros [? ?]; discriminate). eauto.
Qed.

Lemma to_String_convertible (v : jsany) :
  convertible_value v -> exists s, to_String v = Normal s.
Proof.
  destruct v as [d | b]; simpl.
  - apply data_to_String_convertible.
  - intros _. destruct b; eauto.
Qed.

Lemma areEqual_total a b :
  convertible_value a -> convertible_value b ->
  exists r, areEqual a b = Normal r.
Proof.
  intros Ha Hb. unfold areEqual.
  destruct (strict_equals a b); [eauto |].
  destruct (is_nullish a || is_nullish b); [eauto |].
  destruct (to_String_convertible a Ha) as [sa ->].
  destruct (to_String_convertible b Hb) as [sb ->]. simpl. eauto.
Qed.

Lemma some_total {A} (f : A -> completion bool) l :
  Forall (fun x => exists b, f x = Normal b) l -> exists b, some f l = Normal b.
Proof.
  induction 1 as [| x rest [b Hx] _ IH]; simpl; [eauto |].
  rewrite Hx. simpl. destruct b; eauto.
Qed.

Lemma every_total {A} (f : A -> completion bool) l :
  Forall (fun x => exists b, f x = Normal b) l -> exists b, every f l = Normal b.
Proof.
  induction 1 as [| x rest [b Hx] _ IH]; simpl; [eauto |].
  rewrite Hx. simpl. destruct b; eauto.
Qed.

Lemma convertible_own o part (v w : jsval) :
  as_object v = Some o -> convertible v ->
  own_property o part = Some w -> convertible w.
Proof.
  intros Ho Hv Hw.
  destruct (as_object_data v o Ho) as [(l & props & -> & ->) | (l & elems & -> & ->)].
  - inversion Hv; subst. simpl in Hw. eauto.
  - inversion Hv as [| | | | | ? ? Hall |]; subst. simpl in Hw.
    destruct (jsstring_eqb part (js "length")); [injection Hw as <-; constructor |].
    destruct (array_index part (length elems)) as [i |] eqn:Hi; [| discriminate].
    injection Hw as <-.
    unfold array_index in Hi. apply find_some in Hi as [Hin _].
    apply in_seq in Hin.
    rewrite Forall_forall in Hall. apply Hall.
    apply list_elem_of_In, nth_In. lia.
Qed.

Lemma convertible_inherited o part w :
  inherited_property o part = Some w -> convertible_value w.
Proof.
  unfold inherited_property, array_prototype_property, object_prototype_property.
  destruct o; simpl;
    repeat match goal with
           | |- context [if ?c then _ else _] => destruct c
           end;
    intros [= <-]; simpl; auto; constructor.
Qed.

Lemma convertible_get_property o part (v : jsany) w :
  as_object v = Some o -> convertible_value v ->
  get_property o part = Some w -> convertible_value w.
Proof.
  intros Ho Hv. unfold get_property.
  destruct (own_property o part) as [d |] eqn:Hd.
  - intros [= <-]. destruct v as [dv | b].
    + simpl. eapply convertible_own; eauto.
    + destruct b; simpl in Ho; try discriminate; injection Ho as <-;
        discriminate.
  - apply convertible_inherited.
Qed.

Lemma convertible_js_get o part (v : jsany) :
  as_object v = Some o -> convertible_value v ->
  convertible_value (js_get o part).
Proof.
  intros Ho Hv. unfold js_get.
  destruct (get_property o part) as [w |] eqn:Hw; simpl; [| constructor].
  eapply convertible_get_property; eauto.
Qed.

Lemma convertible_loop parts : forall v : jsany,
  convertible_value v -> convertible_value (getAttributeValue_loop v parts).
Proof.
  induction parts as [| part rest IH]; intros v Hv; [exact Hv |].
  cbn [getAttributeValue_loop].
  destruct (as_object v) as [o |] eqn:Ho; [| constructor].
  destruct (has_property o part); [| constructor].
  apply IH. eapply convertible_js_get; eauto.
Qed.

(** With attributes that are convertible data, the value of an attribute
    is convertible. *)
Lemma convertible_getAttributeValue context attribute v :
  convertible (attributes context) ->
  getAttributeValue context attribute = Normal v -> convertible_value v.
Proof.
  intros Hc. unfold getAttributeValue.
  destruct (as_object (attributes context)) as [o |] eqn:Ho; [| discriminate].
  destruct (has_property o attribute); intros [= <-].
  - now apply (convertible_js_get o attribute (Data (attributes context))).
  - now apply convertible_loop.
Qed.

Lemma Array_some_total (arr : jsany) f :
  isArray arr = true ->
  (forall l elems, arr = Data (VArray l elems) ->
                   Forall (fun x => exists b, f x = Normal b) elems) ->
  exists b, Array_some arr f = Normal b.
Proof.
  intros Ha Hf. destruct arr as [[] | []]; simpl in *; try discriminate; eauto.
  apply some_total. eapply Hf. reflexivity.
Qed.

Lemma contains_total haystack needle :
  convertible_value haystack -> convertible_value needle ->
  exists b, contains haystack needle = Normal b.
Proof.
  intros Hh Hn. unfold contains.
  destruct haystack as [[| | b | n | s | l elems | l props] | b];
    simpl; eauto.
  - destruct (type_tag_eqb (typeof needle) TString); [| eauto].
    unfold String_includes.
    destruct (to_String_convertible needle Hn) as [sn ->]. simpl. eauto.
  - apply some_total. simpl in Hh. inversion Hh as [| | | | | ? ? Hall |]; subst.
    rewrite Forall_forall in *. intros x Hx.
    apply areEqual_total; [simpl; auto | exact Hn].
  - destruct b; simpl; eauto.
Qed.

(** A condition on convertible data returns a boolean. *)
Lemma evaluateCondition_total condition context :
  is_Some (as_object (attributes context)) ->
  convertible (attributes context) -> convertible (value condition) ->
  exists b, evaluateCondition condition context = Normal b.
Proof.
  intros Ho Hc Hv.
  destruct (getAttributeValue_total context (attribute condition) Ho)
    as [actual E].
  pose proof (convertible_getAttributeValue _ _ _ Hc E) as Ha.
  destruct (strict_equals actual VUndefined) eqn:Hu.
  - apply strict_equals_undefined in Hu. subst actual.
    rewrite (evaluateCondition_missing _ _ E). eauto.
  - rewrite (evaluateCondition_defined _ _ actual E).
    2: { intros ->. discriminate. }
    cbv zeta.
    repeat match goal with
           | |- exists b, (if ?c then _ else _) = Normal b => destruct c eqn:?
           | |- exists b, Normal _ = Normal b => eexists; reflexivity
           end.
    + now apply areEqual_total.
    + destruct (areEqual_total actual (value condition) Ha Hv) as [r ->].
      simpl. eauto.
    + apply Array_some_total.
      * now destruct (isArray (value condition)).
      * intros l elems Earr. injection Earr as Earr. rewrite Earr in Hv.
        inversion Hv as [| | | | | ? ? Hall |]; subst.
        rewrite Forall_forall in *. intros x Hx.
        apply areEqual_total; [exact Ha | simpl; auto].
    + now apply contains_total.
Qed.

Lemma evaluateConditions_total conditions context :
  is_Some (as_object (attributes context)) ->
  convertible (attributes context) ->
  Forall (fun c => convertible (value c)) (default [] conditions) ->
  exists b, evaluateConditions conditions context = Normal b.
Proof.
  intros Ho Hc Hall. unfold evaluateConditions.
  destruct conditions as [[| c rest] |]; eauto.
  apply every_total. simpl in Hall. rewrite Forall_forall in *.
  intros x Hx. apply evaluateCondition_total; auto.
Qed.

End WithBuiltins.


End ConditionFacts.
(** ** Properties of evaluator.ts *)

Module EvaluatorFacts.
Import Values Types Conditions Evaluator Examples ConditionFacts.

(** IEEE comparison: [x <= y] excludes [y < x]. *)
Lemma SFleb_not_SFltb x y : SFleb x y = true -> SFltb y x = false.
Proof.
  unfold SFleb, SFltb.
  destruct x as [s | s | | s m e], y as [s' | s' | | s' m' e']; cbn [SFcompare];
    repeat match goal with b : bool |- _ => destruct b end; try congruence;
    rewrite (Z.compare_antisym e e'); destruct (e ?= e'); cbn [CompOpp];
    try congruence;
    change (PosDef.Pos.compare_cont Eq m' m) with (Pos.compare m' m);
    change (PosDef.Pos.compare_cont Eq m m') with (Pos.compare m m');
    rewrite (Pos.compare_antisym m m');
    destruct (Pos.compare m m'); cbn [CompOpp]; congruence.
Qed.

Lemma at_least_100_not_below (p : float) :
  PrimFloat.leb 100 p = true -> PrimFloat.ltb p 100 = false.
Proof. rewrite FloatAxioms.leb_spec, FloatAxioms.ltb_spec. apply SFleb_not_SFltb. Qed.

Lemma no_userId_spec context :
  no_userId context = true <-> userId context = None \/ userId context = Some [].
Proof.
  unfold no_userId. destruct (userId context) as [u |]; simpl.
  - rewrite negb_involutive, jsstring_eqb_eq. split.
    + intros ->. now right.
    + intros [? | ?]; congruence.
  - split; auto.
Qed.

Section WithBuiltins.
Context `{Builtins}.

(** What [evaluateRule] returns once the conditions have been evaluated. *)
Lemma evaluateRule_conditions this rule context flagKey b :
  evaluateConditions (Some (default [] (conditions rule))) context = Normal b ->
  exists ruleResult,
    evaluateRule this rule context flagKey = Normal ruleResult /\
    (b = false -> ruleResult = excluded None) /\
    (matched ruleResult = true ->
     b = true /\
     (rule_reason ruleResult = reason_rule_match /\ rule_bucket ruleResult = None \/
      rule_reason ruleResult = reason_rollout /\
      exists u, userId context = Some u /\ u <> [] /\
                rule_bucket ruleResult =
                Some (Rollout.computeRolloutBucket u flagKey))).
Proof.
  intros Hc. unfold evaluateRule. rewrite Hc. simpl.
  destruct b; simpl.
  2: { eexists. split; [reflexivity |]. split; [reflexivity | discriminate]. }
  destruct (percentage rule) as [p |].
  2: { eexists. split; [reflexivity |]. split; [discriminate |]. auto. }
  destruct (PrimFloat.ltb p 100).
  2: { eexists. split; [reflexivity |]. split; [discriminate |]. auto. }
  destruct (no_userId context) eqn:Hu.
  { eexists. split; [reflexivity |]. split; discriminate. }
  destruct (PrimFloat.leb _ p);
    (eexists; split; [reflexivity |]; split; [discriminate |]);
    [| discriminate].
  intros _. split; [reflexivity |]. right. split; [reflexivity |].
  destruct (userId context) as [u |] eqn:Eu.
  - exists u. repeat split.
    intros ->. unfold no_userId in Hu. rewrite Eu in Hu. discriminate.
  - unfold no_userId in Hu. rewrite Eu in Hu. discriminate.
Qed.

(** [evaluateRule] throws only what the conditions throw. *)
Lemma evaluateRule_returns this rule context flagKey ruleResult :
  evaluateRule this rule context flagKey = Normal ruleResult ->
  exists b,
    evaluateConditions (Some (default [] (conditions rule))) context = Normal b.
Proof.
  unfold evaluateRule.
  destruct (evaluateConditions _ context) as [b | e]; [eauto | discriminate].
Qed.

Lemma evaluateRule_matched_reason this rule context flagKey ruleResult :
  evaluateRule this rule context flagKey = Normal ruleResult ->
  matched ruleResult = true ->
  rule_reason ruleResult = reason_rule_match \/
  rule_reason ruleResult = reason_rollout.
Proof.
  intros E Hm. destruct (evaluateRule_returns _ _ _ _ _ E) as [b Hb].
  destruct (evaluateRule_conditions this rule context flagKey b Hb)
    as (rr & E' & _ & Hmatched).
  assert (rr = ruleResult) as -> by congruence.
  destruct (Hmatched Hm) as [_ [[? _] | [? _]]]; auto.
Qed.

Lemma evaluateRule_total this rule context flagKey :
  is_Some (as_object (attributes context)) ->
  convertible (attributes context) -> convertible_rule rule ->
  exists ruleResult, evaluateRule this rule context flagKey = Normal ruleResult.
Proof.
  intros Ho Hc Hr.
  destruct (evaluateConditions_total (Some (default [] (conditions rule)))
              context Ho Hc Hr) as [b Hb].
  destruct (evaluateRule_conditions this rule context flagKey b Hb)
    as (rr & E & _). eauto.
Qed.

(** [evaluateRule] does not read the evaluator. *)
Lemma evaluateRule_this this this' rule context flagKey :
  evaluateRule this rule context flagKey = evaluateRule this' rule context flagKey.
Proof. reflexivity. Qed.

End WithBuiltins.

(** C2, as the claim states it, fails: with the empty string as user id
    the id is present and its bucket, 82, is within the 99 percent of the
    rule, yet the rule does not match. *)
Lemma evaluateRule_empty_userId :
  let context := mkContext (Some []) [] in
  userId context = Some [] /\
  evaluateConditions (H := integer_builtins)
    (Some (default [] (conditions rollout_99))) context = Normal true /\
  percentage rollout_99 = Some 99%float /\
  PrimFloat.ltb 99 100 = true /\
  Rollout.computeRolloutBucket [] (js "f") = 82 /\
  PrimFloat.leb (number_of_Z 82) 99 = true /\
  evaluateRule (H := integer_builtins) (mkEvaluator []) rollout_99 context (js "f")
  = Normal (excluded None).
Proof. repeat split; vm_compute; reflexivity. Qed.

Section WithBuiltins.
Context `{Builtins}.

(** C2 (amended). For a rule whose conditions all match: when its
    percentage is defined and below 100, (a) without a user id, or with the
    empty string as user id, the rule does not match and records no bucket;
    (b) with a non-empty user id the rule matches exactly when
    [bucket(userId, flagKey) <= percentage], with reason [rollout] and the
    bucket recorded, and otherwise is excluded with the bucket recorded;
    when the percentage is undefined or at least 100 the rule matches with
    reason [rule_match] and no bucket. *)
Theorem evaluateRule_rollout
    (this : Evaluator) (rule : Rule) (context : Context) (flagKey : jsstring) :
  evaluateConditions (Some (default [] (conditions rule))) context = Normal true ->
  (forall p, percentage rule = Some p -> PrimFloat.ltb p 100 = true ->
     (userId context = None \/ userId context = Some [] ->
      evaluateRule this rule context flagKey = Normal (excluded None)) /\
     (forall u, userId context = Some u -> u <> [] ->
        let bucket := Rollout.computeRolloutBucket u flagKey in
        (PrimFloat.leb (number_of_Z bucket) p = true ->
         evaluateRule this rule context flagKey =
         Normal {| matched := true; rule_reason := reason_rollout;
                   rule_bucket := Some bucket |}) /\
        (PrimFloat.leb (number_of_Z bucket) p = false ->
         evaluateRule this rule context flagKey =
         Normal (excluded (Some bucket))))) /\
  (percentage rule = None \/
   (exists p, percentage rule = Some p /\ PrimFloat.leb 100 p = true) ->
   evaluateRule this rule context flagKey =
   Normal {| matched := true; rule_reason := reason_rule_match;
             rule_bucket := None |}).
Proof.
  intros Hc. unfold evaluateRule. rewrite Hc. simpl. split.
  - intros p -> ->. split.
    + intros Hu. apply no_userId_spec in Hu. now rewrite Hu.
    + intros u Hu Hne. cbv zeta.
      assert (no_userId context = false) as ->.
      { destruct (no_userId context) eqn:E; [| reflexivity].
        apply no_userId_spec in E. destruct E; congruence. }
      rewrite Hu. simpl. split; intros ->; reflexivity.
  - intros [-> | (p & -> & Hp)]; [reflexivity |].
    now rewrite (at_least_100_not_below p Hp).
Qed.

(** *** The loop over the rules *)

(** The loop stops at the first rule that matches. *)
Lemma rules_loop_first_match {T} this (on_match : Rule -> completion T)
    context flagKey rule post ruleResult pre : forall i,
  Forall (falls_through this context flagKey) pre ->
  evaluateRule this rule context flagKey = Normal ruleResult ->
  matched ruleResult = true ->
  rules_loop this on_match (pre ++ rule :: post) i context flagKey =
  let! v := on_match rule in
  Normal (Some (matched_result v (i + length pre) ruleResult)).
Proof.
  unfold matched_result.
  induction pre as [| r pre IH]; intros i Hpre Hr Hm.
  - simpl. rewrite Hr. simpl. rewrite Hm. now rewrite Nat.add_0_r.
  - inversion Hpre as [| ? ? (rr & Hrr & Hf) Hrest]; subst.
    simpl. rewrite Hrr. simpl. rewrite Hf.
    rewrite (IH (S i) Hrest Hr Hm). simpl. now rewrite Nat.add_succ_r.
Qed.

Lemma rules_loop_no_match {T} this (on_match : Rule -> completion T)
    context flagKey rules : forall i,
  Forall (falls_through this context flagKey) rules ->
  rules_loop this on_match rules i context flagKey = Normal None.
Proof.
  induction rules as [| r rules IH]; intros i Hall; [reflexivity |].
  inversion Hall as [| ? ? (rr & Hrr & Hf) Hrest]; subst.
  simpl. rewrite Hrr. simpl. rewrite Hf. now apply IH.
Qed.

(** What the loop has done when it returns. *)
Lemma rules_loop_returns {T} this (on_match : Rule -> completion T)
    context flagKey rules : forall i found,
  rules_loop this on_match rules i context flagKey = Normal found ->
  match found with
  | None => Forall (falls_through this context flagKey) rules
  | Some result =>
      exists pre rule post ruleResult v,
        rules = pre ++ rule :: post /\
        Forall (falls_through this context flagKey) pre /\
        evaluateRule this rule context flagKey = Normal ruleResult /\
        matched ruleResult = true /\
        on_match rule = Normal v /\
        result = matched_result v (i + length pre) ruleResult
  end.
Proof.
  induction rules as [| r rules IH]; intros i found.
  - simpl. intros [= <-]. constructor.
  - simpl. destruct (evaluateRule this r context flagKey) as [rr | e] eqn:Hr;
      [| discriminate].
    simpl. destruct (matched rr) eqn:Hm.
    + destruct (on_match r) as [v | e] eqn:Hv; [| discriminate].
      simpl. intros [= <-].
      exists [], r, rules, rr, v. repeat split; auto.
      unfold matched_result. now rewrite Nat.add_0_r.
    + intros E. specialize (IH (S i) found E).
      destruct found as [result |].
      * destruct IH as (pre & rule & post & rr' & v & -> & Hpre & Hr' & Hm' & Hv & ->).
        exists (r :: pre), rule, post, rr', v. repeat split; auto.
        -- constructor; [exists rr; auto | assumption].
        -- simpl. now rewrite Nat.add_succ_r.
      * constructor; [exists rr; auto | assumption].
Qed.

(** A list of rules that all return either falls through entirely or
    splits at its first matching rule. *)
Lemma rules_split this context flagKey rules :
  Forall (fun rule => exists ruleResult,
            evaluateRule this rule context flagKey = Normal ruleResult) rules ->
  Forall (falls_through this context flagKey) rules \/
  exists pre rule post ruleResult,
    rules = pre ++ rule :: post /\
    Forall (falls_through this context flagKey) pre /\
    evaluateRule this rule context flagKey = Normal ruleResult /\
    matched ruleResult = true.
Proof.
  induction 1 as [| r rules [rr Hrr] _ IH]; [left; constructor |].
  destruct (matched rr) eqn:Hm.
  - right. exists [], r, rules, rr. repeat split; auto.
  - destruct IH as [Hall | (pre & rule & post & rr' & -> & Hpre & Hr & Hm')].
    + left. constructor; [exists rr; auto | assumption].
    + right. exists (r :: pre), rule, post, rr'. repeat split; auto.
      constructor; [exists rr; auto | assumption].
Qed.

Lemma length_split_pos (pre : list Rule) rule post :
  (0 <? length (pre ++ rule :: post))%nat = true.
Proof. apply Nat.ltb_lt. rewrite length_app. simpl. lia. Qed.

Lemma config_lookup_own this flagKey e :
  config this !! flagKey = Some e -> config_lookup this flagKey = Own e.
Proof. intros E. unfold config_lookup. now rewrite E. Qed.

Lemma evalBool_matched this flagKey context flag pre rule post ruleResult :
  config this !! flagKey = Some (FlagEntry flag) ->
  rules flag = Some (pre ++ rule :: post) ->
  Forall (falls_through this context flagKey) pre ->
  evaluateRule this rule context flagKey = Normal ruleResult ->
  matched ruleResult = true ->
  evalBool this flagKey context =
  Normal (matched_result (default true (rule_value rule)) (length pre) ruleResult).
Proof.
  intros Hc Hr Hpre He Hm. unfold evalBool.
  rewrite (config_lookup_own _ _ _ Hc), Hr, length_split_pos.
  now rewrite (rules_loop_first_match _ _ _ _ _ _ _ _ 0%nat Hpre He Hm).
Qed.

Lemma evalVariant_matched this flagKey context flag pre rule post ruleResult :
  config this !! flagKey = Some (FlagEntry flag) ->
  rules flag = Some (pre ++ rule :: post) ->
  Forall (falls_through this context flagKey) pre ->
  evaluateRule this rule context flagKey = Normal ruleResult ->
  matched ruleResult = true ->
  evalVariant this flagKey context =
  let! v := rule_variant flag rule in
  Normal (matched_result v (length pre) ruleResult).
Proof.
  intros Hc Hr Hpre He Hm. unfold evalVariant.
  rewrite (config_lookup_own _ _ _ Hc), Hr, length_split_pos.
  rewrite (rules_loop_first_match _ _ _ _ _ _ _ _ 0%nat Hpre He Hm).
  now destruct (rule_variant flag rule).
Qed.

Lemma evalBool_unmatched this flagKey context flag :
  config this !! flagKey = Some (FlagEntry flag) ->
  Forall (falls_through this context flagKey) (default [] (rules flag)) ->
  evalBool this flagKey context =
  Normal (default_result (truthy (defaultValue flag))).
Proof.
  intros Hc Hall. unfold evalBool. rewrite (config_lookup_own _ _ _ Hc).
  destruct (rules flag) as [rs |]; [| reflexivity]. simpl in Hall.
  destruct (0 <? length rs)%nat; [| reflexivity].
  now rewrite (rules_loop_no_match _ _ _ _ _ 0%nat Hall).
Qed.

Lemma evalVariant_unmatched this flagKey context flag :
  config this !! flagKey = Some (FlagEntry flag) ->
  Forall (falls_through this context flagKey) (default [] (rules flag)) ->
  evalVariant this flagKey context =
  let! text := to_String (defaultValue flag) in
  Normal (default_result text).
Proof.
  intros Hc Hall. unfold evalVariant. rewrite (config_lookup_own _ _ _ Hc).
  destruct (rules flag) as [rs |]; [| reflexivity]. simpl in Hall.
  destruct (0 <? length rs)%nat; [| reflexivity].
  now rewrite (rules_loop_no_match _ _ _ _ _ 0%nat Hall).
Qed.

(** What the loop over the rules of a flag found, as the two methods see
    it: nothing, every rule having fallen through, or the first rule that
    matched. *)
Lemma flag_rules_returned {T} this (on_match : Rule -> completion T)
    context flagKey flag found :
  match rules flag with
  | Some rules =>
      if (0 <? length rules)%nat
      then rules_loop this on_match rules 0%nat context flagKey
      else Normal None
  | None => Normal None
  end = Normal found ->
  match found with
  | None => Forall (falls_through this context flagKey) (default [] (rules flag))
  | Some result =>
      exists pre rule post ruleResult v,
        rules flag = Some (pre ++ rule :: post) /\
        Forall (falls_through this context flagKey) pre /\
        evaluateRule this rule context flagKey = Normal ruleResult /\
        matched ruleResult = true /\
        on_match rule = Normal v /\
        result = matched_result v (length pre) ruleResult
  end.
Proof.
  destruct (rules flag) as [rs |]; simpl.
  2: { intros [= <-]. constructor. }
  destruct (0 <? length rs)%nat eqn:Hlen.
  - intros E. pose proof (rules_loop_returns _ _ _ _ _ _ _ E) as Hr.
    destruct found as [result |]; [| exact Hr].
    destruct Hr as (pre & rule & post & rr & v & -> & Hpre & He & Hm & Hv & ->).
    exists pre, rule, post, rr, v. repeat split; auto.
  - intros [= <-]. apply Nat.ltb_ge in Hlen.
    destruct rs; [constructor | simpl in Hlen; lia].
Qed.

(** How a call of [evalBool] that returns has ended. *)
Lemma evalBool_returns this flagKey context r :
  evalBool this flagKey context = Normal r ->
  ((config_lookup this flagKey = Missing \/
    config_lookup this flagKey = Own FalsyEntry) /\
   r = not_found_result false flagKey) \/
  ((exists b, config_lookup this flagKey = Inherited b) /\
   r = default_result false) \/
  (exists flag,
     config this !! flagKey = Some (FlagEntry flag) /\
     ((Forall (falls_through this context flagKey) (default [] (rules flag)) /\
       r = default_result (truthy (defaultValue flag))) \/
      (exists pre rule post ruleResult,
         rules flag = Some (pre ++ rule :: post) /\
         Forall (falls_through this context flagKey) pre /\
         evaluateRule this rule context flagKey = Normal ruleResult /\
         matched ruleResult = true /\
         r = matched_result (default true (rule_value rule)) (length pre)
               ruleResult))).
Proof.
  unfold evalBool, config_lookup.
  destruct (config this !! flagKey) as [[flag |] |] eqn:Hc.
  - destruct (match rules flag with
              | Some rules =>
                  if (0 <? length rules)%nat
                  then rules_loop this rule_bool rules 0%nat context flagKey
                  else Normal None
              | None => Normal None
              end) as [found | e] eqn:Hf; [| discriminate].
    simpl. pose proof (flag_rules_returned _ _ _ _ _ _ Hf) as Hr. intros E.
    right. right. exists flag. split; [reflexivity |].
    destruct found as [result |].
    + injection E as <-. right.
      destruct Hr as (pre & rule & post & rr & v & Hrs & Hpre & He & Hm & Hv & ->).
      injection Hv as <-. exists pre, rule, post, rr. repeat split; auto.
    + injection E as <-. left. split; [exact Hr | reflexivity].
  - intros [= <-]. left. split; [now right | reflexivity].
  - destruct (object_prototype_property (Builtin ObjectPrototype) flagKey) as [b |].
    + intros [= <-]. right. left. split; [eauto | reflexivity].
    + intros [= <-]. left. split; [now left | reflexivity].
Qed.

(** How a call of [evalVariant] that returns has ended. *)
Lemma evalVariant_returns this flagKey context r :
  evalVariant this flagKey context = Normal r ->
  ((config_lookup this flagKey = Missing \/
    config_lookup this flagKey = Own FalsyEntry) /\
   r = not_found_result (js "default") flagKey) \/
  ((exists b, config_lookup this flagKey = Inherited b) /\
   r = default_result (js "undefined")) \/
  (exists flag,
     config this !! flagKey = Some (FlagEntry flag) /\
     ((Forall (falls_through this context flagKey) (default [] (rules flag)) /\
       exists text, to_String (defaultValue flag) = Normal text /\
                    r = default_result text) \/
      (exists pre rule post ruleResult v,
         rules flag = Some (pre ++ rule :: post) /\
         Forall (falls_through this context flagKey) pre /\
         evaluateRule this rule context flagKey = Normal ruleResult /\
         matched ruleResult = true /\
         rule_variant flag rule = Normal v /\
         r = matched_result v (length pre) ruleResult))).
Proof.
  unfold evalVariant, config_lookup.
  destruct (config this !! flagKey) as [[flag |] |] eqn:Hc.
  - destruct (match rules flag with
              | Some rules =>
                  if (0 <? length rules)%nat
                  then rules_loop this (rule_variant flag) rules 0%nat
                         context flagKey
                  else Normal None
              | None => Normal None
              end) as [found | e] eqn:Hf; [| discriminate].
    simpl. pose proof (flag_rules_returned _ _ _ _ _ _ Hf) as Hr. intros E.
    right. right. exists flag. split; [reflexivity |].
    destruct found as [result |].
    + injection E as <-. right.
      destruct Hr as (pre & rule & post & rr & v & Hrs & Hpre & He & Hm & Hv & ->).
      exists pre, rule, post, rr, v. repeat split; auto.
    + destruct (to_String (defaultValue flag)) as [text | e] eqn:Ht;
        [| discriminate E].
      simpl in E. injection E as <-. left. split; [exact Hr |]. eauto.
  - intros [= <-]. left. split; [now right | reflexivity].
  - destruct (object_prototype_property (Builtin ObjectPrototype) flagKey) as [b |].
    + simpl. intros [= <-]. right. left. split; [eauto | reflexivity].
    + intros [= <-]. left. split; [now left | reflexivity].
Qed.

Lemma falls_through_all this context flagKey rules j rule ruleResult :
  Forall (falls_through this context flagKey) rules ->
  rules !! j = Some rule ->
  evaluateRule this rule context flagKey = Normal ruleResult ->
  matched ruleResult = false.
Proof.
  intros Hall Hj E. rewrite Forall_forall in Hall.
  destruct (Hall rule) as (rr & Hrr & Hf); [| congruence].
  apply list_elem_of_lookup. eauto.
Qed.

Lemma falls_through_before this context flagKey (pre : list Rule) rule post :
  Forall (falls_through this context flagKey) pre ->
  forall k rule_k, (k < length pre)%nat ->
    (pre ++ rule :: post) !! k = Some rule_k ->
    falls_through this context flagKey rule_k.
Proof.
  intros Hpre k rule_k Hk Hlk. rewrite lookup_app_l in Hlk by exact Hk.
  rewrite Forall_forall in Hpre. apply Hpre, list_elem_of_lookup. eauto.
Qed.

(** The first rule that matches, among rules that return up to a rule
    that matches. *)
Lemma first_match this context flagKey (rules_ : list Rule) j rule_j result_j :
  rules_ !! j = Some rule_j ->
  evaluateRule this rule_j context flagKey = Normal result_j ->
  matched result_j = true ->
  (forall k rule_k, (k < j)%nat -> rules_ !! k = Some rule_k ->
     exists result_k,
       evaluateRule this rule_k context flagKey = Normal result_k) ->
  exists pre rule post ruleResult,
    rules_ = pre ++ rule :: post /\ (length pre <= j)%nat /\
    Forall (falls_through this context flagKey) pre /\
    evaluateRule this rule context flagKey = Normal ruleResult /\
    matched ruleResult = true.
Proof.
  intros Hj Ej Hmj Hbefore.
  assert (Forall (fun rule => exists ruleResult,
                    evaluateRule this rule context flagKey = Normal ruleResult)
                 (take (S j) rules_)) as Hreturn.
  { apply Forall_lookup_2. intros k rule_k Hk.
    apply lookup_take_Some in Hk as [Hk Hlt].
    destruct (Nat.eq_dec k j) as [-> | Hne].
    - assert (rule_k = rule_j) as -> by congruence. eauto.
    - apply (Hbefore k); [lia | exact Hk]. }
  assert (take (S j) rules_ !! j = Some rule_j) as Hj'.
  { rewrite lookup_take_lt by lia. exact Hj. }
  destruct (rules_split this context flagKey _ Hreturn)
    as [Hall | (pre & rule & post & rr & E & Hpre & He & Hm)].
  - pose proof (falls_through_all _ _ _ _ _ _ _ Hall Hj' Ej). congruence.
  - exists pre, rule, (post ++ drop (S j) rules_), rr.
    split; [| split; [| auto]].
    + rewrite <- (take_drop (S j) rules_) at 1. rewrite E.
      now rewrite <- app_assoc.
    + destruct (Nat.le_gt_cases (length pre) j) as [Hle | Hlt]; [exact Hle |].
      rewrite E in Hj'. rewrite lookup_app_l in Hj' by exact Hlt.
      pose proof (falls_through_all _ _ _ _ _ _ _ Hpre Hj' Ej). congruence.
Qed.

Lemma take_split (pre : list Rule) rule post rules' :
  take (S (length pre)) rules' = take (S (length pre)) (pre ++ rule :: post) ->
  exists post', rules' = pre ++ rule :: post'.
Proof.
  intros Htake.
  assert (take (S (length pre)) (pre ++ rule :: post) = pre ++ [rule]) as E.
  { rewrite take_app_ge by lia.
    replace (S (length pre) - length pre)%nat with 1%nat by lia. reflexivity. }
  rewrite E in Htake. exists (drop (S (length pre)) rules').
  rewrite <- (take_drop (S (length pre)) rules') at 1.
  rewrite Htake, <- app_assoc. reflexivity.
Qed.

(** C3. When some rule of the flag matches and the rules before it are
    evaluated without exception, [evalBool] and [evalVariant] return the
    result of the first rule that matches: the value of that rule ([true]
    when it has none; its variant, or the default value as a string when it
    has none or an empty one) and its reason, with its index as
    [ruleIndex]; that index is the smallest index of a matching rule, every
    rule before it having fallen through; and the rules after it are not
    consulted: a flag whose rules agree with these up to that index gives
    the same results.  Conversely a returned [ruleIndex] is the index of a
    rule that matched after every rule before it fell through. *)
Theorem first_matching_rule_wins
    (this : Evaluator) (flagKey : jsstring) (context : Context) (flag : Flag)
    (rules_ : list Rule) :
  config this !! flagKey = Some (FlagEntry flag) ->
  rules flag = Some rules_ ->
  (forall j rule_j result_j,
     rules_ !! j = Some rule_j ->
     evaluateRule this rule_j context flagKey = Normal result_j ->
     matched result_j = true ->
     (forall k rule_k, (k < j)%nat -> rules_ !! k = Some rule_k ->
        exists result_k,
          evaluateRule this rule_k context flagKey = Normal result_k) ->
     exists i rule ruleResult,
       (i <= j)%nat /\
       rules_ !! i = Some rule /\
       evaluateRule this rule context flagKey = Normal ruleResult /\
       matched ruleResult = true /\
       (forall k rule_k, (k < i)%nat -> rules_ !! k = Some rule_k ->
                         falls_through this context flagKey rule_k) /\
       evalBool this flagKey context =
         Normal {| result_value := match rule_value rule with
                                   | Some b => b
                                   | None => true
                                   end;
                   reason := rule_reason ruleResult;
                   metadata := Some {| ruleIndex := Some i;
                                       bucket := rule_bucket ruleResult;
                                       error := None |} |} /\
       (forall name, variant rule = Some name -> name <> [] ->
          evalVariant this flagKey context =
          Normal {| result_value := name;
                    reason := rule_reason ruleResult;
                    metadata := Some {| ruleIndex := Some i;
                                        bucket := rule_bucket ruleResult;
                                        error := None |} |}) /\
       (variant rule = None \/ variant rule = Some [] ->
        evalVariant this flagKey context =
        let! text := to_String (defaultValue flag) in
        Normal {| result_value := text;
                  reason := rule_reason ruleResult;
                  metadata := Some {| ruleIndex := Some i;
                                      bucket := rule_bucket ruleResult;
                                      error := None |} |}) /\
       (forall flag' rules',
          defaultValue flag' = defaultValue flag ->
          rules flag' = Some rules' ->
          take (S i) rules' = take (S i) rules_ ->
          let this' := {| config := <[flagKey := FlagEntry flag']> (config this) |} in
          evalBool this' flagKey context = evalBool this flagKey context /\
          evalVariant this' flagKey context = evalVariant this flagKey context)) /\
  (forall r i, evalBool this flagKey context = Normal r ->
     result_ruleIndex r = Some i ->
     exists rule ruleResult,
       rules_ !! i = Some rule /\
       evaluateRule this rule context flagKey = Normal ruleResult /\
       matched ruleResult = true /\
       (forall k rule_k, (k < i)%nat -> rules_ !! k = Some rule_k ->
                         falls_through this context flagKey rule_k)) /\
  (forall r i, evalVariant this flagKey context = Normal r ->
     result_ruleIndex r = Some i ->
     exists rule ruleResult,
       rules_ !! i = Some rule /\
       evaluateRule this rule context flagKey = Normal ruleResult /\
       matched ruleResult = true /\
       (forall k rule_k, (k < i)%nat -> rules_ !! k = Some rule_k ->
                         falls_through this context flagKey rule_k)).
Proof.
  intros Hc Hr. split; [| split].
  - intros j rule_j result_j Hj Ej Hmj Hbefore.
    destruct (first_match this context flagKey rules_ j rule_j result_j
                Hj Ej Hmj Hbefore)
      as (pre & rule & post & rr & -> & Hle & Hpre & He & Hm).
    pose proof (evalBool_matched this flagKey context flag pre rule post rr
                  Hc Hr Hpre He Hm) as Eb.
    pose proof (evalVariant_matched this flagKey context flag pre rule post rr
                  Hc Hr Hpre He Hm) as Ev.
    exists (length pre), rule, rr.
    split; [exact Hle |]. split; [now rewrite list_lookup_middle |].
    split; [exact He |]. split; [exact Hm |].
    split; [now apply falls_through_before |].
    split; [| split; [| split]].
    + rewrite Eb. unfold matched_result. now destruct (rule_value rule).
    + intros name Hn Hne. rewrite Ev. unfold rule_variant. rewrite Hn. simpl.
      apply jsstring_eqb_neq in Hne. now rewrite Hne.
    + intros Hn. rewrite Ev. unfold rule_variant.
      destruct Hn as [-> | ->]; reflexivity.
    + intros flag' rules' Hd Hr' Htake. cbv zeta.
      destruct (take_split pre rule post rules' Htake) as [post' ->].
      assert (config {| config := <[flagKey := FlagEntry flag']> (config this) |}
                !! flagKey = Some (FlagEntry flag')) as Hc'
        by (simpl; apply lookup_insert_eq).
      rewrite (evalBool_matched _ flagKey context flag' pre rule post' rr
                 Hc' Hr' Hpre He Hm).
      rewrite (evalVariant_matched _ flagKey context flag' pre rule post' rr
                 Hc' Hr' Hpre He Hm).
      rewrite Eb, Ev. unfold rule_variant. now rewrite Hd.
  - intros r i E Hi.
    destruct (evalBool_returns this flagKey context r E)
      as [[_ ->] | [[_ ->] | (flag0 & Hc0 & [[_ ->] | Hmatched])]];
      try discriminate.
    assert (flag0 = flag) as -> by congruence.
    destruct Hmatched as (pre & rule & post & rr & Hrs & Hpre & He & Hm & ->).
    assert (rules_ = pre ++ rule :: post) as -> by congruence.
    injection Hi as <-. exists rule, rr.
    split; [now rewrite list_lookup_middle |]. split; [exact He |].
    split; [exact Hm |]. now apply falls_through_before.
  - intros r i E Hi.
    destruct (evalVariant_returns this flagKey context r E)
      as [[_ ->] | [[_ ->] | (flag0 & Hc0 & [[_ (text & _ & ->)] | Hmatched])]];
      try discriminate.
    assert (flag0 = flag) as -> by congruence.
    destruct Hmatched as (pre & rule & post & rr & v & Hrs & Hpre & He & Hm & _ & ->).
    assert (rules_ = pre ++ rule :: post) as -> by congruence.
    injection Hi as <-. exists rule, rr.
    split; [now rewrite list_lookup_middle |]. split; [exact He |].
    split; [exact Hm |]. now apply falls_through_before.
Qed.




(** What the two methods return when nothing truthy is under the key. *)
Lemma missing_flag_results this flagKey context :
  config_lookup this flagKey = Missing \/
  config_lookup this flagKey = Own FalsyEntry ->
  evalBool this flagKey context = Normal (not_found_result false flagKey) /\
  evalVariant this flagKey context =
    Normal (not_found_result (js "default") flagKey).
Proof. intros Hc. unfold evalBool, evalVariant. now destruct Hc as [-> | ->]. Qed.

(** What they return under a key the configuration inherits. *)
Lemma inherited_flag_results this flagKey context b :
  config_lookup this flagKey = Inherited b ->
  evalBool this flagKey context = Normal (default_result false) /\
  evalVariant this flagKey context = Normal (default_result (js "undefined")).
Proof. intros Hc. unfold evalBool, evalVariant. now rewrite Hc. Qed.

Lemma config_lookup_constructor this :
  config this !! js "constructor" = None ->
  config_lookup this (js "constructor") = Inherited (Builtin ObjectConstructor).
Proof.
  intros Hc. unfold config_lookup, object_prototype_property. rewrite Hc.
  reflexivity.
Qed.

(** C8 (amended). For a flag of the configuration: when the rule at index
    [i] is the first that matches, [evalVariant] returns the variant of that
    rule if it has one and it is not the empty string, and otherwise the
    default value of the flag as a string, with the reason of the match and
    [ruleIndex] [i]; when no rule matches it returns the default value as a
    string with reason [default].  A default value of the declared type, a
    string or a boolean, always has its string. *)
Theorem evalVariant_value
    (this : Evaluator) (flagKey : jsstring) (context : Context) (flag : Flag) :
  config this !! flagKey = Some (FlagEntry flag) ->
  (forall pre rule post ruleResult,
     rules flag = Some (pre ++ rule :: post) ->
     Forall (falls_through this context flagKey) pre ->
     evaluateRule this rule context flagKey = Normal ruleResult ->
     matched ruleResult = true ->
     (forall name, variant rule = Some name -> name <> [] ->
        evalVariant this flagKey context =
        Normal (matched_result name (length pre) ruleResult)) /\
     (variant rule = None \/ variant rule = Some [] ->
      evalVariant this flagKey context =
      let! text := to_String (defaultValue flag) in
      Normal (matched_result text (length pre) ruleResult))) /\
  (Forall (falls_through this context flagKey) (default [] (rules flag)) ->
   evalVariant this flagKey context =
   let! text := to_String (defaultValue flag) in
   Normal {| result_value := text;
             reason := reason_default; metadata := None |}) /\
  (forall s, defaultValue flag = VString s ->
             to_String (defaultValue flag) = Normal s) /\
  (forall b, defaultValue flag = VBool b ->
             to_String (defaultValue flag) =
             Normal (if b then js "true" else js "false")).
Proof.
  intros Hc. split; [| split; [| split]].
  - intros pre rule post rr Hr Hpre He Hm.
    rewrite (evalVariant_matched this flagKey context flag pre rule post rr
               Hc Hr Hpre He Hm).
    unfold rule_variant. split.
    + intros name -> Hne. simpl.
      apply jsstring_eqb_neq in Hne. now rewrite Hne.
    + intros [-> | ->]; reflexivity.
  - now apply evalVariant_unmatched.
  - now intros s0 ->.
  - intros b ->. now destruct b.
Qed.

End WithBuiltins.

(** C8, as the claim states it, fails: the only rule of the flag matches
    and has a variant, the empty string, yet the value returned is the
    default of the flag. *)
Lemma evalVariant_empty_variant :
  let this := mkEvaluator [empty_variant_flag] in
  let context := mkContext None [] in
  option_map (List.map variant) (rules empty_variant_flag) = Some [Some []] /\
  evalVariant (H := integer_builtins) this (js "banner") context =
    Normal (matched_result (js "control") 0
              {| matched := true; rule_reason := reason_rule_match;
                 rule_bucket := None |}) /\
  js "control" <> [].
Proof. repeat split; try (vm_compute; reflexivity). discriminate. Qed.

(** C4. A key that the configuration does not hold but inherits from
    [Object.prototype] is not reported as unknown: the empty configuration
    has no flag under "constructor" or "toString", and yet the two methods
    answer as for a flag without rules and without default value, with
    reason [default] and no error, the variant being the string
    "undefined"; and [hasFlag] says the flag exists. *)
Lemma inherited_key_is_no_unknown_flag :
  let this := mkEvaluator [] in
  let context := mkContext None [] in
  config this !! js "constructor" = None /\
  config this !! js "toString" = None /\
  evalBool (H := integer_builtins) this (js "constructor") context =
    Normal {| result_value := false; reason := reason_default;
              metadata := None |} /\
  evalVariant (H := integer_builtins) this (js "constructor") context =
    Normal {| result_value := js "undefined"; reason := reason_default;
              metadata := None |} /\
  evalBool (H := integer_builtins) this (js "toString") context =
    Normal {| result_value := false; reason := reason_default;
              metadata := None |} /\
  evalVariant (H := integer_builtins) this (js "toString") context =
    Normal {| result_value := js "undefined"; reason := reason_default;
              metadata := None |} /\
  hasFlag (H := integer_builtins) this (js "constructor") = true.
Proof. repeat split; vm_compute; reflexivity. Qed.


Section WithBuiltins.
Context `{Builtins}.





(** The rules of a convertible flag all return, on convertible
    attributes. *)
Lemma rules_return this context flagKey flag :
  is_Some (as_object (attributes context)) ->
  convertible (attributes context) -> convertible_flag flag ->
  Forall (fun rule => exists ruleResult,
            evaluateRule this rule context flagKey = Normal ruleResult)
         (default [] (rules flag)).
Proof.
  intros Ho Hc [_ Hrules]. rewrite Forall_forall in *. intros rule Hin.
  apply evaluateRule_total; auto.
Qed.

(** On convertible data every call returns. *)
Lemma evaluation_outcome this flagKey context :
  is_Some (as_object (attributes context)) ->
  convertible (attributes context) ->
  (forall flag, config this !! flagKey = Some (FlagEntry flag) ->
                convertible_flag flag) ->
  exists rb rv,
    evalBool this flagKey context = Normal rb /\
    evalVariant this flagKey context = Normal rv.
Proof.
  intros Ho Hc Hflag.
  destruct (config_lookup this flagKey) as [[flag |] | b |] eqn:Hl.
  - assert (config this !! flagKey = Some (FlagEntry flag)) as Hcfg.
    { unfold config_lookup in Hl.
      destruct (config this !! flagKey) as [e |]; [congruence |].
      now destruct (object_prototype_property _ flagKey). }
    pose proof (Hflag flag Hcfg) as Hf.
    destruct (to_String_convertible (defaultValue flag) (proj1 Hf)) as [text Ht].
    destruct (rules_split this context flagKey _
                (rules_return this context flagKey flag Ho Hc Hf))
      as [Hall | (pre & rule & post & rr & E & Hpre & He & Hm)].
    + rewrite (evalBool_unmatched _ _ _ _ Hcfg Hall),
        (evalVariant_unmatched _ _ _ _ Hcfg Hall), Ht. simpl. eauto.
    + assert (rules flag = Some (pre ++ rule :: post)) as Hr.
      { destruct (rules flag) as [rs |]; simpl in E; [now subst |].
        now destruct pre. }
      rewrite (evalBool_matched _ _ _ _ _ _ _ _ Hcfg Hr Hpre He Hm),
        (evalVariant_matched _ _ _ _ _ _ _ _ Hcfg Hr Hpre He Hm).
      assert (exists v, rule_variant flag rule = Normal v) as [v ->].
      { unfold rule_variant. rewrite Ht.
        destruct (variant rule) as [name |]; [| eauto].
        destruct (truthy (VString name)); eauto. }
      simpl. eauto.
  - destruct (missing_flag_results this flagKey context (or_intror Hl))
      as [-> ->]. eauto.
  - destruct (inherited_flag_results this flagKey context b Hl) as [-> ->]. eauto.
  - destruct (missing_flag_results this flagKey context (or_introl Hl))
      as [-> ->]. eauto.
Qed.


(** C10. The reason of a result of [evalBool] or [evalVariant] is one of
    [default], [rule_match], [rollout] and [flag_not_found], never
    [rollout_excluded] or [error]; when every rule of the flag falls
    through, be it on its conditions or on its rollout bucket, the result
    is the default value of the flag with reason [default] and no
    metadata; and results there are: on a context whose attributes are an
    object, with no object that has a property [toString] of its own among
    the attributes or in the flag, both methods return. *)
Theorem returned_reasons
    (this : Evaluator) (flagKey : jsstring) (context : Context) :
  (forall r, evalBool this flagKey context = Normal r ->
             returned_reason (reason r) = true) /\
  (forall r, evalVariant this flagKey context = Normal r ->
             returned_reason (reason r) = true) /\
  (forall flag, config this !! flagKey = Some (FlagEntry flag) ->
     Forall (falls_through this context flagKey) (default [] (rules flag)) ->
     evalBool this flagKey context =
       Normal {| result_value := truthy (defaultValue flag);
                 reason := reason_default; metadata := None |} /\
     evalVariant this flagKey context =
       (let! text := to_String (defaultValue flag) in
        Normal {| result_value := text;
                  reason := reason_default; metadata := None |}) /\
     (forall b, defaultValue flag = VBool b -> truthy (defaultValue flag) = b) /\
     (forall s, defaultValue flag = VString s ->
                to_String (defaultValue flag) = Normal s)) /\
  (is_Some (as_object (attributes context)) ->
   convertible (attributes context) ->
   (forall flag, config this !! flagKey = Some (FlagEntry flag) ->
                 convertible_flag flag) ->
   exists rb rv,
     evalBool this flagKey context = Normal rb /\
     evalVariant this flagKey context = Normal rv /\
     returned_reason (reason rb) = true /\
     returned_reason (reason rv) = true).
Proof.
  assert (forall r, evalBool this flagKey context = Normal r ->
                    returned_reason (reason r) = true) as Hbool.
  2: assert (forall r, evalVariant this flagKey context = Normal r ->
                       returned_reason (reason r) = true) as Hvariant.
  3: { split; [exact Hbool |]. split; [exact Hvariant |]. split.
       - intros flag Hc Hall. repeat split.
         + now apply evalBool_unmatched.
         + now apply evalVariant_unmatched.
         + now intros b ->.
         + now intros s0 ->.
       - intros Ho Hconv Hflag.
         destruct (evaluation_outcome this flagKey context Ho Hconv Hflag)
           as (rb & rv & Eb & Ev).
         exists rb, rv. auto. }
  - intros r E.
    destruct (evalBool_returns this flagKey context r E)
      as [[_ ->] | [[_ ->] | (flag & Hc & [[_ ->] | Hmatched])]];
      try reflexivity.
    destruct Hmatched as (pre & rule & post & rr & _ & _ & He & Hm & ->).
    simpl.
    destruct (evaluateRule_matched_reason _ _ _ _ _ He Hm) as [-> | ->];
      reflexivity.
  - intros r E.
    destruct (evalVariant_returns this flagKey context r E)
      as [[_ ->] | [[_ ->] | (flag & Hc & [[_ (text & _ & ->)] | Hmatched])]];
      try reflexivity.
    destruct Hmatched as (pre & rule & post & rr & v & _ & _ & He & Hm & _ & ->).
    simpl.
    destruct (evaluateRule_matched_reason _ _ _ _ _ He Hm) as [-> | ->];
      reflexivity.
Qed.


End WithBuiltins.

End EvaluatorFacts.
(** ** The theorems at concrete inputs, and the tests of the repository *)

Module Witnesses.
Import Values Types Conditions Evaluator Examples.
Import RolloutFacts ConditionFacts EvaluatorFacts.
#[local] Existing Instance integer_builtins.

(** The test "should match when attribute is missing": a [neq] condition
    on an attribute the context does not have. *)
Lemma evaluateCondition_missing_attribute_witness :
  let condition := mkCondition "missing" "neq" (str "test") in
  let context := mkContext None [] in
  getAttributeValue context (attribute condition) = Normal (Data VUndefined) /\
  evaluateCondition condition context = Normal true.
Proof.
  cbv zeta.
  assert (getAttributeValue (mkContext None [])
            (attribute (mkCondition "missing" "neq" (str "test")))
          = Normal (Data VUndefined)) as E by (vm_compute; reflexivity).
  split; [exact E |].
  destruct (evaluateCondition_missing_attribute
              (mkCondition "missing" "neq" (str "test")) (mkContext None []) E)
    as [Hneq _].
  destruct (Hneq eq_refl) as [[_ Hm] _]. apply Hm. discriminate.
Defined.

(** Loose equality of 25 and "25", both ways, and its negation by [neq]. *)
Lemma areEqual_spec_witness :
  let context := mkContext None [(js "age", str "25")] in
  let context' := mkContext None [(js "age", num 25)] in
  number_to_string 25 = js "25" /\
  getAttributeValue context (js "age") = Normal (Data (str "25")) /\
  getAttributeValue context' (js "age") = Normal (Data (VNumber 25)) /\
  areEqual (VNumber 25) (str "25") = Normal true /\
  evaluateCondition (mkCondition "age" "eq" (VNumber 25)) context = Normal true /\
  evaluateCondition (mkCondition "age" "eq" (str "25")) context' = Normal true /\
  evaluateCondition (mkCondition "age" "neq" (str "25")) context' = Normal false.
Proof.
  cbv zeta.
  assert (number_to_string 25 = js "25") as H25 by (vm_compute; reflexivity).
  assert (getAttributeValue (mkContext None [(js "age", str "25")]) (js "age")
          = Normal (Data (str "25"))) as E by (vm_compute; reflexivity).
  assert (getAttributeValue (mkContext None [(js "age", num 25)]) (js "age")
          = Normal (Data (VNumber 25))) as E' by (vm_compute; reflexivity).
  destruct (areEqual_spec (Data (VNumber 25)) (str "25"))
    as (Hspec & _ & _ & Hstr & H25s & Hneg).
  assert (areEqual (VNumber 25) (str "25") = Normal true) as Heq.
  { rewrite Hstr by reflexivity. vm_compute. reflexivity. }
  destruct (H25s H25 (mkContext None [(js "age", str "25")]) (js "age")) as [Ha _].
  destruct (H25s H25 (mkContext None [(js "age", num 25)]) (js "age")) as [_ Hb].
  destruct (Hneg (mkContext None [(js "age", num 25)]) (js "age") E'
              ltac:(discriminate)) as [_ Hn].
  rewrite Heq in Hn. repeat split; auto.
Defined.


(** A 99 percent rule for user "u" (bucket 5), for no user, and a rule
    without percentage. *)
Lemma evaluateRule_rollout_witness :
  let context := mkContext (Some (js "u")) [] in
  let context' := mkContext None [] in
  evaluateConditions (Some (default [] (conditions rollout_99))) context
    = Normal true /\
  Rollout.computeRolloutBucket (js "u") (js "f") = 5 /\
  evaluateRule (mkEvaluator []) rollout_99 context (js "f") =
    Normal {| matched := true; rule_reason := reason_rollout;
              rule_bucket := Some 5 |} /\
  evaluateRule (mkEvaluator []) rollout_99 context' (js "f") =
    Normal (excluded None) /\
  evaluateRule (mkEvaluator []) us_rule
    (mkContext None [(js "country", str "US")]) (js "f") =
    Normal {| matched := true; rule_reason := reason_rule_match;
              rule_bucket := None |}.
Proof.
  cbv zeta.
  assert (evaluateConditions (Some (default [] (conditions rollout_99)))
            (mkContext (Some (js "u")) []) = Normal true) as Hc
    by (vm_compute; reflexivity).
  assert (evaluateConditions (Some (default [] (conditions rollout_99)))
            (mkContext None []) = Normal true) as Hc'
    by (vm_compute; reflexivity).
  assert (evaluateConditions (Some (default [] (conditions us_rule)))
            (mkContext None [(js "country", str "US")]) = Normal true) as Hc''
    by (vm_compute; reflexivity).
  assert (Rollout.computeRolloutBucket (js "u") (js "f") = 5) as Hb
    by (vm_compute; reflexivity).
  split; [exact Hc |]. split; [exact Hb |].
  destruct (evaluateRule_rollout (mkEvaluator []) rollout_99 _ (js "f") Hc)
    as [Hp _].
  destruct (Hp 99%float eq_refl ltac:(vm_compute; reflexivity)) as [_ Hu].
  destruct (Hu (js "u") eq_refl ltac:(discriminate)) as [Hin _].
  rewrite Hb in Hin. split; [apply Hin; vm_compute; reflexivity |].
  destruct (evaluateRule_rollout (mkEvaluator []) rollout_99 _ (js "f") Hc')
    as [Hp' _].
  destruct (Hp' 99%float eq_refl ltac:(vm_compute; reflexivity)) as [Hno _].
  split; [apply Hno; now left |].
  destruct (evaluateRule_rollout (mkEvaluator []) us_rule _ (js "f") Hc'')
    as [_ Hnone].
  apply Hnone. now left.
Defined.

(** The first rule of the ordering test does not match a UK context. *)
Lemma us_rule_falls_through_uk :
  falls_through (mkEvaluator [ordering_flag])
    (mkContext None [(js "country", str "UK")]) (js "test-flag") us_rule.
Proof. exists (excluded None). split; vm_compute; reflexivity. Defined.

(** The ordering test with a UK context, where the second rule is the first
    to match, and with a US context, where both rules match. *)
Lemma first_matching_rule_wins_witness :
  let this := mkEvaluator [ordering_flag] in
  let uk := mkContext None [(js "country", str "UK")] in
  let us := mkContext None [(js "country", str "US")] in
  config this !! js "test-flag" = Some (FlagEntry ordering_flag) /\
  evaluateRule this us_uk_rule uk (js "test-flag") =
    Normal {| matched := true; rule_reason := reason_rule_match;
              rule_bucket := None |} /\
  evalBool this (js "test-flag") uk =
    Normal {| result_value := false; reason := reason_rule_match;
              metadata := Some {| ruleIndex := Some 1%nat; bucket := None;
                                  error := None |} |} /\
  evaluateRule this us_uk_rule us (js "test-flag") =
    Normal {| matched := true; rule_reason := reason_rule_match;
              rule_bucket := None |} /\
  evalBool this (js "test-flag") us =
    Normal {| result_value := true; reason := reason_rule_match;
              metadata := Some {| ruleIndex := Some 0%nat; bucket := None;
                                  error := None |} |}.
Proof.
  cbv zeta.
  set (this := mkEvaluator [ordering_flag]).
  set (uk := mkContext None [(js "country", str "UK")]).
  set (us := mkContext None [(js "country", str "US")]).
  assert (config this !! js "test-flag" = Some (FlagEntry ordering_flag)) as Hc
    by (vm_compute; reflexivity).
  assert (evaluateRule this us_uk_rule uk (js "test-flag") =
          Normal {| matched := true; rule_reason := reason_rule_match;
                    rule_bucket := None |}) as He by (vm_compute; reflexivity).
  assert (evaluateRule this us_uk_rule us (js "test-flag") =
          Normal {| matched := true; rule_reason := reason_rule_match;
                    rule_bucket := None |}) as He' by (vm_compute; reflexivity).
  assert (forall context k rule_k, (k < 1)%nat ->
            [us_rule; us_uk_rule] !! k = Some rule_k ->
            evaluateRule this us_rule context (js "test-flag")
            = evaluateRule this rule_k context (js "test-flag")) as Hfirst.
  { intros context [| k] rule_k Hk; [| lia]. now intros [= <-]. }
  split; [exact Hc |]. split; [exact He |]. split; [| split; [exact He' |]].
  - destruct (proj1 (first_matching_rule_wins this (js "test-flag") uk
                       ordering_flag [us_rule; us_uk_rule] Hc eq_refl)
                1%nat us_uk_rule _ eq_refl He eq_refl)
      as (i & rule & rr & Hle & Hi & Hr & Hm & Hbefore & Hb & _).
    { intros k rule_k Hk Hlk. rewrite <- (Hfirst uk k rule_k Hk Hlk).
      eexists. vm_compute. reflexivity. }
    destruct i as [| [| i]]; [| | lia].
    + injection Hi as <-.
      assert (evaluateRule this us_rule uk (js "test-flag")
              = Normal (excluded None)) as Huk by (vm_compute; reflexivity).
      rewrite Huk in Hr. injection Hr as <-. discriminate.
    + injection Hi as <-. rewrite He in Hr. injection Hr as <-. exact Hb.
  - destruct (proj1 (first_matching_rule_wins this (js "test-flag") us
                       ordering_flag [us_rule; us_uk_rule] Hc eq_refl)
                1%nat us_uk_rule _ eq_refl He' eq_refl)
      as (i & rule & rr & Hle & Hi & Hr & Hm & Hbefore & Hb & _).
    { intros k rule_k Hk Hlk. rewrite <- (Hfirst us k rule_k Hk Hlk).
      eexists. vm_compute. reflexivity. }
    assert (evaluateRule this us_rule us (js "test-flag") =
            Normal {| matched := true; rule_reason := reason_rule_match;
                      rule_bucket := None |}) as Hus by (vm_compute; reflexivity).
    destruct i as [| [| i]]; [| | lia].
    + injection Hi as <-. rewrite Hus in Hr. injection Hr as <-. exact Hb.
    + destruct (Hbefore 0%nat us_rule ltac:(lia) eq_refl) as (rr' & Hrr' & Hf).
      rewrite Hus in Hrr'. injection Hrr' as <-. discriminate.
Defined.

(** The rules of the layout flag against UK and CA contexts. *)
Lemma layout_us_falls_through_uk :
  falls_through (mkEvaluator [layout_flag])
    (mkContext None [(js "country", str "UK")]) (js "layout") layout_us.
Proof. exists (excluded None). split; vm_compute; reflexivity. Defined.

Lemma layout_falls_through_ca :
  Forall (falls_through (mkEvaluator [layout_flag])
            (mkContext None [(js "country", str "CA")]) (js "layout"))
    [layout_us; layout_uk].
Proof.
  repeat constructor; exists (excluded None); split; vm_compute; reflexivity.
Defined.

(** The test "should handle multiple variant rules". *)
Lemma evalVariant_value_witness :
  let this := mkEvaluator [layout_flag] in
  config this !! js "layout" = Some (FlagEntry layout_flag) /\
  evalVariant this (js "layout") (mkContext None [(js "country", str "UK")]) =
    Normal {| result_value := js "variant-b"; reason := reason_rule_match;
              metadata := Some {| ruleIndex := Some 1%nat; bucket := None;
                                  error := None |} |} /\
  evalVariant this (js "layout") (mkContext None [(js "country", str "CA")]) =
    Normal {| result_value := js "control"; reason := reason_default;
              metadata := None |}.
Proof.
  cbv zeta.
  assert (config (mkEvaluator [layout_flag]) !! js "layout"
          = Some (FlagEntry layout_flag))
    as Hc by (vm_compute; reflexivity).
  split; [exact Hc |].
  destruct (evalVariant_value (mkEvaluator [layout_flag]) (js "layout")
              (mkContext None [(js "country", str "UK")]) layout_flag Hc)
    as [Hm _].
  destruct (Hm [layout_us] layout_uk []
              {| matched := true; rule_reason := reason_rule_match;
                 rule_bucket := None |}
              eq_refl
              ltac:(constructor; [exact layout_us_falls_through_uk | constructor])
              ltac:(vm_compute; reflexivity) eq_refl) as (Hname & _).
  split; [exact (Hname (js "variant-b") eq_refl ltac:(discriminate)) |].
  destruct (evalVariant_value (mkEvaluator [layout_flag]) (js "layout")
              (mkContext None [(js "country", str "CA")]) layout_flag Hc)
    as (_ & Hd & _).
  exact (Hd layout_falls_through_ca).
Defined.

(** The bucket of user-123 for rollout-flag is 74, above 50. *)
Lemma half_rollout_excludes_user_123 :
  evaluateRule (mkEvaluator [rollout_flag]) half_rollout
    (mkContext (Some (js "user-123")) []) (js "rollout-flag")
  = Normal (excluded (Some 74)).
Proof. vm_compute. reflexivity. Defined.

(** A user excluded by the rollout receives the default, with no bucket in
    the result. *)
Lemma returned_reasons_witness :
  let this := mkEvaluator [rollout_flag] in
  let context := mkContext (Some (js "user-123")) [] in
  config this !! js "rollout-flag" = Some (FlagEntry rollout_flag) /\
  evaluateRule this half_rollout context (js "rollout-flag") =
    Normal (excluded (Some 74)) /\
  evalBool this (js "rollout-flag") context =
    Normal {| result_value := false; reason := reason_default;
              metadata := None |} /\
  returned_reason reason_default = true.
Proof.
  cbv zeta.
  assert (config (mkEvaluator [rollout_flag]) !! js "rollout-flag"
          = Some (FlagEntry rollout_flag)) as Hc by (vm_compute; reflexivity).
  split; [exact Hc |]. split; [exact half_rollout_excludes_user_123 |].
  destruct (returned_reasons (mkEvaluator [rollout_flag]) (js "rollout-flag")
              (mkContext (Some (js "user-123")) [])) as (Hreason & _ & Hd & _).
  destruct (Hd rollout_flag Hc) as (Hb & _).
  { repeat constructor. exists (excluded (Some 74)).
    split; [exact half_rollout_excludes_user_123 | reflexivity]. }
  split; [exact Hb |]. exact (Hreason _ Hb).
Defined.


(** The tests of the repository on rollout and conditions, run on the
    model. *)
Example test_string_number_comparison :
  evaluateCondition (mkCondition "age" "gt" (str "18"))
    (mkContext None [(js "age", str "25")]) = Normal true.
Proof. vm_compute. reflexivity. Qed.

Example test_contains_substring :
  evaluateCondition (mkCondition "email" "contains" (str "@example.com"))
    (mkContext None [(js "email", str "user@example.com")]) = Normal true.
Proof. vm_compute. reflexivity. Qed.

Example test_contains_in_array :
  evaluateCondition (mkCondition "tags" "contains" (str "beta"))
    (mkContext None
       [(js "tags", VArray 1%nat [str "alpha"; str "beta"; str "gamma"])])
  = Normal true.
Proof. vm_compute. reflexivity. Qed.

Example test_deeply_nested_missing :
  evaluateCondition (mkCondition "user.account.plan" "eq" (str "premium"))
    (mkContext None [(js "user", VObject 1%nat ∅)]) = Normal false.
Proof. vm_compute. reflexivity. Qed.

Example test_first_rule_wins :
  evalBool (mkEvaluator [ordering_flag]) (js "test-flag")
    (mkContext None [(js "country", str "US")]) =
  Normal (matched_result true 0
            {| matched := true; rule_reason := reason_rule_match;
               rule_bucket := None |}).
Proof. vm_compute. reflexivity. Qed.

Example test_rollout_without_userId :
  evalBool (mkEvaluator [rollout_flag]) (js "rollout-flag") (mkContext None []) =
  Normal {| result_value := false; reason := reason_default; metadata := None |}.
Proof. vm_compute. reflexivity. Qed.

Example test_rollout_included :
  evalBool (mkEvaluator [rollout_flag]) (js "rollout-flag")
    (mkContext (Some (js "user-1")) []) =
  Normal (matched_result true 0
            {| matched := true; rule_reason := reason_rollout;
               rule_bucket := Some 23 |}).
Proof. vm_compute. reflexivity. Qed.

Example test_unknown_flag :
  evalBool (mkEvaluator []) (js "missing-flag") (mkContext None []) =
  Normal (not_found_result false (js "missing-flag")) /\
  evalVariant (mkEvaluator []) (js "missing") (mkContext None []) =
  Normal (not_found_result (js "default") (js "missing")).
Proof. split; vm_compute; reflexivity. Qed.

End Witnesses.
(** * Further properties of the evaluation core *)

(** ** IEEE comparisons *)

Module FloatFacts.

Lemma SFcompare_antisym x y :
  SFcompare y x = option_map CompOpp (SFcompare x y).
Proof.
  destruct x as [s | s | | s m e], y as [s' | s' | | s' m' e'];
    cbn [SFcompare option_map];
    repeat match goal with b : bool |- _ => destruct b end; try reflexivity;
    rewrite (Z.compare_antisym e e'); destruct (e ?= e'); cbn [CompOpp option_map];
    try reflexivity;
    change (PosDef.Pos.compare_cont Eq m' m) with (Pos.compare m' m);
    change (PosDef.Pos.compare_cont Eq m m') with (Pos.compare m m');
    rewrite (Pos.compare_antisym m m');
    destruct (Pos.compare m m'); reflexivity.
Qed.

Lemma SFleb_trans x y z :
  SFleb x y = true -> SFleb y z = true -> SFleb x z = true.
Proof.
  unfold SFleb.
  destruct x as [s | s | | s m e], y as [s' | s' | | s' m' e'],
           z as [s'' | s'' | | s'' m'' e'']; cbn [SFcompare];
    repeat match goal with b : bool |- _ => destruct b end;
    try reflexivity; try discriminate;
    repeat match goal with
           | |- context [PosDef.Pos.compare_cont Eq ?a ?b] =>
               change (PosDef.Pos.compare_cont Eq a b) with (Pos.compare a b)
           end;
    repeat match goal with
           | |- context [Z.compare ?a ?b] => destruct (Z.compare_spec a b)
           | |- context [Pos.compare ?a ?b] => destruct (Pos.compare_spec a b)
           end; cbn [CompOpp]; try reflexivity; try discriminate; intros; subst; lia.
Qed.

Lemma eqb_sym (x y : float) : PrimFloat.eqb x y = PrimFloat.eqb y x.
Proof.
  rewrite !FloatAxioms.eqb_spec. unfold SFeqb.
  rewrite (SFcompare_antisym (Prim2SF x) (Prim2SF y)).
  now destruct (SFcompare (Prim2SF x) (Prim2SF y)) as [[] |].
Qed.

Lemma ltb_leb (x y : float) : PrimFloat.ltb x y = true -> PrimFloat.leb x y = true.
Proof.
  rewrite FloatAxioms.ltb_spec, FloatAxioms.leb_spec. unfold SFltb, SFleb.
  now destruct (SFcompare (Prim2SF x) (Prim2SF y)) as [[] |].
Qed.

Lemma ltb_not_leb (x y : float) :
  PrimFloat.ltb x y = true -> PrimFloat.leb y x = false.
Proof.
  rewrite FloatAxioms.ltb_spec, FloatAxioms.leb_spec. unfold SFltb, SFleb.
  rewrite (SFcompare_antisym (Prim2SF x) (Prim2SF y)).
  now destruct (SFcompare (Prim2SF x) (Prim2SF y)) as [[] |].
Qed.

Lemma ltb_not_ltb (x y : float) :
  PrimFloat.ltb x y = true -> PrimFloat.ltb y x = false.
Proof.
  rewrite !FloatAxioms.ltb_spec. unfold SFltb.
  rewrite (SFcompare_antisym (Prim2SF x) (Prim2SF y)).
  now destruct (SFcompare (Prim2SF x) (Prim2SF y)) as [[] |].
Qed.

Lemma leb_trans (x y z : float) :
  PrimFloat.leb x y = true -> PrimFloat.leb y z = true -> PrimFloat.leb x z = true.
Proof. rewrite !FloatAxioms.leb_spec. apply SFleb_trans. Qed.

(** Of two numbers that can be compared, one is below the other or the
    other is at most the one. *)
Lemma not_ltb_leb (x y z : float) :
  PrimFloat.leb x z = true -> PrimFloat.leb y y = true ->
  PrimFloat.ltb x y = false -> PrimFloat.leb y x = true.
Proof.
  rewrite FloatAxioms.ltb_spec, !FloatAxioms.leb_spec. unfold SFltb, SFleb.
  rewrite (SFcompare_antisym (Prim2SF x) (Prim2SF y)).
  destruct (Prim2SF x) as [s | s | | s m e], (Prim2SF y) as [s' | s' | | s' m' e'];
    cbn [SFcompare option_map]; try discriminate; try (intros; discriminate);
    try (now destruct (SFcompare _ _) as [[] |]);
    repeat match goal with b : bool |- _ => destruct b end; cbn; try congruence;
    try (destruct (e ?= e'); cbn; try congruence;
         destruct (PosDef.Pos.compare_cont Eq m m'); cbn; congruence).
Qed.

End FloatFacts.

(** ** Conditions *)

Module ConditionAlgebra.
Import Values Types Conditions Variations ConditionFacts FloatFacts.

Lemma jsstring_eqb_sym (a b : jsstring) : jsstring_eqb a b = jsstring_eqb b a.
Proof.
  destruct (jsstring_eqb b a) eqn:E.
  - apply jsstring_eqb_eq in E. subst. apply jsstring_eqb_refl.
  - apply jsstring_eqb_neq in E. apply jsstring_eqb_neq. congruence.
Qed.

Lemma strict_equals_sym a b : strict_equals a b = strict_equals b a.
Proof.
  destruct a as [a | x], b as [b | y]; [| now destruct a | now destruct b |].
  - destruct a, b; simpl; try reflexivity.
    + now destruct b, b0.
    + apply eqb_sym.
    + apply jsstring_eqb_sym.
    + apply Nat.eqb_sym.
    + apply Nat.eqb_sym.
  - simpl. apply bool_decide_ext. split; congruence.
Qed.

Lemma split_segment (sep : N) k rest :
  ~ In sep k -> split sep (k ++ sep :: rest) = k :: split sep rest.
Proof.
  induction k as [| c k IH]; intros Hk; simpl.
  - now rewrite N.eqb_refl.
  - destruct (N.eqb_spec c sep) as [-> | Hne]; [destruct Hk; now left |].
    rewrite IH; [reflexivity |]. intros Hin. apply Hk. now right.
Qed.

Lemma split_segments_free (sep : N) s :
  Forall (fun seg => ~ In sep seg) (split sep s).
Proof.
  induction s as [| c s IH]; simpl.
  - repeat constructor. intros [].
  - destruct (N.eqb_spec c sep) as [-> | Hne].
    + constructor; [intros [] | exact IH].
    + destruct (split sep s) as [| seg segs]; [repeat constructor; intros [? | []]; congruence |].
      inversion IH as [| ? ? Hseg Hsegs]; subst. constructor; [| exact Hsegs].
      intros [? | ?]; [congruence | contradiction].
Qed.

Lemma starts_with_iff needle s :
  starts_with needle s = true <-> exists post, s = needle ++ post.
Proof.
  revert s. induction needle as [| n needle IH]; intros s; simpl.
  - split; eauto.
  - destruct s as [| c s]; [split; [discriminate | intros [? ?]; discriminate] |].
    rewrite andb_true_iff, N.eqb_eq, IH. split.
    + intros [-> [post ->]]. eauto.
    + intros [post [= -> ->]]. eauto.
Qed.

Lemma includes_iff s needle :
  includes s needle = true <-> exists pre post, s = pre ++ needle ++ post.
Proof.
  induction s as [| c s IH].
  - simpl. rewrite orb_false_r, starts_with_iff. split.
    + intros [post E]. exists [], post. exact E.
    + intros (pre & post & E). destruct pre; [eauto | discriminate].
  - cbn [includes]. rewrite orb_true_iff, starts_with_iff, IH. split.
    + intros [[post E] | (pre & post & E)].
      * exists [], post. exact E.
      * exists (c :: pre), post. simpl. now rewrite E.
    + intros (pre & post & E). destruct pre as [| c' pre].
      * left. eauto.
      * right. injection E as -> ->. eauto.
Qed.

Section WithBuiltins.
Context `{Builtins}.

Lemma strict_equals_refl_or_number (a : jsany) :
  strict_equals a a = true \/ exists n, a = Data (VNumber n).
Proof.
  destruct a as [a | x].
  - destruct a; simpl; eauto.
    + left. now destruct b.
    + left. apply jsstring_eqb_refl.
    + left. apply Nat.eqb_refl.
    + left. apply Nat.eqb_refl.
  - left. simpl. now apply bool_decide_eq_true_2.
Qed.

Lemma areEqual_refl a : areEqual a a = Normal true.
Proof.
  destruct (strict_equals_refl_or_number a) as [E | [n ->]].
  - unfold areEqual. now rewrite E.
  - unfold areEqual. destruct (strict_equals _ _); [reflexivity |].
    simpl. unfold to_String. simpl. now rewrite jsstring_eqb_refl.
Qed.

Lemma areEqual_sym a b : areEqual a b = areEqual b a.
Proof.
  unfold areEqual, loose_equals_nullish.
  rewrite (strict_equals_sym a b), (orb_comm (is_nullish a)),
    (andb_comm (is_nullish a)).
  destruct (strict_equals b a); [reflexivity |].
  destruct (is_nullish b || is_nullish a); [reflexivity |].
  destruct (to_String a) as [sa | []], (to_String b) as [sb | []]; simpl;
    try reflexivity.
  now rewrite jsstring_eqb_sym.
Qed.

(** A call whose attributes are no object throws, whatever the operator. *)
Lemma evaluateCondition_throws condition context e :
  getAttributeValue context (attribute condition) = Throw e ->
  evaluateCondition condition context = Throw e.
Proof. intros E. unfold evaluateCondition. cbv zeta. now rewrite E. Qed.

Lemma evaluateCondition_numeric condition context actual op cmp :
  getAttributeValue context (attribute condition) = Normal actual ->
  In (op, cmp)
     [(js "gt", fun a v => PrimFloat.ltb v a);
      (js "gte", fun a v => PrimFloat.leb v a);
      (js "lt", fun a v => PrimFloat.ltb a v);
      (js "lte", fun a v => PrimFloat.leb a v)] ->
  evaluateCondition (with_operator op condition) context =
  Normal (compare_numbers cmp actual (value condition)).
Proof.
  intros E Hop. unfold evaluateCondition, with_operator. cbv zeta. simpl.
  rewrite E. simpl.
  assert (strict_equals actual VUndefined = true ->
          compare_numbers cmp actual (value condition) = false) as Hu.
  { intros Hu. apply strict_equals_undefined in Hu. now subst. }
  simpl in Hop.
  destruct Hop as [[= <- <-] | [[= <- <-] | [[= <- <-] | [[= <- <-] | []]]]];
    simpl; destruct (strict_equals actual VUndefined);
    rewrite ?(Hu eq_refl); reflexivity.
Qed.

(** X1. The loose equality of [eq], [neq], [in] and [contains] is reflexive
    and symmetric.  Hence an attribute that resolves to any value but
    [undefined] matches [eq] against that same value, and fails [neq]
    against it, even when the value is NaN, which [===] tells apart from
    itself. *)
Theorem loose_equality_reflexive_symmetric (a b : jsval) :
  areEqual a a = Normal true /\
  areEqual a b = areEqual b a /\
  (forall context attr,
     getAttributeValue context attr = Normal (Data a) -> a <> VUndefined ->
     evaluateCondition {| attribute := attr; operator := js "eq"; value := a |}
       context = Normal true /\
     evaluateCondition {| attribute := attr; operator := js "neq"; value := a |}
       context = Normal false).
Proof.
  split; [apply areEqual_refl |]. split; [apply areEqual_sym |].
  intros context attr E Hdef.
  assert (Data a <> Data VUndefined) as Hdef' by congruence.
  split.
  - erewrite evaluateCondition_eq; [| exact E | exact Hdef' | reflexivity].
    simpl. now rewrite areEqual_refl.
  - erewrite evaluateCondition_neq; [| exact E | exact Hdef' | reflexivity].
    simpl. now rewrite areEqual_refl.
Qed.

(** X2. The four numeric operators are consistent on one attribute and one
    comparison value: where [gt] matches, [gte] matches and neither [lt] nor
    [lte] does; where [lt] matches, [lte] matches and neither [gt] nor [gte]
    does. *)
Theorem numeric_operators_consistent (condition : Condition) (context : Context) :
  (evaluateCondition (with_operator (js "gt") condition) context = Normal true ->
   evaluateCondition (with_operator (js "gte") condition) context = Normal true /\
   evaluateCondition (with_operator (js "lt") condition) context = Normal false /\
   evaluateCondition (with_operator (js "lte") condition) context = Normal false) /\
  (evaluateCondition (with_operator (js "lt") condition) context = Normal true ->
   evaluateCondition (with_operator (js "lte") condition) context = Normal true /\
   evaluateCondition (with_operator (js "gt") condition) context = Normal false /\
   evaluateCondition (with_operator (js "gte") condition) context = Normal false).
Proof.
  destruct (getAttributeValue context (attribute condition)) as [actual | e] eqn:E.
  2: { split; intros Habs;
         rewrite (evaluateCondition_throws (with_operator _ condition) context e E)
           in Habs; discriminate. }
  rewrite (evaluateCondition_numeric condition context actual (js "gt")
             (fun a v => PrimFloat.ltb v a) E) by (simpl; tauto).
  rewrite (evaluateCondition_numeric condition context actual (js "gte")
             (fun a v => PrimFloat.leb v a) E) by (simpl; tauto).
  rewrite (evaluateCondition_numeric condition context actual (js "lt")
             (fun a v => PrimFloat.ltb a v) E) by (simpl; tauto).
  rewrite (evaluateCondition_numeric condition context actual (js "lte")
             (fun a v => PrimFloat.leb a v) E) by (simpl; tauto).
  unfold compare_numbers.
  destruct (toNumber actual) as [x |], (toNumber (value condition)) as [y |];
    try (split; discriminate).
  split; intros [= Hlt].
  - now rewrite (ltb_leb _ _ Hlt), (ltb_not_ltb _ _ Hlt), (ltb_not_leb _ _ Hlt).
  - now rewrite (ltb_leb _ _ Hlt), (ltb_not_ltb _ _ Hlt), (ltb_not_leb _ _ Hlt).
Qed.

Lemma every_true_iff {A} (f : A -> completion bool) l :
  every f l = Normal true <-> Forall (fun x => f x = Normal true) l.
Proof.
  induction l as [| x rest IH]; simpl.
  - split; [constructor | reflexivity].
  - destruct (f x) as [[|] | e] eqn:E; simpl.
    + rewrite IH. split.
      * intros Hrest. now constructor.
      * intros Hall. now inversion Hall.
    + split; [discriminate |]. intros Hall. inversion Hall. congruence.
    + split; [discriminate |]. intros Hall. inversion Hall. congruence.
Qed.

Lemma evaluateConditions_true_iff conditions context :
  evaluateConditions (Some conditions) context = Normal true <->
  Forall (fun c => evaluateCondition c context = Normal true) conditions.
Proof.
  destruct conditions as [| c rest].
  - simpl. split; [constructor | reflexivity].
  - apply (every_true_iff (fun c => evaluateCondition c context)).
Qed.

Lemma evaluateConditions_returns cs context :
  Forall (fun c => exists b, evaluateCondition c context = Normal b) cs ->
  exists b, evaluateConditions (Some cs) context = Normal b.
Proof.
  intros Hall. destruct cs as [| c rest]; [now exists true |].
  apply (every_total (fun c => evaluateCondition c context)), Hall.
Qed.

(** Two lists of conditions that all return, and hold together or not at
    all, give the same result. *)
Lemma evaluateConditions_same cs cs' context :
  Forall (fun c => exists b, evaluateCondition c context = Normal b) cs ->
  Forall (fun c => exists b, evaluateCondition c context = Normal b) cs' ->
  (Forall (fun c => evaluateCondition c context = Normal true) cs <->
   Forall (fun c => evaluateCondition c context = Normal true) cs') ->
  evaluateConditions (Some cs') context = evaluateConditions (Some cs) context.
Proof.
  intros Hr Hr' Hiff. rewrite <- !evaluateConditions_true_iff in Hiff.
  destruct (evaluateConditions_returns cs context Hr) as [b E].
  destruct (evaluateConditions_returns cs' context Hr') as [b' E'].
  rewrite E, E' in *. destruct b, b'; try reflexivity.
  - destruct Hiff as [Hiff _]. now rewrite Hiff.
  - destruct Hiff as [_ Hiff]. now rewrite <- Hiff.
Qed.

(** X3. The conditions of a rule are a conjunction: [evaluateConditions]
    returns true exactly when every condition evaluates to true.  So
    whether the conditions hold depends neither on their order nor on
    their repetition, and when every condition returns, the whole result
    does not depend on them either (a condition that throws ends the call
    when it is reached, which the order decides); and the conditions of
    two lists put together hold exactly when both lists hold. *)
Theorem conditions_conjunction (conditions : list Condition) (context : Context) :
  (evaluateConditions (Some conditions) context = Normal true <->
   Forall (fun c => evaluateCondition c context = Normal true) conditions) /\
  (forall conditions',
     (forall c, In c conditions <-> In c conditions') ->
     (evaluateConditions (Some conditions') context = Normal true <->
      evaluateConditions (Some conditions) context = Normal true) /\
     (Forall (fun c => exists b, evaluateCondition c context = Normal b)
             conditions ->
      evaluateConditions (Some conditions') context =
      evaluateConditions (Some conditions) context)) /\
  (forall more,
     evaluateConditions (Some (conditions ++ more)) context = Normal true <->
     evaluateConditions (Some conditions) context = Normal true /\
     evaluateConditions (Some more) context = Normal true).
Proof.
  split; [apply evaluateConditions_true_iff |]. split.
  - intros cs' Hsame.
    assert (forall P : Condition -> Prop,
              Forall P conditions <-> Forall P cs') as Hall.
    { intros P. rewrite !List.Forall_forall.
      split; intros Hall c Hc; apply Hall, Hsame, Hc. }
    split.
    + rewrite !evaluateConditions_true_iff. symmetry. apply Hall.
    + intros Hr. apply evaluateConditions_same;
        [exact Hr | now apply Hall | apply Hall].
  - intros more. rewrite !evaluateConditions_true_iff. apply Forall_app.
Qed.

Lemma some_true_iff {A} (f : A -> completion bool) l :
  some f l = Normal true <->
  exists pre x post, l = pre ++ x :: post /\ f x = Normal true /\
                     Forall (fun y => f y = Normal false) pre.
Proof.
  induction l as [| x rest IH]; simpl.
  - split; [discriminate |]. intros (pre & y & post & E & _).
    destruct pre; discriminate.
  - destruct (f x) as [[|] | e] eqn:E; simpl.
    + split; [| reflexivity]. intros _. exists [], x, rest. auto.
    + rewrite IH. split.
      * intros (pre & y & post & -> & Hy & Hpre).
        exists (x :: pre), y, post. auto.
      * intros (pre & y & post & El & Hy & Hpre).
        destruct pre as [| x' pre]; simpl in El; injection El as <- ->;
          [congruence |].
        inversion Hpre; subst. exists pre, y, post. auto.
    + split; [discriminate |].
      intros (pre & y & post & El & Hy & Hpre).
      destruct pre as [| x' pre]; simpl in El; injection El as <- ->;
        [congruence |].
      inversion Hpre; subst. congruence.
Qed.

(** X4. [in] is [eq] tried on the elements of its list in turn: on any
    context, present attribute or not, an [in] condition matches exactly
    when the [eq] condition on one element matches and the [eq] conditions
    on the elements before it return without matching (the call throws
    where one of them throws). *)
Theorem in_operator_some_eq
    (context : Context) (attr : jsstring) (l : nat) (elems : list jsval) :
  let eq_on v := evaluateCondition
                   {| attribute := attr; operator := js "eq"; value := v |}
                   context in
  evaluateCondition
    {| attribute := attr; operator := js "in"; value := VArray l elems |}
    context = Normal true <->
  exists before v after,
    elems = before ++ v :: after /\
    eq_on v = Normal true /\
    Forall (fun u => eq_on u = Normal false) before.
Proof.
  cbv zeta.
  destruct (getAttributeValue context attr) as [actual | e] eqn:E.
  2: { rewrite (evaluateCondition_throws
                  {| attribute := attr; operator := js "in";
                     value := VArray l elems |} context e E).
       split; [discriminate |]. intros (pre & v & post & _ & Hv & _).
       rewrite (evaluateCondition_throws
                  {| attribute := attr; operator := js "eq"; value := v |}
                  context e E) in Hv.
       discriminate. }
  assert (forall v, evaluateCondition
                      {| attribute := attr; operator := js "eq"; value := v |}
                      context =
                    if strict_equals actual VUndefined then Normal false
                    else areEqual actual v) as Heq.
  { intros v. unfold evaluateCondition. cbv zeta. simpl. rewrite E. simpl.
    now destruct (strict_equals actual VUndefined). }
  assert (evaluateCondition
            {| attribute := attr; operator := js "in"; value := VArray l elems |}
            context =
          if strict_equals actual VUndefined then Normal false
          else some (fun v => areEqual actual (Data v)) elems) as ->.
  { unfold evaluateCondition. cbv zeta. simpl. rewrite E. simpl.
    now destruct (strict_equals actual VUndefined). }
  destruct (strict_equals actual VUndefined) eqn:Hu.
  - split; [discriminate |]. intros (pre & v & post & _ & Hv & _).
    rewrite Heq in Hv. discriminate.
  - rewrite some_true_iff. split.
    + intros (pre & v & post & -> & Hv & Hpre). exists pre, v, post.
      split; [reflexivity |]. split; [now rewrite Heq |].
      eapply List.Forall_impl; [| exact Hpre]. intros u Hu'. now rewrite Heq.
    + intros (pre & v & post & -> & Hv & Hpre). exists pre, v, post.
      split; [reflexivity |]. split; [now rewrite Heq in Hv |].
      eapply List.Forall_impl; [| exact Hpre]. intros u Hu'. cbv beta in Hu'. now rewrite Heq in Hu'.
Qed.

(** X5. On a string attribute and a string comparison value, [contains]
    matches exactly when the value occurs in the attribute as a contiguous
    piece; so the empty string is contained in every string attribute. *)
Theorem contains_substring
    (condition : Condition) (context : Context) (haystack needle : jsstring) :
  getAttributeValue context (attribute condition)
    = Normal (Data (VString haystack)) ->
  operator condition = js "contains" ->
  value condition = VString needle ->
  (evaluateCondition condition context = Normal true <->
   exists before after, haystack = before ++ needle ++ after) /\
  (needle = [] -> evaluateCondition condition context = Normal true).
Proof.
  intros E Hop Hv.
  assert (evaluateCondition condition context = Normal (includes haystack needle))
    as ->.
  { unfold evaluateCondition. cbv zeta. rewrite E, Hop, Hv. simpl.
    apply contains_strings. }
  split.
  - rewrite <- includes_iff. split; congruence.
  - intros ->. f_equal. apply includes_iff. exists [], haystack. reflexivity.
Qed.

(** X6. A path [k.rest] that is neither a key of the attributes nor a
    name they inherit, [k] holding no dot and being a key, resolves inside
    the value of [k]: when no segment of [rest] is an inherited name, the
    result is the walk of the segments of [rest] from that value.  Every
    segment walked is free of dots, so below the top level a key that
    holds a dot is never read: when the first segment of [rest] is no key
    of the nested object the result is [undefined], whatever other keys it
    has. *)
Theorem nested_attribute_resolution
    (context : Context) (l : nat) (props : gmap jsstring jsval)
    (k rest : jsstring) (v : jsval) :
  attributes context = VObject l props ->
  ~ In 46%N k ->
  props !! (k ++ 46%N :: rest) = None ->
  not_inherited (k ++ 46%N :: rest) ->
  props !! k = Some v ->
  Forall not_inherited (split 46%N rest) ->
  getAttributeValue context (k ++ 46%N :: rest) =
    Normal (Data (path_walk v (split 46%N rest))) /\
  Forall (fun seg => ~ In 46%N seg) (split 46%N rest) /\
  (forall l' props' seg segs,
     v = VObject l' props' -> split 46%N rest = seg :: segs ->
     props' !! seg = None ->
     getAttributeValue context (k ++ 46%N :: rest) = Normal (Data VUndefined)).
Proof.
  intros Ha Hk Hfull Hplain Hkey Hsegs.
  assert (getAttributeValue context (k ++ 46%N :: rest) =
          Normal (Data (path_walk v (split 46%N rest)))) as E.
  { rewrite (getAttributeValue_split context _ (OPlain l props)).
    - rewrite (split_segment _ _ _ Hk), Ha. cbn [getAttributeValue_loop].
      cbn [as_object truthy typeof type_tag_eqb andb].
      rewrite (has_property_true _ k (Data v))
        by (apply get_property_own; exact Hkey).
      unfold js_get. rewrite (get_property_own _ _ v) by exact Hkey.
      cbn [default from_option]. unfold id.
      now rewrite getAttributeValue_loop_walk by exact Hsegs.
    - now rewrite Ha.
    - rewrite get_property_not_inherited by exact Hplain.
      simpl. now rewrite Hfull. }
  split; [exact E |]. split; [apply split_segments_free |].
  intros l' props' seg segs -> Hsplit Hseg. rewrite E, Hsplit. simpl.
  now rewrite Hseg.
Qed.

End WithBuiltins.

End ConditionAlgebra.

(** ** Rules, rollout and results *)

Module EvaluatorAlgebra.
Import Values Types Conditions Evaluator Variations.
Import RolloutFacts ConditionFacts EvaluatorFacts FloatFacts ConditionAlgebra.

Lemma bucket_range userId flagKey :
  0 <= Rollout.computeRolloutBucket userId flagKey <= 100.
Proof.
  unfold Rollout.computeRolloutBucket. cbv zeta.
  pose proof (simpleHash_nonneg (userId ++ js ":" ++ flagKey)) as Hn.
  pose proof (Z.rem_bound_pos _ 101 Hn ltac:(lia)). lia.
Qed.

Lemma in_all_buckets b : 0 <= b <= 100 -> In b all_buckets.
Proof.
  intros Hb. unfold all_buckets. apply in_map_iff. exists (Z.to_nat b).
  split; [lia |]. apply in_seq. lia.
Qed.

(** A boolean fact checked on the 101 buckets holds of every bucket. *)
Lemma bucket_enum (P : Z -> bool) :
  forallb P all_buckets = true -> forall b, 0 <= b <= 100 -> P b = true.
Proof.
  intros Hall b Hb. rewrite forallb_forall in Hall. apply Hall, in_all_buckets, Hb.
Qed.

Lemma leb_buckets b p :
  0 <= b <= 100 -> 0 <= p <= 100 ->
  PrimFloat.leb (number_of_Z b) (number_of_Z p) = (b <=? p).
Proof.
  intros Hb Hp.
  assert (forallb (fun b => forallb (fun p =>
            Bool.eqb (PrimFloat.leb (number_of_Z b) (number_of_Z p)) (b <=? p))
            all_buckets) all_buckets = true) as Hall by (vm_compute; reflexivity).
  pose proof (bucket_enum _ Hall b Hb) as Hrow. cbv beta in Hrow.
  pose proof (bucket_enum _ Hrow p Hp) as Hcell. cbv beta in Hcell.
  now apply eqb_prop in Hcell.
Qed.

Lemma ltb_bucket_100 p :
  0 <= p <= 100 -> PrimFloat.ltb (number_of_Z p) 100 = (p <? 100).
Proof.
  intros Hp.
  assert (forallb (fun p =>
            Bool.eqb (PrimFloat.ltb (number_of_Z p) 100) (p <? 100))
            all_buckets = true) as Hall by (vm_compute; reflexivity).
  pose proof (bucket_enum _ Hall p Hp) as Hcell. cbv beta in Hcell.
  now apply eqb_prop in Hcell.
Qed.

Lemma leb_zero_bucket b : 0 <= b <= 100 -> PrimFloat.leb 0 (number_of_Z b) = true.
Proof.
  intros Hb.
  assert (forallb (fun b => PrimFloat.leb 0 (number_of_Z b)) all_buckets = true)
    as Hall by (vm_compute; reflexivity).
  exact (bucket_enum _ Hall b Hb).
Qed.

Lemma no_userId_false context :
  no_userId context = false <-> exists u, userId context = Some u /\ u <> [].
Proof.
  split.
  - intros Hn. destruct (userId context) as [u |] eqn:Eu.
    + exists u. split; [reflexivity |]. intros ->.
      assert (no_userId context = true) as Ht
        by (apply no_userId_spec; right; exact Eu).
      congruence.
    + assert (no_userId context = true) as Ht by (apply no_userId_spec; now left).
      congruence.
  - intros (u & Eu & Hne). destruct (no_userId context) eqn:Hn; [| reflexivity].
    apply no_userId_spec in Hn. destruct Hn; congruence.
Qed.

Section WithBuiltins.
Context `{Builtins}.

(** What a rule that matched reports. *)
Lemma evaluateRule_matched_shape this rule context flagKey ruleResult :
  evaluateRule this rule context flagKey = Normal ruleResult ->
  matched ruleResult = true ->
  evaluateConditions (Some (default [] (conditions rule))) context = Normal true /\
  ((rule_reason ruleResult = reason_rule_match /\ rule_bucket ruleResult = None /\
    (percentage rule = None \/
     exists p, percentage rule = Some p /\ PrimFloat.ltb p 100 = false)) \/
   (rule_reason ruleResult = reason_rollout /\
    exists u p, userId context = Some u /\ u <> [] /\
      percentage rule = Some p /\ PrimFloat.ltb p 100 = true /\
      rule_bucket ruleResult = Some (Rollout.computeRolloutBucket u flagKey) /\
      PrimFloat.leb (number_of_Z (Rollout.computeRolloutBucket u flagKey)) p = true)).
Proof.
  unfold evaluateRule.
  destruct (evaluateConditions (Some (default [] (conditions rule))) context)
    as [b | e]; [| discriminate].
  simpl. destruct b; simpl; [| intros [= <-]; discriminate].
  destruct (percentage rule) as [p |].
  2: { intros [= <-] _. split; [reflexivity |]. left. auto. }
  destruct (PrimFloat.ltb p 100) eqn:Hlt.
  2: { intros [= <-] _. split; [reflexivity |]. left. eauto 6. }
  destruct (no_userId context) eqn:Hn; [intros [= <-]; discriminate |].
  apply no_userId_false in Hn as (u & Eu & Hne). rewrite Eu. simpl.
  destruct (PrimFloat.leb _ p) eqn:Hle; intros [= <-]; [| discriminate].
  intros _. split; [reflexivity |]. right. split; [reflexivity |].
  exists u, p. auto 7.
Qed.

(** X7. The bucket depends on the two strings only through their
    concatenation around a colon: moving a piece that ends at a colon from
    the flag key to the user id, or back, gives the same bucket. *)
Theorem bucket_of_joined_strings (userId piece flagKey : jsstring) :
  Rollout.computeRolloutBucket (userId ++ js ":" ++ piece) flagKey =
  Rollout.computeRolloutBucket userId (piece ++ js ":" ++ flagKey) /\
  (forall userId' flagKey',
     userId' ++ js ":" ++ flagKey' = userId ++ js ":" ++ flagKey ->
     Rollout.computeRolloutBucket userId' flagKey' =
     Rollout.computeRolloutBucket userId flagKey).
Proof.
  split.
  - unfold Rollout.computeRolloutBucket. cbv zeta. now rewrite <- !app_assoc.
  - intros u' f' E. unfold Rollout.computeRolloutBucket. cbv zeta. now rewrite E.
Qed.

(** X8. Raising the percentage of a rule never loses a user: a rule that
    matches a context under percentage [p] still matches it under any
    percentage [p'] with [p <= p'], and when its percentage is removed. *)
Theorem rollout_percentage_monotone
    (this : Evaluator) (rule : Rule) (context : Context) (flagKey : jsstring)
    (p p' : float) (ruleResult : RuleResult) :
  percentage rule = Some p ->
  PrimFloat.leb p p' = true ->
  evaluateRule this rule context flagKey = Normal ruleResult ->
  matched ruleResult = true ->
  (exists ruleResult',
     evaluateRule this (with_percentage (Some p') rule) context flagKey =
       Normal ruleResult' /\ matched ruleResult' = true) /\
  (exists ruleResult',
     evaluateRule this (with_percentage None rule) context flagKey =
       Normal ruleResult' /\ matched ruleResult' = true).
Proof.
  intros Hp Hle He Hm.
  destruct (evaluateRule_matched_shape _ _ _ _ _ He Hm) as [Hc Hshape].
  unfold evaluateRule. cbn [with_percentage conditions percentage]. rewrite Hc. simpl.
  split; [| eauto].
  destruct (PrimFloat.ltb p' 100) eqn:Hlt'; [| eauto].
  destruct Hshape as [(_ & _ & [Hnone | (q & Hq & Hlt)])
                     | (_ & u & q & Eu & Hne & Hq & Hlt & _ & Hb)].
  - congruence.
  - assert (q = p) as -> by congruence.
    assert (PrimFloat.leb 100 100 = true) as H100 by (vm_compute; reflexivity).
    pose proof (not_ltb_leb p 100 p' Hle H100 Hlt) as Hge.
    pose proof (at_least_100_not_below p' (leb_trans _ _ _ Hge Hle)). congruence.
  - assert (q = p) as -> by congruence.
    assert (no_userId context = false) as -> by (apply no_userId_false; eauto).
    rewrite Eu. simpl. rewrite (leb_trans _ _ _ Hb Hle). eauto.
Qed.

(** X9. Under a whole percentage [p] from 0 to 99, a rule whose conditions
    hold admits exactly the users whose bucket is at most [p]: [p + 1] of
    the 101 buckets.  So percentage 0 still admits the users of bucket 0,
    and a percentage below zero admits nobody. *)
Theorem whole_percentage_buckets
    (this : Evaluator) (rule : Rule) (context : Context) (flagKey : jsstring)
    (u : jsstring) :
  evaluateConditions (Some (default [] (conditions rule))) context = Normal true ->
  userId context = Some u -> u <> [] ->
  (forall p, 0 <= p <= 99 -> percentage rule = Some (number_of_Z p) ->
     evaluateRule this rule context flagKey =
     Normal {| matched := (Rollout.computeRolloutBucket u flagKey <=? p);
               rule_reason := if (Rollout.computeRolloutBucket u flagKey <=? p)
                              then reason_rollout else reason_rollout_excluded;
               rule_bucket := Some (Rollout.computeRolloutBucket u flagKey) |}) /\
  (forall q, percentage rule = Some q -> PrimFloat.ltb q 0 = true ->
     evaluateRule this rule context flagKey =
     Normal (excluded (Some (Rollout.computeRolloutBucket u flagKey)))).
Proof.
  intros Hc Eu Hne.
  assert (no_userId context = false) as Hn by (apply no_userId_false; eauto).
  pose proof (bucket_range u flagKey) as Hb.
  split.
  - intros p Hp Hperc. unfold evaluateRule. rewrite Hc, Hperc. simpl.
    rewrite ltb_bucket_100 by lia.
    assert ((p <? 100) = true) as -> by (apply Z.ltb_lt; lia).
    rewrite Hn, Eu. simpl. rewrite leb_buckets by lia.
    now destruct (Rollout.computeRolloutBucket u flagKey <=? p).
  - intros q Hperc Hneg. unfold evaluateRule. rewrite Hc, Hperc. simpl.
    assert (PrimFloat.leb q 100 = true) as Hq100.
    { apply (leb_trans q 0 100); [now apply ltb_leb | vm_compute; reflexivity]. }
    assert (PrimFloat.ltb q 100 = true) as ->.
    { destruct (PrimFloat.ltb q 100) eqn:Hlt; [reflexivity |].
      assert (PrimFloat.leb 100 100 = true) as H100 by (vm_compute; reflexivity).
      pose proof (not_ltb_leb q 100 100 Hq100 H100 Hlt) as Hge.
      assert (PrimFloat.leb 100 0 = true) as Habs
        by (apply (leb_trans 100 q 0); [exact Hge | now apply ltb_leb]).
      vm_compute in Habs. discriminate. }
    rewrite Hn, Eu. simpl.
    destruct (PrimFloat.leb (number_of_Z (Rollout.computeRolloutBucket u flagKey)) q)
      eqn:Hle; [| reflexivity].
    pose proof (leb_trans _ _ _ (leb_zero_bucket _ Hb) Hle) as H0q.
    pose proof (ltb_not_leb _ _ Hneg). congruence.
Qed.

(** The bucket and the rule index of a result without metadata, or of an
    unknown flag. *)
Lemma plain_result_metadata {T} (r : EvaluationResult T) (context : Context)
    (this : Evaluator) (flagKey : jsstring) :
  result_bucket r = None -> result_ruleIndex r = None ->
  reason r = reason_default \/ reason r = reason_flag_not_found ->
  (reason r = reason_rollout <-> is_Some (result_bucket r)) /\
  (forall b, result_bucket r = Some b ->
     0 <= b <= 100 /\
     exists u, userId context = Some u /\ u <> [] /\
               b = Rollout.computeRolloutBucket u flagKey) /\
  (reason r = reason_rule_match \/ reason r = reason_rollout <->
   is_Some (result_ruleIndex r)) /\
  (forall i, result_ruleIndex r = Some i ->
     exists flag rules_ rule,
       config this !! flagKey = Some (FlagEntry flag) /\
       rules flag = Some rules_ /\ rules_ !! i = Some rule).
Proof.
  intros -> -> Hr.
  split; [split; [destruct Hr; congruence | intros [? ?]; discriminate] |].
  split; [intros b; discriminate |].
  split; [split; [destruct Hr; intros [? | ?]; congruence
                 | intros [? ?]; discriminate] |].
  intros i; discriminate.
Qed.

(** X10. In a result of [evalBool], a bucket is recorded exactly when the
    reason is [rollout]; it is then the bucket of the user id of the context
    for the flag key, a number from 0 to 100.  A rule index is recorded
    exactly when the reason is [rule_match] or [rollout], and it is the
    index of a rule of the flag.  And [evalBool] returns such a result on
    every context whose attributes are an object, when no object among the
    attributes or in the flag has a property [toString] of its own. *)
Theorem result_metadata
    (this : Evaluator) (flagKey : jsstring) (context : Context) :
  (forall r, evalBool this flagKey context = Normal r ->
    (reason r = reason_rollout <-> is_Some (result_bucket r)) /\
    (forall b, result_bucket r = Some b ->
       0 <= b <= 100 /\
       exists u, userId context = Some u /\ u <> [] /\
                 b = Rollout.computeRolloutBucket u flagKey) /\
    (reason r = reason_rule_match \/ reason r = reason_rollout <->
     is_Some (result_ruleIndex r)) /\
    (forall i, result_ruleIndex r = Some i ->
       exists flag rules_ rule,
         config this !! flagKey = Some (FlagEntry flag) /\
         rules flag = Some rules_ /\ rules_ !! i = Some rule)) /\
  (is_Some (as_object (attributes context)) ->
   convertible (attributes context) ->
   (forall flag, config this !! flagKey = Some (FlagEntry flag) ->
                 convertible_flag flag) ->
   exists r, evalBool this flagKey context = Normal r).
Proof.
  split.
  2: { intros Ho Hc Hflag.
       destruct (evaluation_outcome this flagKey context Ho Hc Hflag)
         as (rb & _ & Eb & _).
       eauto. }
  intros r E.
  destruct (evalBool_returns this flagKey context r E)
    as [[_ ->] | [[_ ->] | (flag & Hc & [[_ ->] | Hmatched])]];
    try (apply plain_result_metadata; [reflexivity | reflexivity | auto]).
  destruct Hmatched as (pre & rule & post & rr & Hr & Hpre & He & Hm & ->).
  assert (exists flag0 rules_ rule0,
            config this !! flagKey = Some (FlagEntry flag0) /\
            rules flag0 = Some rules_ /\
            rules_ !! length pre = Some rule0) as Hindex.
  { exists flag, (pre ++ rule :: post), rule.
    split; [exact Hc |]. split; [exact Hr |]. now apply list_lookup_middle. }
  unfold result_bucket, result_ruleIndex, matched_result. simpl.
  destruct (evaluateRule_matched_shape _ _ _ _ _ He Hm)
    as [_ [(Hreason & Hbucket & _)
          | (Hreason & u & p & Eu & Hne & _ & _ & Hbucket & _)]];
    rewrite Hreason, Hbucket.
  - split; [split; [discriminate | intros [? ?]; discriminate] |].
    split; [intros b; discriminate |].
    split; [split; eauto |]. intros i [= <-]. exact Hindex.
  - split; [split; eauto |].
    split; [intros b [= <-]; split; [apply bucket_range | eauto] |].
    split; [split; eauto |]. intros i [= <-]. exact Hindex.
Qed.

Lemma hasFlag_false this flagKey :
  hasFlag this flagKey = false <-> config_lookup this flagKey = Missing.
Proof.
  unfold hasFlag. destruct (config_lookup this flagKey); split; congruence.
Qed.

Lemma config_lookup_falsy this flagKey :
  config_lookup this flagKey = Own FalsyEntry <->
  config this !! flagKey = Some FalsyEntry.
Proof.
  unfold config_lookup. destruct (config this !! flagKey) as [e |].
  - split; congruence.
  - destruct (object_prototype_property _ flagKey); split; discriminate.
Qed.

(** X11. On the same key and context [evalBool] and [evalVariant] take the
    same path: when [evalVariant] returns so does [evalBool], and two
    results they return carry the same reason and the same metadata.  The
    reason is [flag_not_found] exactly when the value under the key is
    falsy: when [hasFlag] answers false, and also when the configuration
    holds a falsy entry, [null] say, under the key, for which [hasFlag]
    answers true. *)
Theorem evalBool_evalVariant_agree
    (this : Evaluator) (flagKey : jsstring) (context : Context) :
  (forall rv, evalVariant this flagKey context = Normal rv ->
     exists rb, evalBool this flagKey context = Normal rb) /\
  (forall rb rv,
     evalBool this flagKey context = Normal rb ->
     evalVariant this flagKey context = Normal rv ->
     reason rb = reason rv /\ metadata rb = metadata rv /\
     (reason rb = reason_flag_not_found <->
      hasFlag this flagKey = false \/
      config this !! flagKey = Some FalsyEntry)) /\
  (config this !! flagKey = Some FalsyEntry ->
   hasFlag this flagKey = true /\
   evalBool this flagKey context =
     Normal {| result_value := false; reason := reason_flag_not_found;
               metadata := Some {| ruleIndex := None; bucket := None;
                                   error := Some (not_found_message flagKey) |} |} /\
   evalVariant this flagKey context =
     Normal {| result_value := js "default"; reason := reason_flag_not_found;
               metadata := Some {| ruleIndex := None; bucket := None;
                                   error := Some (not_found_message flagKey) |} |}).
Proof.
  split; [| split].
  - intros rv Ev.
    destruct (evalVariant_returns this flagKey context rv Ev)
      as [[Hl _] | [[[b Hl] _] | (flag & Hc & [[Hall _] | Hmatched])]].
    + destruct (missing_flag_results this flagKey context Hl) as [-> _]. eauto.
    + destruct (inherited_flag_results this flagKey context b Hl) as [-> _].
      eauto.
    + rewrite (evalBool_unmatched _ _ _ _ Hc Hall). eauto.
    + destruct Hmatched as (pre & rule & post & rr & v & Hr & Hpre & He & Hm & _).
      rewrite (evalBool_matched _ _ _ _ _ _ _ _ Hc Hr Hpre He Hm). eauto.
  - intros rb rv Eb Ev.
    destruct (evalVariant_returns this flagKey context rv Ev)
      as [[Hl ->] | [[[b Hl] ->] | (flag & Hc & [[Hall (t & _ & ->)] | Hmatched])]].
    + destruct (missing_flag_results this flagKey context Hl) as [Eb' _].
      rewrite Eb' in Eb. injection Eb as <-.
      split; [reflexivity |]. split; [reflexivity |].
      split; [| reflexivity]. intros _.
      destruct Hl as [Hl | Hl];
        [left; now apply hasFlag_false | right; now apply config_lookup_falsy].
    + destruct (inherited_flag_results this flagKey context b Hl) as [Eb' _].
      rewrite Eb' in Eb. injection Eb as <-.
      split; [reflexivity |]. split; [reflexivity |].
      split; [discriminate |].
      intros [Hh | Hf].
      * apply hasFlag_false in Hh. congruence.
      * apply config_lookup_falsy in Hf. congruence.
    + rewrite (evalBool_unmatched _ _ _ _ Hc Hall) in Eb. injection Eb as <-.
      split; [reflexivity |]. split; [reflexivity |].
      split; [discriminate |].
      pose proof (config_lookup_own _ _ _ Hc) as Hl.
      intros [Hh | Hf].
      * apply hasFlag_false in Hh. congruence.
      * congruence.
    + destruct Hmatched
        as (pre & rule & post & rr & v & Hr & Hpre & He & Hm & _ & ->).
      rewrite (evalBool_matched _ _ _ _ _ _ _ _ Hc Hr Hpre He Hm) in Eb.
      injection Eb as <-.
      split; [reflexivity |]. split; [reflexivity |].
      pose proof (config_lookup_own _ _ _ Hc) as Hl.
      split.
      * simpl. destruct (evaluateRule_matched_reason _ _ _ _ _ He Hm)
          as [-> | ->]; discriminate.
      * intros [Hh | Hf].
        -- apply hasFlag_false in Hh. congruence.
        -- congruence.
  - intros Hf.
    pose proof (config_lookup_own _ _ _ Hf) as Hl.
    split; [unfold hasFlag; now rewrite Hl |].
    apply missing_flag_results. now right.
Qed.


Lemma evaluateConditions_with_userId conditions u context :
  evaluateConditions conditions (with_userId u context) =
  evaluateConditions conditions context.
Proof. reflexivity. Qed.

Lemma evaluateRule_with_userId this rule u context flagKey :
  (percentage rule = None \/
   exists p, percentage rule = Some p /\ PrimFloat.ltb p 100 = false) ->
  evaluateRule this rule (with_userId u context) flagKey =
  evaluateRule this rule context flagKey.
Proof.
  intros Hp. unfold evaluateRule. rewrite evaluateConditions_with_userId.
  destruct (evaluateConditions _ context) as [[|] | e]; simpl; try reflexivity.
  destruct Hp as [-> | (p & -> & ->)]; reflexivity.
Qed.

Lemma rules_loop_with_userId {T} this (on_match : Rule -> completion T) u context
    flagKey rules :
  Forall (fun rule => percentage rule = None \/
            exists p, percentage rule = Some p /\ PrimFloat.ltb p 100 = false)
         rules ->
  forall i, rules_loop this on_match rules i (with_userId u context) flagKey =
            rules_loop this on_match rules i context flagKey.
Proof.
  induction 1 as [| rule rest Hrule Hrest IH]; intros i; [reflexivity |].
  cbn [rules_loop]. rewrite (evaluateRule_with_userId _ _ _ _ _ Hrule).
  destruct (evaluateRule this rule context flagKey) as [rr | e]; simpl;
    [| reflexivity].
  destruct (matched rr); [reflexivity | apply IH].
Qed.

(** X13. The user id of the context is read for rollout only: when no rule
    of the flag has a percentage below 100, [evalBool] and [evalVariant]
    return the same result for every user id, and for none. *)
Theorem userId_only_for_rollout
    (this : Evaluator) (flagKey : jsstring) (context : Context)
    (u : option jsstring) :
  (forall flag rules_ rule,
     config this !! flagKey = Some (FlagEntry flag) -> rules flag = Some rules_ ->
     In rule rules_ ->
     percentage rule = None \/
     exists p, percentage rule = Some p /\ PrimFloat.ltb p 100 = false) ->
  evalBool this flagKey (with_userId u context) = evalBool this flagKey context /\
  evalVariant this flagKey (with_userId u context) =
  evalVariant this flagKey context.
Proof.
  intros Hrules. unfold evalBool, evalVariant.
  destruct (config_lookup this flagKey) as [[flag |] | b |] eqn:Hl;
    try (split; reflexivity).
  assert (config this !! flagKey = Some (FlagEntry flag)) as Hc.
  { unfold config_lookup in Hl. destruct (config this !! flagKey) as [e |];
      [congruence |].
    destruct (object_prototype_property _ flagKey); discriminate. }
  destruct (rules flag) as [rs |] eqn:Hr; [| split; reflexivity].
  destruct (0 <? length rs)%nat; [| split; reflexivity].
  assert (Forall (fun rule => percentage rule = None \/
            exists p, percentage rule = Some p /\ PrimFloat.ltb p 100 = false) rs)
    as Hall.
  { apply List.Forall_forall. intros rule Hin. eapply Hrules; eauto. }
  now rewrite !(rules_loop_with_userId _ _ _ _ _ _ Hall).
Qed.

End WithBuiltins.

End EvaluatorAlgebra.

(** * Properties of the web client, the fetcher and the API *)

Module WebClientFacts.
Import Values Types Conditions Evaluator Errors WebClient.
Import ConditionFacts EvaluatorFacts EvaluatorAlgebra.

Lemma indexOf_None ls l : indexOf ls l = None <-> ~ In l ls.
Proof.
  induction ls as [| x rest IH]; simpl; [tauto |].
  destruct (Nat.eqb_spec x l) as [-> | Hne].
  - split; [discriminate | intros Hn; destruct Hn; now left].
  - destruct (indexOf rest l) as [i |]; simpl.
    + split; [discriminate |]. intros Hn.
      assert (~ In l rest) as Hr by tauto. apply IH in Hr. discriminate.
    + split; [| reflexivity]. intros _ [? | Hin]; [congruence |].
      now apply (proj1 IH).
Qed.

(** [indexOf] finds the first occurrence, and [splice] takes it out. *)
Lemma indexOf_Some ls l index :
  indexOf ls l = Some index ->
  exists before after,
    ls = before ++ l :: after /\ ~ In l before /\
    splice_one index ls = before ++ after.
Proof.
  revert index. induction ls as [| x rest IH]; intros index; simpl; [discriminate |].
  destruct (Nat.eqb_spec x l) as [-> | Hne].
  - intros [= <-]. exists [], rest. repeat split. intros [].
  - destruct (indexOf rest l) as [i |] eqn:Ei; simpl; [| discriminate].
    intros [= <-].
    destruct (IH i eq_refl) as (before & after & -> & Hfresh & Hsplice).
    exists (x :: before), after. split; [reflexivity |].
    split; [intros [? | ?]; [congruence | contradiction] |].
    unfold splice_one in *. simpl. now rewrite Hsplice.
Qed.

Lemma set_listeners_same this : set_listeners (listeners this) this = this.
Proof. now destruct this. Qed.

(** X14. After [close] the client is not ready, has no listener and no
    timer, and [getBool], [getVariant], [updateConfig] and [refresh] throw
    "Client is closed"; the timer [close] clears is the one the client had;
    closing again changes nothing and clears nothing; [getConfig] and
    [hasFlag] still answer from the last configuration. *)
Theorem closed_client `{Builtins} (this : WebFlagClient) :
  let closed := fst (close this) in
  snd (close this) = refreshTimer this /\
  isReady closed = false /\ listeners closed = [] /\ refreshTimer closed = None /\
  (forall flagKey context,
     getBool closed flagKey context = Raised (Error (js "Client is closed")) /\
     getVariant closed flagKey context = Raised (Error (js "Client is closed"))) /\
  (forall config,
     updateConfig closed config = Raised (Error (js "Client is closed"))) /\
  refresh_request closed = Raised (Error (js "Client is closed")) /\
  close closed = (closed, None) /\
  getConfig closed = getConfig this /\
  (forall flagKey, hasFlag closed flagKey = hasFlag this flagKey).
Proof.
  cbv zeta. unfold close, isReady, getBool, getVariant, updateConfig,
    refresh_request, getConfig, hasFlag. simpl.
  rewrite andb_false_r. repeat split.
Qed.

Section WithBuiltins.
Context `{Builtins}.

(** The exceptions of an open client are those of the evaluator. *)
Lemma of_completion_raised {A} (c : completion A) e :
  of_completion c = Raised e -> e = Engine TypeError.
Proof. destruct c as [a | []]; [discriminate |]. now intros [= <-]. Qed.

(** X15. On [getBool] and [getVariant] an open client does what the core
    evaluator does on the configuration the client holds: it returns the
    result the evaluator returns and throws only where the evaluator
    throws, a [TypeError]; it returns on every context whose attributes
    are an object, when no object among the attributes or in the flag has
    a property [toString] of its own.  A client just constructed is open
    and ready, holds the configuration it was given, and has neither
    listener nor timer. *)
Theorem open_client_evaluates
    (this : WebFlagClient) (flagKey : jsstring) (context : Context) :
  (isClosed this = false ->
   getBool this flagKey context =
     of_completion (evalBool {| config := getConfig this |} flagKey context) /\
   getVariant this flagKey context =
     of_completion (evalVariant {| config := getConfig this |} flagKey context) /\
   (forall e, getBool this flagKey context = Raised e \/
              getVariant this flagKey context = Raised e ->
              e = Engine TypeError) /\
   (is_Some (as_object (attributes context)) ->
    convertible (attributes context) ->
    (forall flag, getConfig this !! flagKey = Some (FlagEntry flag) ->
                  convertible_flag flag) ->
    exists rb rv,
      getBool this flagKey context = Returned rb /\
      evalBool {| config := getConfig this |} flagKey context = Normal rb /\
      getVariant this flagKey context = Returned rv /\
      evalVariant {| config := getConfig this |} flagKey context = Normal rv)) /\
  (forall config o,
     let client := new_WebFlagClient config o in
     isClosed client = false /\ isReady client = true /\
     getConfig client = config /\ listeners client = [] /\
     refreshTimer client = None /\
     getBool client flagKey context =
       of_completion (evalBool {| Evaluator.config := config |} flagKey context)).
Proof.
  split.
  - intros Hopen. unfold getBool, getVariant, getConfig. rewrite Hopen.
    destruct (evaluator this) as [cfg]. unfold Evaluator.getConfig. simpl.
    split; [reflexivity |]. split; [reflexivity |]. split.
    + intros e [E | E]; exact (of_completion_raised _ _ E).
    + intros Ho Hc Hflag.
      destruct (evaluation_outcome {| config := cfg |} flagKey context Ho Hc Hflag)
        as (rb & rv & Eb & Ev).
      exists rb, rv. now rewrite Eb, Ev.
  - intros config o. cbv zeta. repeat split.
Qed.

(** X16. [updateConfig] on an open client replaces the whole configuration
    before it notifies the listeners: from then on [getConfig] returns the
    new one, [hasFlag] and [getBool] answer as the core evaluator does on
    the new one alone, and listeners, timer and readiness are as they were;
    what the update installs does not depend on the configuration held
    before, so that of two updates the second one decides. *)
Theorem updateConfig_replaces
    (this : WebFlagClient) (config : FlagConfig) :
  isClosed this = false ->
  exists updated,
    updateConfig this config = Returned updated /\
    getConfig updated = config /\
    (forall flagKey,
       hasFlag updated flagKey =
       Evaluator.hasFlag {| Evaluator.config := config |} flagKey) /\
    (forall flagKey context,
       getBool updated flagKey context =
       of_completion (evalBool {| Evaluator.config := config |} flagKey context)) /\
    listeners updated = listeners this /\
    refreshTimer updated = refreshTimer this /\
    isReady updated = isReady this /\
    (forall config',
       updateConfig updated config' = updateConfig this config').
Proof.
  intros Hopen. unfold updateConfig. rewrite Hopen.
  eexists. split; [reflexivity |].
  unfold getConfig, getBool, hasFlag, isReady. simpl. rewrite Hopen.
  repeat split.
Qed.

End WithBuiltins.

(** X17. The function [onConfigUpdate] returns takes out one registration
    of its listener, the oldest, and leaves every other listener in place:
    it undoes the subscription of a listener that was not registered
    before, and does nothing when the listener is not registered, as after
    [close]. *)
Theorem unsubscribe_removes_first (this : WebFlagClient) (l : nat) :
  (~ In l (listeners this) ->
   unsubscribe l (onConfigUpdate this l) = this /\ unsubscribe l this = this) /\
  (In l (listeners this) ->
   exists before after,
     listeners this = before ++ l :: after /\ ~ In l before /\
     listeners (unsubscribe l this) = before ++ after /\
     listeners (unsubscribe l (onConfigUpdate this l)) = before ++ after ++ [l]) /\
  unsubscribe l (fst (close this)) = fst (close this).
Proof.
  split; [| split].
  - intros Hfresh.
    assert (indexOf (listeners this) l = None) as Hnone by now apply indexOf_None.
    split.
    + unfold unsubscribe, onConfigUpdate. simpl.
      destruct (indexOf (listeners this ++ [l]) l) as [index |] eqn:Ei.
      * destruct (indexOf_Some _ _ _ Ei) as (before & after & Hsplit & Hb & Hs).
        rewrite Hs.
        assert (before = listeners this /\ after = []) as [-> ->].
        { clear Ei Hs Hnone. revert before Hsplit Hb.
          induction (listeners this) as [| x rest IH]; intros before Hsplit Hb.
          - destruct before as [| y before]; [now injection Hsplit as <- |].
            simpl in Hsplit. injection Hsplit as -> Hrest.
            destruct before; discriminate.
          - destruct before as [| y before].
            + simpl in Hsplit. injection Hsplit as -> _.
              destruct Hfresh. now left.
            + simpl in Hsplit. injection Hsplit as <- Hrest.
              destruct (IH ltac:(intros Hin; apply Hfresh; now right)
                          before Hrest
                          ltac:(intros Hin; apply Hb; now right)) as [-> ->].
              auto. }
        rewrite app_nil_r. destruct this; reflexivity.
      * apply indexOf_None in Ei. destruct Ei. apply in_or_app. right. now left.
    + unfold unsubscribe. now rewrite Hnone.
  - intros Hin.
    destruct (indexOf (listeners this) l) as [index |] eqn:Ei.
    2: { apply indexOf_None in Ei. contradiction. }
    destruct (indexOf_Some _ _ _ Ei) as (before & after & Hsplit & Hb & Hs).
    exists before, after. split; [exact Hsplit |]. split; [exact Hb |].
    split.
    + unfold unsubscribe. rewrite Ei. simpl. exact Hs.
    + unfold unsubscribe, onConfigUpdate. simpl.
      destruct (indexOf (listeners this ++ [l]) l) as [index' |] eqn:Ei'.
      2: { apply indexOf_None in Ei'. destruct Ei'. apply in_or_app. now left. }
      destruct (indexOf_Some _ _ _ Ei') as (before' & after' & Hsplit' & Hb' & Hs').
      simpl. rewrite Hs'. rewrite Hsplit in Hsplit'.
      rewrite <- app_assoc in Hsplit'. simpl in Hsplit'.
      assert (before' = before /\ after' = after ++ [l]) as [-> ->]; [| reflexivity].
      clear - Hsplit' Hb Hb'. revert before' Hsplit' Hb'.
      induction before as [| x before IH]; intros before' Hsplit' Hb'.
      * destruct before' as [| y before'].
        -- now injection Hsplit' as <-.
        -- simpl in Hsplit'. injection Hsplit' as <- _. destruct Hb'. now left.
      * destruct before' as [| y before'].
        -- simpl in Hsplit'. injection Hsplit' as -> _. destruct Hb. now left.
        -- simpl in Hsplit'. injection Hsplit' as <- Hrest.
           destruct (IH ltac:(intros Hin; apply Hb; now right) before' Hrest
                       ltac:(intros Hin; apply Hb'; now right)) as [-> ->].
           auto.
  - reflexivity.
Qed.

(** X18. [createFlagClient] with a bootstrap configuration returns at once
    a ready client that holds it; the client has a refresh timer exactly
    when the options give a URL and a key that are not empty and
    [enableRefresh] is true.  Without a bootstrap configuration it asks for
    the configuration when URL and key are both given and not empty, and
    throws otherwise. *)
Theorem createFlagClient_modes (o : Options.t) (handle : positive) :
  (forall bootstrap, Options.bootstrapConfig o = Some bootstrap ->
     exists client,
       createFlagClient o handle = Returned (Ready client) /\
       isReady client = true /\ getConfig client = bootstrap /\
       listeners client = [] /\
       refreshTimer client =
         (if negb (no_string (Options.apiUrl o))
             && negb (no_string (Options.apiKey o))
             && bool_decide (Options.enableRefresh o = Some true)
          then Some handle else None)) /\
  (Options.bootstrapConfig o = None ->
   (forall url key,
      Options.apiUrl o = Some url -> url <> [] ->
      Options.apiKey o = Some key -> key <> [] ->
      createFlagClient o handle =
      Returned (Fetching url key (Options.timeout o) (Options.fetchFn o))) /\
   (no_string (Options.apiUrl o) = true \/ no_string (Options.apiKey o) = true ->
    createFlagClient o handle =
    Raised (Error (js "Either bootstrapConfig or both apiUrl and apiKey must be provided")))).
Proof.
  split.
  - intros bootstrap Hb. unfold createFlagClient. rewrite Hb.
    destruct (no_string (Options.apiUrl o)) eqn:Hu; simpl.
    { eexists. split; [reflexivity |]. repeat split. }
    destruct (no_string (Options.apiKey o)) eqn:Hk; simpl.
    { eexists. split; [reflexivity |]. repeat split. }
    destruct (Options.enableRefresh o) as [[|] |] eqn:He; simpl.
    + eexists. split; [reflexivity |].
      unfold startRefresh. simpl. rewrite He, Hu, Hk. simpl. repeat split.
    + eexists. split; [reflexivity |]. repeat split.
    + eexists. split; [reflexivity |]. repeat split.
  - intros Hb. unfold createFlagClient. rewrite Hb. split.
    + intros url key -> Hurl -> Hkey. simpl.
      apply jsstring_eqb_neq in Hurl, Hkey. now rewrite Hurl, Hkey.
    + intros [-> | ->]; simpl; [reflexivity |]. now rewrite andb_false_r.
Qed.

End WebClientFacts.

Module ApiFacts.
Import Values Types Errors Fetcher Auth ConfigRoute.
Import ConditionFacts ConditionAlgebra.

(** X19. [fetchConfig] returns a configuration only when the response is
    ok and its body is read; every other end is an exception that is an
    [Error]: a response that is not ok gives "Failed to fetch config" with
    its status, an abort gives the timeout error, and a rejection that is
    no [Error] gives the unknown error. *)
Theorem fetchConfig_ends `{Builtins}
    (timeout : float) (fetched : outcome Response) :
  (forall config,
     fetchConfig_answer timeout fetched = Returned config <->
     exists response, fetched = Returned response /\ ok response = true /\
                      json response = Returned config) /\
  fetchConfig_answer timeout fetched <> Raised NotAnError /\
  (forall response, fetched = Returned response -> ok response = false ->
     fetchConfig_answer timeout fetched =
     Raised (Error (js "Failed to fetch config: "
                      ++ number_to_string (status response) ++ js " "
                      ++ statusText response))) /\
  (forall message,
     fetched = Raised (ErrorObject (js "AbortError") message) ->
     fetchConfig_answer timeout fetched =
     Raised (Error (js "Config fetch timeout after " ++ number_to_string timeout
                      ++ js "ms"))) /\
  (fetched = Raised NotAnError ->
   fetchConfig_answer timeout fetched =
   Raised (Error (js "Unknown error fetching config"))).
Proof.
  assert (forall e, fetchConfig_catch timeout e <> NotAnError) as Hcatch.
  { intros [name message | e |]; simpl; try discriminate.
    unfold Error. destruct (jsstring_eqb name (js "AbortError")); discriminate. }
  split; [| split; [| split; [| split]]].
  - intros config. unfold fetchConfig_answer. split.
    + destruct fetched as [response | e]; [| discriminate].
      destruct (ok response) eqn:Hok; simpl; [| discriminate].
      destruct (json response) as [c | e] eqn:Hj; [| discriminate].
      intros [= ->]. eauto.
    + intros (response & -> & Hok & Hj). now rewrite Hok, Hj.
  - unfold fetchConfig_answer.
    destruct fetched as [response | e].
    + destruct (ok response); simpl.
      * destruct (json response) as [c | e]; [discriminate |].
        intros [= E]; now apply (Hcatch e).
      * discriminate.
    + intros [= E]; now apply (Hcatch e).
  - intros response -> Hok. unfold fetchConfig_answer. now rewrite Hok.
  - intros message ->. reflexivity.
  - intros ->. reflexivity.
Qed.

Lemma string_apiKey_nonempty o k : string_apiKey o = Some k -> k <> [].
Proof.
  unfold string_apiKey. destruct (o !! js "apiKey") as [[] |]; try discriminate.
  simpl. destruct (jsstring_eqb s []) eqn:E; simpl; [discriminate |].
  intros [= <-]. now apply jsstring_eqb_neq.
Qed.

(** X20. [extractApiKey] takes the key of the query when it is a string
    that is not empty, else such a key of the body, else what follows
    "Bearer " in the Authorization header, be it empty, and else nothing:
    the scheme is matched with its capital and its space.  A key taken from
    query or body is never empty. *)
Theorem extractApiKey_sources (request : Request) :
  (forall k, string_apiKey (query request) = Some k ->
             extractApiKey request = Some k /\ k <> []) /\
  (string_apiKey (query request) = None ->
   (forall b k, body request = Some b -> string_apiKey b = Some k ->
                extractApiKey request = Some k /\ k <> []) /\
   (body request ≫= string_apiKey = None ->
    (forall token, authorization request = Some (js "Bearer " ++ token) ->
                   extractApiKey request = Some token) /\
    (forall header, authorization request = Some header ->
                    (forall token, header <> js "Bearer " ++ token) ->
                    extractApiKey request = None) /\
    (authorization request = None -> extractApiKey request = None))).
Proof.
  unfold extractApiKey. split.
  - intros k Hq. rewrite Hq. split; [reflexivity |].
    eapply string_apiKey_nonempty; eauto.
  - intros ->. split.
    + intros b k -> Hb. simpl. rewrite Hb. split; [reflexivity |].
      eapply string_apiKey_nonempty; eauto.
    + intros ->. split; [| split].
      * intros token ->. reflexivity.
      * intros header -> Hne.
        destruct (starts_with (js "Bearer ") header) eqn:Hs; [| reflexivity].
        apply starts_with_iff in Hs as [post ->]. now destruct (Hne post).
      * intros ->. reflexivity.
Qed.

(** X21. The key the web client sends is the key the API reads: for a
    request with no key in query or body, whose Authorization header is the
    one [fetchConfig] builds for [apiKey], [extractApiKey] returns
    [apiKey], and [authenticateApiKey] looks that key up, unless it is
    empty, in which case it answers 401 "API key required". *)
Theorem bearer_round_trip {Environment : Type}
    (find : jsstring -> outcome (option Environment))
    (request : Request) (apiUrl apiKey header : jsstring) :
  string_apiKey (query request) = None ->
  body request ≫= string_apiKey = None ->
  In (js "Authorization", header) (headers (fetchConfig_request apiUrl apiKey)) ->
  authorization request = Some header ->
  extractApiKey request = Some apiKey /\
  (apiKey <> [] ->
   authenticateApiKey find request =
   match find apiKey with
   | Returned (Some environment) => Attached environment
   | Returned None => Reply 401 (js "Unauthorized") (js "Invalid API key")
   | Raised _ =>
       Reply 500 (js "Internal Server Error") (js "Failed to validate API key")
   end) /\
  (apiKey = [] ->
   authenticateApiKey find request =
   Reply 401 (js "Unauthorized") (js "API key required")).
Proof.
  intros Hq Hb Hin Ha.
  assert (header = js "Bearer " ++ apiKey) as ->.
  { simpl in Hin. destruct Hin as [[= <-] | [[=] | []]]. reflexivity. }
  assert (extractApiKey request = Some apiKey) as E.
  { unfold extractApiKey. now rewrite Hq, Hb, Ha. }
  split; [exact E |]. unfold authenticateApiKey. cbv zeta. rewrite E. split.
  - intros Hne. simpl. apply jsstring_eqb_neq in Hne. now rewrite Hne.
  - intros ->. reflexivity.
Qed.

(** X22. [authenticateApiKey] attaches an environment exactly when a key
    that is not empty is found in the request and the database returns an
    environment for it, the one it attaches.  Without such a key it answers
    401 "API key required" whatever the database holds; a key the database
    does not know gives 401 "Invalid API key", and a database that throws
    gives 500. *)
Theorem authenticateApiKey_outcomes {Environment : Type}
    (find : jsstring -> outcome (option Environment)) (request : Request) :
  (forall environment,
     authenticateApiKey find request = Attached environment <->
     exists k, extractApiKey request = Some k /\ k <> [] /\
               find k = Returned (Some environment)) /\
  (extractApiKey request = None \/ extractApiKey request = Some [] ->
   forall find' : jsstring -> outcome (option Environment),
     authenticateApiKey find' request =
     Reply 401 (js "Unauthorized") (js "API key required")) /\
  (forall k, extractApiKey request = Some k -> k <> [] ->
     (find k = Returned None ->
      authenticateApiKey find request =
      Reply 401 (js "Unauthorized") (js "Invalid API key")) /\
     (forall e, find k = Raised e ->
      authenticateApiKey find request =
      Reply 500 (js "Internal Server Error") (js "Failed to validate API key"))).
Proof.
  unfold authenticateApiKey. cbv zeta. split; [| split].
  - intros environment. destruct (extractApiKey request) as [k |]; simpl.
    + destruct (jsstring_eqb k []) eqn:Hk; simpl.
      * split; [discriminate |]. intros (k' & [= <-] & Hne & _).
        apply jsstring_eqb_eq in Hk. contradiction.
      * apply jsstring_eqb_neq in Hk. split.
        -- destruct (find k) as [[env |] | e] eqn:Ef; try discriminate.
           intros [= ->]. eauto.
        -- intros (k' & [= <-] & _ & ->). reflexivity.
    + split; [discriminate |]. intros (k' & [=] & _).
  - intros [-> | ->] find'; reflexivity.
  - intros k -> Hne. simpl. apply jsstring_eqb_neq in Hne. rewrite Hne. simpl.
    split; [intros -> | intros e ->]; reflexivity.
Qed.

Lemma omap_pointwise {A B} (f g : A -> option B) (l : list A) :
  (forall x, f x = g x) -> omap f l = omap g l.
Proof.
  intros E. induction l as [| x l IH]; [reflexivity |].
  change (omap f (x :: l))
    with (match f x with Some y => y :: omap f l | None => omap f l end).
  change (omap g (x :: l))
    with (match g x with Some y => y :: omap g l | None => omap g l end).
  now rewrite E, IH.
Qed.

Lemma omap_cons_None {A B} (f : A -> option B) (x : A) (l : list A) :
  f x = None -> omap f (x :: l) = omap f l.
Proof.
  intros E.
  change (omap f (x :: l))
    with (match f x with Some y => y :: omap f l | None => omap f l end).
  now rewrite E.
Qed.

Lemma omap_nil {A B} (f : A -> option B) (l : list A) :
  (forall x, In x l -> f x = None) -> omap f l = [].
Proof.
  induction l as [| x l IH]; intros E; [reflexivity |].
  rewrite omap_cons_None by (apply E; now left).
  apply IH. intros y Hy. apply E. now right.
Qed.

Lemma buildFlagConfig_fold {J : Type} (parse : jsstring -> option J) flags :
  forall (acc : gmap jsstring J) key,
  fold_left
    (fun flagConfig flag =>
       match parse (stored_config flag) with
       | Some parsedConfig =>
           if jsstring_eqb (stored_key flag) (js "__proto__") then flagConfig
           else <[stored_key flag := parsedConfig]> flagConfig
       | None => flagConfig
       end) flags acc !! key =
  match last (omap (fun flag => if bool_decide (stored_key flag = key)
                                   && negb (jsstring_eqb key (js "__proto__"))
                                then parse (stored_config flag) else None) flags)
  with
  | Some parsed => Some parsed
  | None => acc !! key
  end.
Proof.
  induction flags as [| flag rest IH]; intros acc key; [reflexivity |].
  cbn [fold_left]. rewrite IH.
  set (f := fun flag : StoredFlag =>
              if bool_decide (stored_key flag = key)
                 && negb (jsstring_eqb key (js "__proto__"))
              then parse (stored_config flag) else None).
  change (omap f (flag :: rest))
    with (match f flag with Some y => y :: omap f rest | None => omap f rest end).
  destruct (last (omap f rest)) as [j |] eqn:Hl.
  - destruct (f flag); [rewrite last_cons, Hl | rewrite Hl]; reflexivity.
  - destruct (f flag) as [y |] eqn:Hf; [rewrite last_cons, Hl | rewrite Hl];
      unfold f in Hf.
    + case_bool_decide as Hk; [| discriminate]. subst key.
      destruct (jsstring_eqb (stored_key flag) (js "__proto__")); [discriminate |].
      simpl in Hf. rewrite Hf. now rewrite lookup_insert_eq.
    + destruct (parse (stored_config flag)) as [parsed |]; [| reflexivity].
      destruct (jsstring_eqb (stored_key flag) (js "__proto__")) eqn:Hproto;
        [reflexivity |].
      case_bool_decide as Hk; [| now rewrite lookup_insert_ne].
      subst key. rewrite Hproto in Hf. discriminate.
Qed.

(** X23. In the configuration the route builds, a key other than __proto__
    holds the parsed text of the last flag of the list with that key whose
    text parses; __proto__ is never a key of it.  A flag whose text does
    not parse is skipped and changes nothing, and a key no flag carries is
    absent. *)
Theorem buildFlagConfig_lookup {J : Type}
    (JSON_parse : jsstring -> option J) (flags : list StoredFlag) (key : jsstring) :
  (key <> js "__proto__" ->
   buildFlagConfig JSON_parse flags !! key =
     last (omap (fun flag => if bool_decide (stored_key flag = key)
                             then JSON_parse (stored_config flag) else None) flags)) /\
  buildFlagConfig JSON_parse flags !! js "__proto__" = None /\
  (forall before flag after,
     flags = before ++ flag :: after -> JSON_parse (stored_config flag) = None ->
     buildFlagConfig JSON_parse flags = buildFlagConfig JSON_parse (before ++ after)) /\
  ((forall flag, In flag flags -> stored_key flag <> key) ->
   buildFlagConfig JSON_parse flags !! key = None).
Proof.
  assert (forall fs k,
            buildFlagConfig JSON_parse fs !! k =
            last (omap (fun flag => if bool_decide (stored_key flag = k)
                                       && negb (jsstring_eqb k (js "__proto__"))
                                    then JSON_parse (stored_config flag) else None) fs))
    as Hlookup.
  { intros fs k. unfold buildFlagConfig. rewrite buildFlagConfig_fold.
    now destruct (last _). }
  split; [| split; [| split]].
  - intros Hkey. rewrite Hlookup. apply jsstring_eqb_neq in Hkey. rewrite Hkey.
    f_equal. apply omap_pointwise. intros flag. now rewrite andb_true_r.
  - rewrite Hlookup, omap_nil; [reflexivity |].
    intros flag _. now rewrite jsstring_eqb_refl, andb_false_r.
  - intros before flag after -> Hp. apply map_eq. intros k.
    rewrite !Hlookup, !omap_app. do 2 f_equal. apply omap_cons_None.
    rewrite Hp. now destruct (_ && _).
  - intros Hkeys. rewrite Hlookup, omap_nil; [reflexivity |].
    intros flag Hin. now rewrite bool_decide_eq_false_2 by (now apply Hkeys).
Qed.

End ApiFacts.

Module NodeClientFacts.
Import Values Types Conditions Evaluator Errors NodeClient.
Import ConditionFacts EvaluatorFacts EvaluatorAlgebra.

(** X24. The Node [createFlagClient] uses a static configuration when one
    is given and fetches nothing then; without one it fetches when URL and
    key are both given and not empty, and rejects otherwise.  The client it
    builds is ready and holds the configuration, and it has a refresh timer
    exactly when URL and key are given and not empty and [enableRefresh] is
    not false: refresh is on by default, also beside a static
    configuration. *)
Theorem node_createFlagClient_modes (o : Options.t) (handle : positive) :
  (forall config, Options.staticConfig o = Some config ->
     createFlagClient_config o = Returned (Static config)) /\
  (Options.staticConfig o = None ->
   (forall url key,
      Options.apiUrl o = Some url -> url <> [] ->
      Options.apiKey o = Some key -> key <> [] ->
      createFlagClient_config o =
      Returned (Fetched url key (Options.timeout o) (Options.fetchFn o))) /\
   (no_string (Options.apiUrl o) = true \/ no_string (Options.apiKey o) = true ->
    createFlagClient_config o =
    Raised (Error (js "Either staticConfig or both apiUrl and apiKey must be provided")))) /\
  (forall config,
     let client := createFlagClient_client o config handle in
     isReady client = true /\ getConfig client = config /\
     refreshTimer client =
       (if negb (no_string (Options.apiUrl o))
           && negb (no_string (Options.apiKey o))
           && negb (bool_decide (Options.enableRefresh o = Some false))
        then Some handle else None)).
Proof.
  split; [| split].
  - intros config Hs. unfold createFlagClient_config. now rewrite Hs.
  - intros Hs. unfold createFlagClient_config. rewrite Hs. split.
    + intros url key -> Hurl -> Hkey. simpl.
      apply jsstring_eqb_neq in Hurl, Hkey. now rewrite Hurl, Hkey.
    + intros [-> | ->]; simpl; [reflexivity |]. now rewrite andb_false_r.
  - intros config. cbv zeta. unfold createFlagClient_client.
    destruct (no_string (Options.apiUrl o)) eqn:Hu; simpl; [repeat split |].
    destruct (no_string (Options.apiKey o)) eqn:Hk; simpl; [repeat split |].
    unfold startRefresh. simpl. rewrite Hu, Hk.
    destruct (Options.enableRefresh o) as [[|] |]; simpl; repeat split.
Qed.

(** X25. [refresh] of the Node client rejects with "Client is closed" on a
    closed client, before it looks at the credentials, and with "Cannot
    refresh" on an open one that lacks URL or key; otherwise it asks
    [fetchConfig] with the client's URL, key, timeout and fetch function.
    When the fetch resolves the new configuration replaces the old one
    whole, timer and readiness are kept, and [getBool] answers from the new
    one; this also happens on a client closed in the meantime, where
    [getBool] keeps throwing. *)
Theorem node_refresh `{Builtins} (this : FlagClient) :
  (isClosed this = true ->
   refresh_request this = Raised (Error (js "Client is closed"))) /\
  (isClosed this = false ->
   (no_string (apiUrl this) = true \/ no_string (apiKey this) = true ->
    refresh_request this =
    Raised (Error (js "Cannot refresh: API URL and key required"))) /\
   (forall url key, apiUrl this = Some url -> url <> [] ->
                    apiKey this = Some key -> key <> [] ->
      refresh_request this =
      Returned (url, key, WebClient.Resolved.timeout (options this),
                WebClient.Resolved.fetchFn (options this)))) /\
  (forall newConfig,
     let refreshed := refresh_resolved this newConfig in
     getConfig refreshed = newConfig /\
     refreshTimer refreshed = refreshTimer this /\
     isReady refreshed = isReady this /\
     (forall flagKey,
        hasFlag refreshed flagKey =
        Evaluator.hasFlag {| config := newConfig |} flagKey) /\
     (forall flagKey, is_Some (newConfig !! flagKey) ->
                      hasFlag refreshed flagKey = true) /\
     (forall flagKey context,
        getBool refreshed flagKey context =
        if isClosed this then Raised (Error (js "Client is closed"))
        else of_completion (evalBool {| config := newConfig |} flagKey context)) /\
     getConfig (refresh_resolved (fst (close this)) newConfig) = newConfig).
Proof.
  split; [| split].
  - intros Hc. unfold refresh_request. now rewrite Hc.
  - intros Hc. unfold refresh_request. rewrite Hc. split.
    + intros [-> | ->]; simpl; [reflexivity |]. now rewrite orb_true_r.
    + intros url key -> Hurl -> Hkey. simpl.
      apply jsstring_eqb_neq in Hurl, Hkey. now rewrite Hurl, Hkey.
  - intros newConfig. cbv zeta.
  split; [reflexivity |]. split; [reflexivity |]. split; [reflexivity |].
    split; [reflexivity |]. split; [| split; reflexivity].
    intros flagKey [e He]. unfold hasFlag, refresh_resolved. simpl.
    unfold Evaluator.hasFlag. now rewrite (config_lookup_own _ _ e).
Qed.

(** X26. After [close] the Node client is not ready and has no timer, the
    timer [close] clears is the one the client had, [getBool] and
    [getVariant] throw "Client is closed", [getConfig] and [hasFlag] still
    answer from the last configuration, and closing again changes nothing.
    An open client does on [getBool] and [getVariant] what the core
    evaluator does on its configuration: it returns the result the
    evaluator returns, throws only the [TypeError] the evaluator throws,
    and returns on every context whose attributes are an object, when no
    object among the attributes or in the flag has a property [toString] of
    its own. *)
Theorem node_client_closed_or_open `{Builtins}
    (this : FlagClient) (flagKey : jsstring) (context : Context) :
  (let closed := fst (close this) in
   snd (close this) = refreshTimer this /\
   isReady closed = false /\ refreshTimer closed = None /\
   getBool closed flagKey context = Raised (Error (js "Client is closed")) /\
   getVariant closed flagKey context = Raised (Error (js "Client is closed")) /\
   getConfig closed = getConfig this /\
   hasFlag closed flagKey = hasFlag this flagKey /\
   close closed = (closed, None)) /\
  (isClosed this = false ->
   getBool this flagKey context =
     of_completion (evalBool {| config := getConfig this |} flagKey context) /\
   getVariant this flagKey context =
     of_completion (evalVariant {| config := getConfig this |} flagKey context) /\
   (forall e, getBool this flagKey context = Raised e \/
              getVariant this flagKey context = Raised e ->
              e = Engine TypeError) /\
   (is_Some (as_object (attributes context)) ->
    convertible (attributes context) ->
    (forall flag, getConfig this !! flagKey = Some (FlagEntry flag) ->
                  convertible_flag flag) ->
    exists rb rv,
      getBool this flagKey context = Returned rb /\
      evalBool {| config := getConfig this |} flagKey context = Normal rb /\
      getVariant this flagKey context = Returned rv /\
      evalVariant {| config := getConfig this |} flagKey context = Normal rv)).
Proof.
  split.
  - cbv zeta. unfold close, isReady, getBool, getVariant, getConfig, hasFlag.
    simpl. rewrite andb_false_r. repeat split.
  - intros Hopen. unfold getBool, getVariant, getConfig. rewrite Hopen.
    destruct (evaluator this) as [cfg]. unfold Evaluator.getConfig. simpl.
    split; [reflexivity |]. split; [reflexivity |]. split.
    + intros e [E | E]; exact (WebClientFacts.of_completion_raised _ _ E).
    + intros Ho Hc Hflag.
      destruct (evaluation_outcome {| config := cfg |} flagKey context Ho Hc Hflag)
        as (rb & rv & Eb & Ev).
      exists rb, rv. now rewrite Eb, Ev.
Qed.

End NodeClientFacts.

(** ** Instances of the properties above *)

Module Instances.
Import Values Types Conditions Evaluator Examples Variations Errors.
Import ClientExamples.
Import ConditionFacts EvaluatorFacts.
Import ConditionAlgebra EvaluatorAlgebra WebClientFacts ApiFacts NodeClientFacts.
#[local] Existing Instance integer_builtins.

(** An attribute that is NaN equals itself for [eq]. *)
Lemma loose_equality_reflexive_symmetric_witness :
  let context := mkContext None [(js "score", VNumber PrimFloat.nan)] in
  getAttributeValue context (js "score") = Normal (Data (VNumber PrimFloat.nan)) /\
  strict_equals (VNumber PrimFloat.nan) (VNumber PrimFloat.nan) = false /\
  evaluateCondition (mkCondition "score" "eq" (VNumber PrimFloat.nan)) context
    = Normal true /\
  evaluateCondition (mkCondition "score" "neq" (VNumber PrimFloat.nan)) context
    = Normal false.
Proof.
  cbv zeta.
  assert (getAttributeValue
            (mkContext None [(js "score", VNumber PrimFloat.nan)]) (js "score")
          = Normal (Data (VNumber PrimFloat.nan))) as E
    by (vm_compute; reflexivity).
  destruct (loose_equality_reflexive_symmetric (VNumber PrimFloat.nan) VNull)
    as (_ & _ & H).
  destruct (H _ _ E ltac:(discriminate)) as [H1 H2].
  split; [exact E |]. split; [vm_compute; reflexivity |].
  split; [exact H1 | exact H2].
Defined.

(** Age 25 against 18. *)
Lemma numeric_operators_consistent_witness :
  let condition := mkCondition "age" "eq" (num 18) in
  let context := mkContext None [(js "age", num 25)] in
  evaluateCondition (with_operator (js "gt") condition) context = Normal true /\
  evaluateCondition (with_operator (js "gte") condition) context = Normal true /\
  evaluateCondition (with_operator (js "lt") condition) context = Normal false /\
  evaluateCondition (with_operator (js "lte") condition) context = Normal false.
Proof.
  cbv zeta.
  assert (evaluateCondition
            (with_operator (js "gt") (mkCondition "age" "eq" (num 18)))
            (mkContext None [(js "age", num 25)]) = Normal true) as E
    by (vm_compute; reflexivity).
  destruct (numeric_operators_consistent
              (mkCondition "age" "eq" (num 18))
              (mkContext None [(js "age", num 25)])) as [Hgt _].
  split; [exact E | exact (Hgt E)].
Defined.

(** Two conditions, and the same two in another order with one repeated. *)
Lemma conditions_conjunction_witness :
  let country := mkCondition "country" "eq" (str "US") in
  let age := mkCondition "age" "gt" (num 18) in
  let context := mkContext None [(js "country", str "US"); (js "age", num 16)] in
  (forall c, In c [country; age] <-> In c [age; country; age]) /\
  Forall (fun c => exists b, evaluateCondition c context = Normal b)
         [country; age] /\
  evaluateConditions (Some [age; country; age]) context =
  evaluateConditions (Some [country; age]) context.
Proof.
  cbv zeta.
  assert (forall c,
            In c [mkCondition "country" "eq" (str "US");
                  mkCondition "age" "gt" (num 18)] <->
            In c [mkCondition "age" "gt" (num 18);
                  mkCondition "country" "eq" (str "US");
                  mkCondition "age" "gt" (num 18)]) as E
    by (intros c; simpl; tauto).
  assert (Forall (fun c => exists b,
                    evaluateCondition c
                      (mkContext None [(js "country", str "US");
                                       (js "age", num 16)]) = Normal b)
            [mkCondition "country" "eq" (str "US");
             mkCondition "age" "gt" (num 18)]) as Hr.
  { repeat constructor; eexists; vm_compute; reflexivity. }
  split; [exact E |]. split; [exact Hr |].
  destruct (conditions_conjunction
              [mkCondition "country" "eq" (str "US");
               mkCondition "age" "gt" (num 18)]
              (mkContext None [(js "country", str "US"); (js "age", num 16)]))
    as (_ & Horder & _).
  destruct (Horder _ E) as [_ Hsame]. exact (Hsame Hr).
Defined.

(** A country among "UK" and "US": the second element is the one that is
    equal, after the first was found different. *)
Lemma in_operator_some_eq_witness :
  let context := mkContext None [(js "country", str "US")] in
  evaluateCondition (mkCondition "country" "eq" (str "UK")) context
    = Normal false /\
  evaluateCondition (mkCondition "country" "eq" (str "US")) context
    = Normal true /\
  evaluateCondition
    (mkCondition "country" "in" (VArray 1%nat [str "UK"; str "US"])) context
    = Normal true.
Proof.
  cbv zeta.
  set (context := mkContext None [(js "country", str "US")]).
  assert (evaluateCondition (mkCondition "country" "eq" (str "UK")) context
          = Normal false) as Huk by (vm_compute; reflexivity).
  assert (evaluateCondition (mkCondition "country" "eq" (str "US")) context
          = Normal true) as Hus by (vm_compute; reflexivity).
  split; [exact Huk |]. split; [exact Hus |].
  apply (proj2 (in_operator_some_eq context (js "country") 1%nat
                  [str "UK"; str "US"])).
  exists [str "UK"], (str "US"), [].
  split; [reflexivity |]. split; [exact Hus |].
  constructor; [exact Huk | constructor].
Defined.

(** The test "should match substring in string". *)
Lemma contains_substring_witness :
  let condition := mkCondition "email" "contains" (str "@example.com") in
  let context := mkContext None [(js "email", str "user@example.com")] in
  getAttributeValue context (attribute condition)
    = Normal (Data (str "user@example.com")) /\
  evaluateCondition condition context = Normal true.
Proof.
  cbv zeta.
  assert (getAttributeValue
            (mkContext None [(js "email", str "user@example.com")])
            (attribute (mkCondition "email" "contains" (str "@example.com")))
          = Normal (Data (VString (js "user@example.com")))) as E
    by (vm_compute; reflexivity).
  split; [exact E |].
  apply (proj1 (contains_substring _ _ _ (js "@example.com") E eq_refl eq_refl)).
  exists (js "user"), []. vm_compute. reflexivity.
Defined.

(** The test "should support nested attribute paths", and a nested key
    that holds a dot. *)
Lemma nested_attribute_resolution_witness :
  let user := VObject 1%nat {[ js "plan" := str "premium"; js "a.b" := str "x" ]} in
  let context := mkContext None [(js "user", user)] in
  Forall not_inherited
    [js "user.plan"; js "plan"; js "user.a.b"; js "a"; js "b"] /\
  getAttributeValue context (js "user.plan") = Normal (Data (str "premium")) /\
  getAttributeValue context (js "user.a.b") = Normal (Data VUndefined).
Proof.
  cbv zeta.
  set (user := VObject 1%nat {[ js "plan" := str "premium";
                               js "a.b" := str "x" ]}).
  set (props := list_to_map [(js "user", user)] : gmap jsstring jsval).
  set (context := mkContext None [(js "user", user)]).
  assert (Forall not_inherited
            [js "user.plan"; js "plan"; js "user.a.b"; js "a"; js "b"])
    as Hplain.
  { repeat constructor; apply not_inherited_example; vm_compute; reflexivity. }
  assert (~ In 46%N (js "user")) as Hk
    by (vm_compute; intuition discriminate).
  assert (props !! js "user" = Some user) as Hv by (vm_compute; reflexivity).
  split; [exact Hplain |].
  inversion Hplain as [| ? ? Huser_plan Hrest1]; subst.
  inversion Hrest1 as [| ? ? Hplan Hrest2]; subst.
  inversion Hrest2 as [| ? ? Huser_a_b Hrest3]; subst.
  split.
  - assert (props !! (js "user" ++ 46%N :: js "plan") = None) as Hn
      by (vm_compute; reflexivity).
    destruct (nested_attribute_resolution context 0%nat props
                (js "user") (js "plan") user eq_refl Hk Hn Huser_plan Hv)
      as (Hw & _).
    { constructor; [exact Hplan | constructor]. }
    change (js "user.plan") with (js "user" ++ 46%N :: js "plan").
    rewrite Hw. vm_compute. reflexivity.
  - assert (props !! (js "user" ++ 46%N :: js "a.b") = None) as Hn
      by (vm_compute; reflexivity).
    destruct (nested_attribute_resolution context 0%nat props
                (js "user") (js "a.b") user eq_refl Hk Hn Huser_a_b Hv)
      as (_ & _ & Hu).
    { exact Hrest3. }
    change (js "user.a.b") with (js "user" ++ 46%N :: js "a.b").
    apply (Hu 1%nat _ (js "a") [js "b"] eq_refl);
      vm_compute; reflexivity.
Defined.

(** User "a:b" on flag "c" and user "a" on flag "b:c" share a bucket. *)
Lemma bucket_of_joined_strings_witness :
  js "a:b" ++ js ":" ++ js "c" = js "a" ++ js ":" ++ js "b:c" /\
  Rollout.computeRolloutBucket (js "a:b") (js "c") =
  Rollout.computeRolloutBucket (js "a") (js "b:c").
Proof.
  assert (js "a:b" ++ js ":" ++ js "c" = js "a" ++ js ":" ++ js "b:c") as E
    by reflexivity.
  split; [exact E |].
  exact (proj2 (bucket_of_joined_strings (js "a") [] (js "b:c")) _ _ E).
Defined.

(** User "u", bucket 5 for flag "f", under 50 percent, 75 percent and no
    percentage. *)
Lemma rollout_percentage_monotone_witness :
  let context := mkContext (Some (js "u")) [] in
  evaluateRule (mkEvaluator []) half_rollout context (js "f") =
    Normal {| matched := true; rule_reason := reason_rollout;
              rule_bucket := Some 5 |} /\
  (exists ruleResult',
     evaluateRule (mkEvaluator []) (with_percentage (Some 75%float) half_rollout)
       context (js "f") = Normal ruleResult' /\ matched ruleResult' = true) /\
  (exists ruleResult',
     evaluateRule (mkEvaluator []) (with_percentage None half_rollout)
       context (js "f") = Normal ruleResult' /\ matched ruleResult' = true).
Proof.
  cbv zeta.
  assert (evaluateRule (mkEvaluator []) half_rollout
            (mkContext (Some (js "u")) []) (js "f") =
          Normal {| matched := true; rule_reason := reason_rollout;
                    rule_bucket := Some 5 |}) as E by (vm_compute; reflexivity).
  split; [exact E |].
  exact (rollout_percentage_monotone (mkEvaluator []) half_rollout
           (mkContext (Some (js "u")) []) (js "f") 50%float 75%float _
           eq_refl ltac:(vm_compute; reflexivity) E eq_refl).
Defined.

(** The 50 percent rule for user "u", whose bucket is 5. *)
Lemma whole_percentage_buckets_witness :
  let context := mkContext (Some (js "u")) [] in
  evaluateConditions (Some (default [] (conditions half_rollout))) context
    = Normal true /\
  evaluateRule (mkEvaluator []) half_rollout context (js "f") =
    Normal {| matched := (Rollout.computeRolloutBucket (js "u") (js "f") <=? 50);
              rule_reason :=
                if (Rollout.computeRolloutBucket (js "u") (js "f") <=? 50)
                then reason_rollout else reason_rollout_excluded;
              rule_bucket := Some (Rollout.computeRolloutBucket (js "u") (js "f")) |}.
Proof.
  cbv zeta.
  assert (evaluateConditions (Some (default [] (conditions half_rollout)))
            (mkContext (Some (js "u")) []) = Normal true) as E
    by (vm_compute; reflexivity).
  split; [exact E |].
  apply (proj1 (whole_percentage_buckets (mkEvaluator []) half_rollout
                  (mkContext (Some (js "u")) []) (js "f") (js "u")
                  E eq_refl ltac:(discriminate)) 50);
    [lia | vm_compute; reflexivity].
Defined.

(** The test "should include user in rollout": user-1 has bucket 23 under
    the 50 percent rule. *)
Lemma result_metadata_witness :
  let this := mkEvaluator [rollout_flag] in
  let context := mkContext (Some (js "user-1")) [] in
  exists r,
    evalBool this (js "rollout-flag") context = Normal r /\
    reason r = reason_rollout /\ result_bucket r = Some 23 /\
    0 <= 23 <= 100 /\
    23 = Rollout.computeRolloutBucket (js "user-1") (js "rollout-flag") /\
    result_ruleIndex r = Some 0%nat.
Proof.
  cbv zeta.
  set (this := mkEvaluator [rollout_flag]).
  set (context := mkContext (Some (js "user-1")) []).
  assert (evalBool this (js "rollout-flag") context =
          Normal (matched_result true 0
                    {| matched := true; rule_reason := reason_rollout;
                       rule_bucket := Some 23 |})) as E
    by (vm_compute; reflexivity).
  eexists. split; [exact E |].
  destruct (proj1 (result_metadata this (js "rollout-flag") context) _ E)
    as (_ & Hbucket & _).
  destruct (Hbucket 23 eq_refl) as (Hrange & u & Hu & _ & Hb).
  assert (userId context = Some (js "user-1")) as Hu' by reflexivity.
  rewrite Hu' in Hu. injection Hu as <-.
  repeat split; try exact Hb; apply Hrange.
Defined.

(** A configuration that holds [null] under the key "off". *)
Lemma evalBool_evalVariant_agree_witness :
  let this := {| config := {[ js "off" := FalsyEntry ]} |} in
  let context := mkContext None [] in
  config this !! js "off" = Some FalsyEntry /\
  hasFlag this (js "off") = true /\
  evalBool this (js "off") context = Normal (not_found_result false (js "off")) /\
  evalVariant this (js "off") context =
    Normal (not_found_result (js "default") (js "off")).
Proof.
  cbv zeta.
  set (this := {| config := {[ js "off" := FalsyEntry ]} |}).
  assert (config this !! js "off" = Some FalsyEntry) as E
    by (vm_compute; reflexivity).
  split; [exact E |].
  exact (proj2 (proj2 (evalBool_evalVariant_agree this (js "off")
                         (mkContext None []))) E).
Defined.


(** The flag "test-flag", whose rules have no percentage, for user "u" and
    for no user. *)
Lemma userId_only_for_rollout_witness :
  let context := mkContext None [(js "country", str "UK")] in
  evalBool (mkEvaluator [ordering_flag]) (js "test-flag")
    (with_userId (Some (js "u")) context) =
  evalBool (mkEvaluator [ordering_flag]) (js "test-flag") context.
Proof.
  cbv zeta.
  apply (userId_only_for_rollout (mkEvaluator [ordering_flag]) (js "test-flag")
           (mkContext None [(js "country", str "UK")]) (Some (js "u"))).
  intros flag rules_ rule Hflag Hrules Hin.
  assert (config (mkEvaluator [ordering_flag]) !! js "test-flag"
          = Some (FlagEntry ordering_flag)) as E by (vm_compute; reflexivity).
  rewrite E in Hflag. injection Hflag as <-.
  simpl in Hrules. injection Hrules as <-.
  left. destruct Hin as [<- | [<- | []]]; reflexivity.
Defined.

(** A client just made from the ordering flag answers as the evaluator. *)
Lemma open_client_evaluates_witness :
  let client :=
    WebClient.new_WebFlagClient (config (mkEvaluator [ordering_flag])) no_options in
  let context := mkContext None [(js "country", str "US")] in
  WebClient.isClosed client = false /\
  WebClient.getBool client (js "test-flag") context =
    of_completion
      (evalBool {| config := WebClient.getConfig client |} (js "test-flag")
         context) /\
  exists rb,
    WebClient.getBool client (js "test-flag") context = Returned rb /\
    result_value rb = true.
Proof.
  cbv zeta. split; [reflexivity |].
  destruct (proj1 (open_client_evaluates
                     (WebClient.new_WebFlagClient
                        (config (mkEvaluator [ordering_flag])) no_options)
                     (js "test-flag") (mkContext None [(js "country", str "US")]))
                  eq_refl) as (Hb & _).
  split; [exact Hb |]. rewrite Hb. eexists. split; vm_compute; reflexivity.
Defined.

(** An update of a client with two listeners. *)
Lemma updateConfig_replaces_witness :
  let client :=
    WebClient.onConfigUpdate
      (WebClient.onConfigUpdate
         (WebClient.new_WebFlagClient (config (mkEvaluator [ordering_flag]))
            no_options) 1%nat) 2%nat in
  WebClient.isClosed client = false /\
  exists updated,
    WebClient.updateConfig client (config (mkEvaluator [rollout_flag]))
      = Returned updated /\
    WebClient.getConfig updated = config (mkEvaluator [rollout_flag]) /\
    WebClient.listeners updated = [1%nat; 2%nat].
Proof.
  cbv zeta. split; [reflexivity |].
  destruct (updateConfig_replaces
              (WebClient.onConfigUpdate
                 (WebClient.onConfigUpdate
                    (WebClient.new_WebFlagClient
                       (config (mkEvaluator [ordering_flag])) no_options) 1%nat)
                 2%nat)
              (config (mkEvaluator [rollout_flag])) eq_refl)
    as (updated & Hu & Hc & _ & _ & Hl & _).
  exists updated. split; [exact Hu |]. split; [exact Hc | exact Hl].
Defined.

(** Listener 1 registered twice around listener 2; listener 3 is new. *)
Lemma unsubscribe_removes_first_witness :
  let client :=
    WebClient.set_listeners [1%nat; 2%nat; 1%nat]
      (WebClient.new_WebFlagClient (config (mkEvaluator [])) no_options) in
  In 1%nat (WebClient.listeners client) /\
  ~ In 3%nat (WebClient.listeners client) /\
  WebClient.listeners (WebClient.unsubscribe 1%nat client) = [2%nat; 1%nat] /\
  WebClient.unsubscribe 3%nat (WebClient.onConfigUpdate client 3%nat) = client.
Proof.
  cbv zeta.
  set (client := WebClient.set_listeners [1%nat; 2%nat; 1%nat]
         (WebClient.new_WebFlagClient (config (mkEvaluator [])) no_options)).
  assert (In 1%nat (WebClient.listeners client)) as H1 by (simpl; tauto).
  assert (~ In 3%nat (WebClient.listeners client)) as H3
    by (simpl; intuition discriminate).
  split; [exact H1 |]. split; [exact H3 |].
  destruct (unsubscribe_removes_first client 3%nat) as (Hfresh & _ & _).
  destruct (unsubscribe_removes_first client 1%nat) as (_ & Hold & _).
  split; [| exact (proj1 (Hfresh H3))].
  destruct (Hold H1) as (before & after & Hsplit & Hb & Hl & _).
  rewrite Hl. destruct before as [| x before].
  - simpl in Hsplit. now injection Hsplit as <-.
  - simpl in Hsplit. injection Hsplit as <- _. destruct Hb. now left.
Defined.

(** A bootstrap configuration with URL, key and refresh; URL and key
    alone; and nothing. *)
Lemma createFlagClient_modes_witness :
  let bootstrap := config (mkEvaluator [ordering_flag]) in
  (exists client,
     WebClient.createFlagClient (refreshing_options (Some bootstrap)) 7%positive
       = Returned (WebClient.Ready client) /\
     WebClient.getConfig client = bootstrap /\
     WebClient.refreshTimer client = Some 7%positive) /\
  WebClient.createFlagClient (refreshing_options None) 7%positive =
    Returned (WebClient.Fetching (js "https://api.example") (js "key") None None) /\
  WebClient.createFlagClient no_options 7%positive =
    Raised (Error (js "Either bootstrapConfig or both apiUrl and apiKey must be provided")).
Proof.
  cbv zeta. split; [| split].
  - destruct (proj1 (createFlagClient_modes
                       (refreshing_options
                          (Some (config (mkEvaluator [ordering_flag]))))
                       7%positive) _ eq_refl)
      as (client & Hc & _ & Hg & _ & Ht).
    exists client. split; [exact Hc |]. split; [exact Hg | exact Ht].
  - apply (proj1 (proj2 (createFlagClient_modes (refreshing_options None)
                           7%positive) eq_refl));
      try reflexivity; discriminate.
  - apply (proj2 (proj2 (createFlagClient_modes no_options 7%positive) eq_refl)).
    left. reflexivity.
Defined.

(** A 404 answer, and an answer that is ok. *)
Lemma fetchConfig_ends_witness :
  let missing :=
    {| Fetcher.ok := false; Fetcher.status := 404%float;
       Fetcher.statusText := js "Not Found";
       Fetcher.json := Raised NotAnError |} in
  let found :=
    {| Fetcher.ok := true; Fetcher.status := 200%float;
       Fetcher.statusText := js "OK";
       Fetcher.json := Returned (config (mkEvaluator [ordering_flag])) |} in
  Fetcher.fetchConfig_answer 5000%float (Returned missing) =
    Raised (Error (js "Failed to fetch config: 404 Not Found")) /\
  Fetcher.fetchConfig_answer 5000%float (Returned found) =
    Returned (config (mkEvaluator [ordering_flag])).
Proof.
  cbv zeta. split.
  - destruct (fetchConfig_ends 5000%float
                (Returned {| Fetcher.ok := false; Fetcher.status := 404%float;
                             Fetcher.statusText := js "Not Found";
                             Fetcher.json := Raised NotAnError |}))
      as (_ & _ & Hbad & _).
    rewrite (Hbad _ eq_refl eq_refl). vm_compute. reflexivity.
  - apply (proj1 (fetchConfig_ends 5000%float _)).
    eexists. split; [reflexivity |]. split; reflexivity.
Defined.

(** A key in the query beside one in the header, and a header in small
    letters. *)
Lemma extractApiKey_sources_witness :
  let both :=
    {| Auth.query := {[ js "apiKey" := str "q" ]}; Auth.body := None;
       Auth.authorization := Some (js "Bearer h") |} in
  let small :=
    {| Auth.query := {[ js "apiKey" := num 5 ]}; Auth.body := None;
       Auth.authorization := Some (js "bearer h") |} in
  Auth.extractApiKey both = Some (js "q") /\ Auth.extractApiKey small = None.
Proof.
  cbv zeta. split.
  - apply (proj1 (extractApiKey_sources _)). vm_compute. reflexivity.
  - destruct (extractApiKey_sources
                {| Auth.query := {[ js "apiKey" := num 5 ]}; Auth.body := None;
                   Auth.authorization := Some (js "bearer h") |}) as [_ Hq].
    destruct (Hq ltac:(vm_compute; reflexivity)) as [_ Hb].
    destruct (Hb eq_refl) as (_ & Hh & _).
    apply (Hh (js "bearer h") eq_refl).
    intros token E. vm_compute in E. discriminate.
Defined.

(** The request the web client sends with key "key" and a database that
    knows it as environment 3. *)
Lemma bearer_round_trip_witness :
  let request :=
    {| Auth.query := ∅; Auth.body := None;
       Auth.authorization := Some (js "Bearer key") |} in
  let find := fun k => Returned (if jsstring_eqb k (js "key")
                                 then Some 3%nat else None) in
  In (js "Authorization", js "Bearer key")
     (Fetcher.headers (Fetcher.fetchConfig_request (js "https://api.example")
                         (js "key"))) /\
  Auth.extractApiKey request = Some (js "key") /\
  Auth.authenticateApiKey find request = Auth.Attached 3%nat.
Proof.
  cbv zeta.
  assert (In (js "Authorization", js "Bearer key")
            (Fetcher.headers
               (Fetcher.fetchConfig_request (js "https://api.example") (js "key"))))
    as Hin by (left; reflexivity).
  split; [exact Hin |].
  set (request := {| Auth.query := ∅; Auth.body := None;
                     Auth.authorization := Some (js "Bearer key") |}).
  assert (Auth.string_apiKey (Auth.query request) = None) as Hq
    by (vm_compute; reflexivity).
  destruct (bearer_round_trip
              (fun k => Returned (if jsstring_eqb k (js "key")
                                  then Some 3%nat else None))
              request (js "https://api.example") (js "key") (js "Bearer key")
              Hq eq_refl Hin eq_refl) as (He & Ha & _).
  split; [exact He |]. rewrite Ha by discriminate. reflexivity.
Defined.

(** A key the database knows, one it does not, and an empty one. *)
Lemma authenticateApiKey_outcomes_witness :
  let request k :=
    {| Auth.query := {[ js "apiKey" := VString k ]}; Auth.body := None;
       Auth.authorization := Some (js "Bearer " ++ k) |} in
  let find := fun k => Returned (if jsstring_eqb k (js "key")
                                 then Some 3%nat else None) in
  Auth.authenticateApiKey find (request (js "key")) = Auth.Attached 3%nat /\
  Auth.authenticateApiKey find (request (js "other")) =
    Auth.Reply 401 (js "Unauthorized") (js "Invalid API key") /\
  Auth.authenticateApiKey find (request []) =
    Auth.Reply 401 (js "Unauthorized") (js "API key required").
Proof.
  cbv zeta.
  set (find := fun k => Returned (if jsstring_eqb k (js "key")
                                  then Some 3%nat else None)).
  split; [| split].
  - apply (proj1 (authenticateApiKey_outcomes find _)).
    exists (js "key"). split; [vm_compute; reflexivity |].
    split; [discriminate | reflexivity].
  - set (request := {| Auth.query := {[ js "apiKey" := VString (js "other") ]};
                       Auth.body := None;
                       Auth.authorization := Some (js "Bearer " ++ js "other") |}).
    assert (Auth.extractApiKey request = Some (js "other")) as E
      by (vm_compute; reflexivity).
    destruct (authenticateApiKey_outcomes find request) as (_ & _ & H).
    apply (proj1 (H (js "other") E ltac:(discriminate))). reflexivity.
  - set (request := {| Auth.query := {[ js "apiKey" := VString [] ]};
                       Auth.body := None;
                       Auth.authorization := Some (js "Bearer " ++ []) |}).
    assert (Auth.extractApiKey request = Some []) as E
      by (vm_compute; reflexivity).
    destruct (authenticateApiKey_outcomes find request) as (_ & H & _).
    apply H. right. exact E.
Defined.

(** Two rows of one key, the first of which does not parse, and a row
    named __proto__; the parser of the example refuses the text "bad". *)
Lemma buildFlagConfig_lookup_witness :
  let parse := fun text : jsstring =>
                 if jsstring_eqb text (js "bad") then None else Some text in
  let flags :=
    [ {| ConfigRoute.stored_key := js "a"; ConfigRoute.stored_config := js "bad" |};
      {| ConfigRoute.stored_key := js "__proto__";
         ConfigRoute.stored_config := js "{}" |};
      {| ConfigRoute.stored_key := js "a"; ConfigRoute.stored_config := js "true" |} ] in
  ConfigRoute.buildFlagConfig parse flags !! js "a" = Some (js "true") /\
  ConfigRoute.buildFlagConfig parse flags !! js "b" = None /\
  ConfigRoute.buildFlagConfig parse flags =
  ConfigRoute.buildFlagConfig parse (List.tl flags).
Proof.
  cbv zeta. split; [| split].
  - rewrite (proj1 (buildFlagConfig_lookup _ _ (js "a"))) by discriminate.
    vm_compute. reflexivity.
  - apply (proj2 (proj2 (proj2 (buildFlagConfig_lookup _ _ (js "b"))))).
    intros flag [<- | [<- | [<- | []]]]; discriminate.
  - apply (proj1 (proj2 (proj2 (buildFlagConfig_lookup _ _ []))) [] _ _ eq_refl).
    reflexivity.
Defined.

(** A static configuration beside URL and key: nothing is fetched and the
    timer runs; without a key there is no timer; without both, with no
    static configuration, the call rejects. *)
Lemma node_createFlagClient_modes_witness :
  let static := config (mkEvaluator [ordering_flag]) in
  NodeClient.createFlagClient_config (node_options (Some static) (Some (js "key")))
    = Returned (NodeClient.Static static) /\
  NodeClient.refreshTimer
    (NodeClient.createFlagClient_client
       (node_options (Some static) (Some (js "key"))) static 7%positive)
    = Some 7%positive /\
  NodeClient.refreshTimer
    (NodeClient.createFlagClient_client
       (node_options (Some static) None) static 7%positive) = None /\
  NodeClient.createFlagClient_config (node_options None (Some (js "key")))
    = Returned (NodeClient.Fetched (js "https://api.example") (js "key") None None) /\
  NodeClient.createFlagClient_config (node_options None None)
    = Raised (Error (js "Either staticConfig or both apiUrl and apiKey must be provided")).
Proof.
  cbv zeta. split; [| split; [| split; [| split]]].
  - exact (proj1 (node_createFlagClient_modes
                    (node_options (Some (config (mkEvaluator [ordering_flag])))
                       (Some (js "key"))) 7%positive)
                 (config (mkEvaluator [ordering_flag])) eq_refl).
  - destruct (proj2 (proj2 (node_createFlagClient_modes
                              (node_options
                                 (Some (config (mkEvaluator [ordering_flag])))
                                 (Some (js "key"))) 7%positive))
                (config (mkEvaluator [ordering_flag]))) as (_ & _ & Ht).
    exact Ht.
  - destruct (proj2 (proj2 (node_createFlagClient_modes
                              (node_options
                                 (Some (config (mkEvaluator [ordering_flag])))
                                 None) 7%positive))
                (config (mkEvaluator [ordering_flag]))) as (_ & _ & Ht).
    exact Ht.
  - apply (proj1 (proj1 (proj2 (node_createFlagClient_modes
                                  (node_options None (Some (js "key")))
                                  7%positive)) eq_refl));
      try reflexivity; discriminate.
  - apply (proj2 (proj1 (proj2 (node_createFlagClient_modes
                                  (node_options None None) 7%positive)) eq_refl)).
    right. reflexivity.
Defined.

(** A client with URL and key asks for the configuration; one without a
    key cannot refresh; a closed one rejects. *)
Lemma node_refresh_witness :
  let static := config (mkEvaluator [ordering_flag]) in
  let client := NodeClient.new_FlagClient static (node_options None (Some (js "key"))) in
  let keyless := NodeClient.new_FlagClient static (node_options None None) in
  NodeClient.refresh_request client =
    Returned (js "https://api.example", js "key", 5000%float, WebClient.global_fetch) /\
  NodeClient.refresh_request keyless =
    Raised (Error (js "Cannot refresh: API URL and key required")) /\
  NodeClient.refresh_request (fst (NodeClient.close keyless)) =
    Raised (Error (js "Client is closed")).
Proof.
  cbv zeta. split; [| split].
  - apply (proj2 (proj1 (proj2 (node_refresh
             (NodeClient.new_FlagClient (config (mkEvaluator [ordering_flag]))
                (node_options None (Some (js "key")))))) eq_refl));
      try reflexivity; discriminate.
  - apply (proj1 (proj1 (proj2 (node_refresh
             (NodeClient.new_FlagClient (config (mkEvaluator [ordering_flag]))
                (node_options None None)))) eq_refl)).
    right. reflexivity.
  - apply (proj1 (node_refresh _)). reflexivity.
Defined.

(** An open Node client answers as the evaluator. *)
Lemma node_client_closed_or_open_witness :
  let client :=
    NodeClient.new_FlagClient (config (mkEvaluator [ordering_flag]))
      (node_options None None) in
  let context := mkContext None [(js "country", str "US")] in
  NodeClient.isClosed client = false /\
  NodeClient.getBool client (js "test-flag") context =
    of_completion
      (evalBool {| config := NodeClient.getConfig client |} (js "test-flag")
         context) /\
  exists rb,
    NodeClient.getBool client (js "test-flag") context = Returned rb /\
    result_value rb = true.
Proof.
  cbv zeta. split; [reflexivity |].
  destruct (proj2 (node_client_closed_or_open
                     (NodeClient.new_FlagClient
                        (config (mkEvaluator [ordering_flag]))
                        (node_options None None))
                     (js "test-flag") (mkContext None [(js "country", str "US")]))
                  eq_refl) as (Hb & _).
  split; [exact Hb |]. rewrite Hb. eexists. split; vm_compute; reflexivity.
Defined.

(** The order of two conditions decides when one of them throws: the
    condition on [p] throws, and is not reached after one that fails. *)
Example conditions_order_with_exception :
  let fails := mkCondition "country" "eq" (str "UK") in
  let throws := mkCondition "p" "eq" (str "x") in
  let context := mkContext None [(js "country", str "US"); (js "p", stubborn)] in
  evaluateConditions (Some [fails; throws]) context = Normal false /\
  evaluateConditions (Some [throws; fails]) context = Throw TypeError.
Proof. split; vm_compute; reflexivity. Qed.

(** A segment that the value at hand inherits is followed: the path
    "user.constructor" resolves to the constructor of objects. *)
Example inherited_segment_is_followed :
  getAttributeValue (mkContext None [(js "user", VObject 1%nat ∅)])
    (js "user.constructor") = Normal (Builtin ObjectConstructor).
Proof. vm_compute. reflexivity. Qed.

End Instances.
